(** * PC speaker: PIT state machine, edge log and impulse synthesis

    A shallow embedding of [src/hardware/pcspeaker.cpp] (DOSBox Staging).

    The C++ code computes on [float] (IEEE binary32).  Every definition
    below is written once, over an interface [FloatOps] that names the
    float operations the source uses, and is instantiated twice:

    - [binary32]: the operations of IEEE binary32 with round-to-nearest-even,
      built from the specification functions of [SpecFloat] at precision 24
      and maximal exponent 128.  This is the arithmetic the program runs on.
    - [exact]: the same operations on canonical rationals [Qc], without
      rounding.  It is the idealisation under which statements about exact
      periods and exact edge spacing make sense.

    Theorems that do not depend on the arithmetic are stated for every
    instance.  [assert]/[assertm] are compiled out of release builds; they
    are modelled as predicates next to the functions that carry them. *)

From Stdlib Require Import ZArith Bool Lia QArith Qcanon Qround Lqa.
From Stdlib Require Import Floats.SpecFloat.
From stdpp Require Import base option list.

Local Open Scope Z_scope.

(** ** The float interface *)

Class FloatOps (F : Type) : Type := {
  f_add : F → F → F;
  f_sub : F → F → F;
  f_mul : F → F → F;
  f_div : F → F → F;
  (** [a < b] and [a <= b]; both are [false] as soon as one side is a NaN *)
  f_ltb : F → F → bool;
  f_leb : F → F → bool;
  (** [static_cast<float>(n)] for an integer [n] *)
  f_of_Z : Z → F;
  (** [static_cast<integer>(x)]: truncation toward zero *)
  f_trunc : F → Z
}.

Declare Scope flt_scope.
Delimit Scope flt_scope with flt.
Infix "+" := f_add : flt_scope.
Infix "-" := f_sub : flt_scope.
Infix "*" := f_mul : flt_scope.
Infix "/" := f_div : flt_scope.
Infix "<?" := f_ltb : flt_scope.
Infix "<=?" := f_leb : flt_scope.
Notation "a >? b" := (f_ltb b a) : flt_scope.
Notation "a >=? b" := (f_leb b a) : flt_scope.

(** ** IEEE binary32 *)

Module B32.

Definition prec : Z := 24.
Definition emax : Z := 128.

Definition add := SFadd prec emax.
Definition sub := SFsub prec emax.
Definition mul := SFmul prec emax.
Definition div := SFdiv prec emax.
Definition ltb := SFltb.
Definition leb := SFleb.

(** Conversion of an integer, rounded to nearest even. *)
Definition of_Z (n : Z) : spec_float := binary_normalize prec emax n 0 false.

(** Truncation toward zero.  The conversion of a NaN or an infinity is
    undefined behaviour in C++; the model returns 0 there. *)
Definition trunc (x : spec_float) : Z :=
  match x with
  | S754_finite sx m e => cond_Zopp sx (Z.shiftl (Zpos m) e)
  | _ => 0
  end.

End B32.

#[export] Instance binary32 : FloatOps spec_float := {|
  f_add := B32.add; f_sub := B32.sub; f_mul := B32.mul; f_div := B32.div;
  f_ltb := B32.ltb; f_leb := B32.leb;
  f_of_Z := B32.of_Z; f_trunc := B32.trunc
|}.

(** ** Exact rationals *)

Module Exact.

Definition ltb (a b : Qc) : bool :=
  match (a ?= b)%Qc with Lt => true | _ => false end.
Definition leb (a b : Qc) : bool :=
  match (a ?= b)%Qc with Gt => false | _ => true end.
Definition of_Z (n : Z) : Qc := Q2Qc (inject_Z n).
Definition trunc (a : Qc) : Z :=
  if ltb a (of_Z 0) then Qceiling a else Qfloor a.

End Exact.

#[export] Instance exact : FloatOps Qc := {|
  f_add := Qcplus; f_sub := Qcminus; f_mul := Qcmult; f_div := Qcdiv;
  f_ltb := Exact.ltb; f_leb := Exact.leb;
  f_of_Z := Exact.of_Z; f_trunc := Exact.trunc
|}.

(** ** Constants of the speaker *)

Definition SPKR_ENTRIES : Z := 1024.
Definition SPKR_POSITIVE_LEVEL : Z := 20000.
Definition SPKR_NEGATIVE_LEVEL : Z := - SPKR_POSITIVE_LEVEL.
Definition SPKR_FILTER_QUALITY : Z := 100.
Definition SPKR_OVERSAMPLING : Z := 32.
Definition SPKR_FILTER_WIDTH : Z := SPKR_FILTER_QUALITY * SPKR_OVERSAMPLING.

Arguments SPKR_ENTRIES : simpl never.
Arguments SPKR_POSITIVE_LEVEL : simpl never.
Arguments SPKR_NEGATIVE_LEVEL : simpl never.
Arguments SPKR_FILTER_QUALITY : simpl never.
Arguments SPKR_OVERSAMPLING : simpl never.
Arguments SPKR_FILTER_WIDTH : simpl never.

(** [PIT_TICK_RATE] comes from [timer.h], which is not part of the sources at
    hand: it is a parameter of the development. *)
Class TimerConsts : Type := { PIT_TICK_RATE : Z }.

(** Wrap-around of the fixed-width integer types that occur. *)
Definition to_uint32 (z : Z) : Z := z mod 2 ^ 32.
Definition to_int16 (z : Z) : Z := (z + 2 ^ 15) mod 2 ^ 16 - 2 ^ 15.

Section Speaker.

Context {F : Type} {HF : FloatOps F} {HT : TimerConsts}.

Definition SPKR_HIGHPASS : F := (f_of_Z 999 / f_of_Z 1000)%flt.
Definition ms_per_pit_tick : F := (f_of_Z 1000 / f_of_Z PIT_TICK_RATE)%flt.

Record DelayEntry : Type := mk_entry {
  index : F;
  output_level : Z
}.

(** The global [spkr], followed by the three function-local statics:
    [previous_output_level] of [AddDelayEntry], and [current_output_level]
    and [mix_buffer] of [PCSPEAKER_CallBack]. *)
Record spkr_t : Type := mk_spkr {
  output_buffer : list F;
  sampled_impulse : list F;
  pit_mode : Z;
  rate : Z;
  rate_as_float : F;
  rate_per_ms : F;
  pit_output_enabled : bool;
  pit_clock_gate_enabled : bool;
  pit_output_level : Z;
  pit_new_max : F;
  pit_new_half : F;
  pit_max : F;
  pit_half : F;
  pit_index : F;
  pit_mode1_waiting_for_counter : bool;
  pit_mode1_waiting_for_trigger : bool;
  pit_mode1_pending_max : F;
  pit_mode3_counting : bool;
  last_index : F;
  minimum_counter : Z;
  entries : list DelayEntry;
  used : Z;
  previous_output_level : Z;
  current_output_level : F;
  mix_buffer : list Z
}.

Definition set_output_buffer (v : list F) (s : spkr_t) : spkr_t :=
  {| output_buffer := v; sampled_impulse := sampled_impulse s;
     pit_mode := pit_mode s; rate := rate s;
     rate_as_float := rate_as_float s; rate_per_ms := rate_per_ms s;
     pit_output_enabled := pit_output_enabled s;
     pit_clock_gate_enabled := pit_clock_gate_enabled s;
     pit_output_level := pit_output_level s; pit_new_max := pit_new_max s;
     pit_new_half := pit_new_half s; pit_max := pit_max s;
     pit_half := pit_half s; pit_index := pit_index s;
     pit_mode1_waiting_for_counter := pit_mode1_waiting_for_counter s;
     pit_mode1_waiting_for_trigger := pit_mode1_waiting_for_trigger s;
     pit_mode1_pending_max := pit_mode1_pending_max s;
     pit_mode3_counting := pit_mode3_counting s; last_index := last_index s;
     minimum_counter := minimum_counter s; entries := entries s;
     used := used s; previous_output_level := previous_output_level s;
     current_output_level := current_output_level s;
     mix_buffer := mix_buffer s |}.

Definition set_pit_mode (v : Z) (s : spkr_t) : spkr_t :=
  {| output_buffer := output_buffer s; sampled_impulse := sampled_impulse s;
     pit_mode := v; rate := rate s; rate_as_float := rate_as_float s;
     rate_per_ms := rate_per_ms s;
     pit_output_enabled := pit_output_enabled s;
     pit_clock_gate_enabled := pit_clock_gate_enabled s;
     pit_output_level := pit_output_level s; pit_new_max := pit_new_max s;
     pit_new_half := pit_new_half s; pit_max := pit_max s;
     pit_half := pit_half s; pit_index := pit_index s;
     pit_mode1_waiting_for_counter := pit_mode1_waiting_for_counter s;
     pit_mode1_waiting_for_trigger := pit_mode1_waiting_for_trigger s;
     pit_mode1_pending_max := pit_mode1_pending_max s;
     pit_mode3_counting := pit_mode3_counting s; last_index := last_index s;
     minimum_counter := minimum_counter s; entries := entries s;
     used := used s; previous_output_level := previous_output_level s;
     current_output_level := current_output_level s;
     mix_buffer := mix_buffer s |}.

Definition set_pit_output_enabled (v : bool) (s : spkr_t) : spkr_t :=
  {| output_buffer := output_buffer s; sampled_impulse := sampled_impulse s;
     pit_mode := pit_mode s; rate := rate s;
     rate_as_float := rate_as_float s; rate_per_ms := rate_per_ms s;
     pit_output_enabled := v;
     pit_clock_gate_enabled := pit_clock_gate_enabled s;
     pit_output_level := pit_output_level s; pit_new_max := pit_new_max s;
     pit_new_half := pit_new_half s; pit_max := pit_max s;
     pit_half := pit_half s; pit_index := pit_index s;
     pit_mode1_waiting_for_counter := pit_mode1_waiting_for_counter s;
     pit_mode1_waiting_for_trigger := pit_mode1_waiting_for_trigger s;
     pit_mode1_pending_max := pit_mode1_pending_max s;
     pit_mode3_counting := pit_mode3_counting s; last_index := last_index s;
     minimum_counter := minimum_counter s; entries := entries s;
     used := used s; previous_output_level := previous_output_level s;
     current_output_level := current_output_level s;
     mix_buffer := mix_buffer s |}.

Definition set_pit_clock_gate_enabled (v : bool) (s : spkr_t) : spkr_t :=
  {| output_buffer := output_buffer s; sampled_impulse := sampled_impulse s;
     pit_mode := pit_mode s; rate := rate s;
     rate_as_float := rate_as_float s; rate_per_ms := rate_per_ms s;
     pit_output_enabled := pit_output_enabled s; pit_clock_gate_enabled := v;
     pit_output_level := pit_output_level s; pit_new_max := pit_new_max s;
     pit_new_half := pit_new_half s; pit_max := pit_max s;
     pit_half := pit_half s; pit_index := pit_index s;
     pit_mode1_waiting_for_counter := pit_mode1_waiting_for_counter s;
     pit_mode1_waiting_for_trigger := pit_mode1_waiting_for_trigger s;
     pit_mode1_pending_max := pit_mode1_pending_max s;
     pit_mode3_counting := pit_mode3_counting s; last_index := last_index s;
     minimum_counter := minimum_counter s; entries := entries s;
     used := used s; previous_output_level := previous_output_level s;
     current_output_level := current_output_level s;
     mix_buffer := mix_buffer s |}.

Definition set_pit_output_level (v : Z) (s : spkr_t) : spkr_t :=
  {| output_buffer := output_buffer s; sampled_impulse := sampled_impulse s;
     pit_mode := pit_mode s; rate := rate s;
     rate_as_float := rate_as_float s; rate_per_ms := rate_per_ms s;
     pit_output_enabled := pit_output_enabled s;
     pit_clock_gate_enabled := pit_clock_gate_enabled s;
     pit_output_level := v; pit_new_max := pit_new_max s;
     pit_new_half := pit_new_half s; pit_max := pit_max s;
     pit_half := pit_half s; pit_index := pit_index s;
     pit_mode1_waiting_for_counter := pit_mode1_waiting_for_counter s;
     pit_mode1_waiting_for_trigger := pit_mode1_waiting_for_trigger s;
     pit_mode1_pending_max := pit_mode1_pending_max s;
     pit_mode3_counting := pit_mode3_counting s; last_index := last_index s;
     minimum_counter := minimum_counter s; entries := entries s;
     used := used s; previous_output_level := previous_output_level s;
     current_output_level := current_output_level s;
     mix_buffer := mix_buffer s |}.

Definition set_pit_new_max (v : F) (s : spkr_t) : spkr_t :=
  {| output_buffer := output_buffer s; sampled_impulse := sampled_impulse s;
     pit_mode := pit_mode s; rate := rate s;
     rate_as_float := rate_as_float s; rate_per_ms := rate_per_ms s;
     pit_output_enabled := pit_output_enabled s;
     pit_clock_gate_enabled := pit_clock_gate_enabled s;
     pit_output_level := pit_output_level s; pit_new_max := v;
     pit_new_half := pit_new_half s; pit_max := pit_max s;
     pit_half := pit_half s; pit_index := pit_index s;
     pit_mode1_waiting_for_counter := pit_mode1_waiting_for_counter s;
     pit_mode1_waiting_for_trigger := pit_mode1_waiting_for_trigger s;
     pit_mode1_pending_max := pit_mode1_pending_max s;
     pit_mode3_counting := pit_mode3_counting s; last_index := last_index s;
     minimum_counter := minimum_counter s; entries := entries s;
     used := used s; previous_output_level := previous_output_level s;
     current_output_level := current_output_level s;
     mix_buffer := mix_buffer s |}.

Definition set_pit_new_half (v : F) (s : spkr_t) : spkr_t :=
  {| output_buffer := output_buffer s; sampled_impulse := sampled_impulse s;
     pit_mode := pit_mode s; rate := rate s;
     rate_as_float := rate_as_float s; rate_per_ms := rate_per_ms s;
     pit_output_enabled := pit_output_enabled s;
     pit_clock_gate_enabled := pit_clock_gate_enabled s;
     pit_output_level := pit_output_level s; pit_new_max := pit_new_max s;
     pit_new_half := v; pit_max := pit_max s; pit_half := pit_half s;
     pit_index := pit_index s;
     pit_mode1_waiting_for_counter := pit_mode1_waiting_for_counter s;
     pit_mode1_waiting_for_trigger := pit_mode1_waiting_for_trigger s;
     pit_mode1_pending_max := pit_mode1_pending_max s;
     pit_mode3_counting := pit_mode3_counting s; last_index := last_index s;
     minimum_counter := minimum_counter s; entries := entries s;
     used := used s; previous_output_level := previous_output_level s;
     current_output_level := current_output_level s;
     mix_buffer := mix_buffer s |}.

Definition set_pit_max (v : F) (s : spkr_t) : spkr_t :=
  {| output_buffer := output_buffer s; sampled_impulse := sampled_impulse s;
     pit_mode := pit_mode s; rate := rate s;
     rate_as_float := rate_as_float s; rate_per_ms := rate_per_ms s;
     pit_output_enabled := pit_output_enabled s;
     pit_clock_gate_enabled := pit_clock_gate_enabled s;
     pit_output_level := pit_output_level s; pit_new_max := pit_new_max s;
     pit_new_half := pit_new_half s; pit_max := v; pit_half := pit_half s;
     pit_index := pit_index s;
     pit_mode1_waiting_for_counter := pit_mode1_waiting_for_counter s;
     pit_mode1_waiting_for_trigger := pit_mode1_waiting_for_trigger s;
     pit_mode1_pending_max := pit_mode1_pending_max s;
     pit_mode3_counting := pit_mode3_counting s; last_index := last_index s;
     minimum_counter := minimum_counter s; entries := entries s;
     used := used s; previous_output_level := previous_output_level s;
     current_output_level := current_output_level s;
     mix_buffer := mix_buffer s |}.

Definition set_pit_half (v : F) (s : spkr_t) : spkr_t :=
  {| output_buffer := output_buffer s; sampled_impulse := sampled_impulse s;
     pit_mode := pit_mode s; rate := rate s;
     rate_as_float := rate_as_float s; rate_per_ms := rate_per_ms s;
     pit_output_enabled := pit_output_enabled s;
     pit_clock_gate_enabled := pit_clock_gate_enabled s;
     pit_output_level := pit_output_level s; pit_new_max := pit_new_max s;
     pit_new_half := pit_new_half s; pit_max := pit_max s; pit_half := v;
     pit_index := pit_index s;
     pit_mode1_waiting_for_counter := pit_mode1_waiting_for_counter s;
     pit_mode1_waiting_for_trigger := pit_mode1_waiting_for_trigger s;
     pit_mode1_pending_max := pit_mode1_pending_max s;
     pit_mode3_counting := pit_mode3_counting s; last_index := last_index s;
     minimum_counter := minimum_counter s; entries := entries s;
     used := used s; previous_output_level := previous_output_level s;
     current_output_level := current_output_level s;
     mix_buffer := mix_buffer s |}.

Definition set_pit_index (v : F) (s : spkr_t) : spkr_t :=
  {| output_buffer := output_buffer s; sampled_impulse := sampled_impulse s;
     pit_mode := pit_mode s; rate := rate s;
     rate_as_float := rate_as_float s; rate_per_ms := rate_per_ms s;
     pit_output_enabled := pit_output_enabled s;
     pit_clock_gate_enabled := pit_clock_gate_enabled s;
     pit_output_level := pit_output_level s; pit_new_max := pit_new_max s;
     pit_new_half := pit_new_half s; pit_max := pit_max s;
     pit_half := pit_half s; pit_index := v;
     pit_mode1_waiting_for_counter := pit_mode1_waiting_for_counter s;
     pit_mode1_waiting_for_trigger := pit_mode1_waiting_for_trigger s;
     pit_mode1_pending_max := pit_mode1_pending_max s;
     pit_mode3_counting := pit_mode3_counting s; last_index := last_index s;
     minimum_counter := minimum_counter s; entries := entries s;
     used := used s; previous_output_level := previous_output_level s;
     current_output_level := current_output_level s;
     mix_buffer := mix_buffer s |}.

Definition set_pit_mode1_waiting_for_counter (v : bool) (s : spkr_t) : spkr_t :=
  {| output_buffer := output_buffer s; sampled_impulse := sampled_impulse s;
     pit_mode := pit_mode s; rate := rate s;
     rate_as_float := rate_as_float s; rate_per_ms := rate_per_ms s;
     pit_output_enabled := pit_output_enabled s;
     pit_clock_gate_enabled := pit_clock_gate_enabled s;
     pit_output_level := pit_output_level s; pit_new_max := pit_new_max s;
     pit_new_half := pit_new_half s; pit_max := pit_max s;
     pit_half := pit_half s; pit_index := pit_index s;
     pit_mode1_waiting_for_counter := v;
     pit_mode1_waiting_for_trigger := pit_mode1_waiting_for_trigger s;
     pit_mode1_pending_max := pit_mode1_pending_max s;
     pit_mode3_counting := pit_mode3_counting s; last_index := last_index s;
     minimum_counter := minimum_counter s; entries := entries s;
     used := used s; previous_output_level := previous_output_level s;
     current_output_level := current_output_level s;
     mix_buffer := mix_buffer s |}.

Definition set_pit_mode1_waiting_for_trigger (v : bool) (s : spkr_t) : spkr_t :=
  {| output_buffer := output_buffer s; sampled_impulse := sampled_impulse s;
     pit_mode := pit_mode s; rate := rate s;
     rate_as_float := rate_as_float s; rate_per_ms := rate_per_ms s;
     pit_output_enabled := pit_output_enabled s;
     pit_clock_gate_enabled := pit_clock_gate_enabled s;
     pit_output_level := pit_output_level s; pit_new_max := pit_new_max s;
     pit_new_half := pit_new_half s; pit_max := pit_max s;
     pit_half := pit_half s; pit_index := pit_index s;
     pit_mode1_waiting_for_counter := pit_mode1_waiting_for_counter s;
     pit_mode1_waiting_for_trigger := v;
     pit_mode1_pending_max := pit_mode1_pending_max s;
     pit_mode3_counting := pit_mode3_counting s; last_index := last_index s;
     minimum_counter := minimum_counter s; entries := entries s;
     used := used s; previous_output_level := previous_output_level s;
     current_output_level := current_output_level s;
     mix_buffer := mix_buffer s |}.

Definition set_pit_mode1_pending_max (v : F) (s : spkr_t) : spkr_t :=
  {| output_buffer := output_buffer s; sampled_impulse := sampled_impulse s;
     pit_mode := pit_mode s; rate := rate s;
     rate_as_float := rate_as_float s; rate_per_ms := rate_per_ms s;
     pit_output_enabled := pit_output_enabled s;
     pit_clock_gate_enabled := pit_clock_gate_enabled s;
     pit_output_level := pit_output_level s; pit_new_max := pit_new_max s;
     pit_new_half := pit_new_half s; pit_max := pit_max s;
     pit_half := pit_half s; pit_index := pit_index s;
     pit_mode1_waiting_for_counter := pit_mode1_waiting_for_counter s;
     pit_mode1_waiting_for_trigger := pit_mode1_waiting_for_trigger s;
     pit_mode1_pending_max := v; pit_mode3_counting := pit_mode3_counting s;
     last_index := last_index s; minimum_counter := minimum_counter s;
     entries := entries s; used := used s;
     previous_output_level := previous_output_level s;
     current_output_level := current_output_level s;
     mix_buffer := mix_buffer s |}.

Definition set_pit_mode3_counting (v : bool) (s : spkr_t) : spkr_t :=
  {| output_buffer := output_buffer s; sampled_impulse := sampled_impulse s;
     pit_mode := pit_mode s; rate := rate s;
     rate_as_float := rate_as_float s; rate_per_ms := rate_per_ms s;
     pit_output_enabled := pit_output_enabled s;
     pit_clock_gate_enabled := pit_clock_gate_enabled s;
     pit_output_level := pit_output_level s; pit_new_max := pit_new_max s;
     pit_new_half := pit_new_half s; pit_max := pit_max s;
     pit_half := pit_half s; pit_index := pit_index s;
     pit_mode1_waiting_for_counter := pit_mode1_waiting_for_counter s;
     pit_mode1_waiting_for_trigger := pit_mode1_waiting_for_trigger s;
     pit_mode1_pending_max := pit_mode1_pending_max s;
     pit_mode3_counting := v; last_index := last_index s;
     minimum_counter := minimum_counter s; entries := entries s;
     used := used s; previous_output_level := previous_output_level s;
     current_output_level := current_output_level s;
     mix_buffer := mix_buffer s |}.

Definition set_last_index (v : F) (s : spkr_t) : spkr_t :=
  {| output_buffer := output_buffer s; sampled_impulse := sampled_impulse s;
     pit_mode := pit_mode s; rate := rate s;
     rate_as_float := rate_as_float s; rate_per_ms := rate_per_ms s;
     pit_output_enabled := pit_output_enabled s;
     pit_clock_gate_enabled := pit_clock_gate_enabled s;
     pit_output_level := pit_output_level s; pit_new_max := pit_new_max s;
     pit_new_half := pit_new_half s; pit_max := pit_max s;
     pit_half := pit_half s; pit_index := pit_index s;
     pit_mode1_waiting_for_counter := pit_mode1_waiting_for_counter s;
     pit_mode1_waiting_for_trigger := pit_mode1_waiting_for_trigger s;
     pit_mode1_pending_max := pit_mode1_pending_max s;
     pit_mode3_counting := pit_mode3_counting s; last_index := v;
     minimum_counter := minimum_counter s; entries := entries s;
     used := used s; previous_output_level := previous_output_level s;
     current_output_level := current_output_level s;
     mix_buffer := mix_buffer s |}.

Definition set_entries (v : list DelayEntry) (s : spkr_t) : spkr_t :=
  {| output_buffer := output_buffer s; sampled_impulse := sampled_impulse s;
     pit_mode := pit_mode s; rate := rate s;
     rate_as_float := rate_as_float s; rate_per_ms := rate_per_ms s;
     pit_output_enabled := pit_output_enabled s;
     pit_clock_gate_enabled := pit_clock_gate_enabled s;
     pit_output_level := pit_output_level s; pit_new_max := pit_new_max s;
     pit_new_half := pit_new_half s; pit_max := pit_max s;
     pit_half := pit_half s; pit_index := pit_index s;
     pit_mode1_waiting_for_counter := pit_mode1_waiting_for_counter s;
     pit_mode1_waiting_for_trigger := pit_mode1_waiting_for_trigger s;
     pit_mode1_pending_max := pit_mode1_pending_max s;
     pit_mode3_counting := pit_mode3_counting s; last_index := last_index s;
     minimum_counter := minimum_counter s; entries := v; used := used s;
     previous_output_level := previous_output_level s;
     current_output_level := current_output_level s;
     mix_buffer := mix_buffer s |}.

Definition set_used (v : Z) (s : spkr_t) : spkr_t :=
  {| output_buffer := output_buffer s; sampled_impulse := sampled_impulse s;
     pit_mode := pit_mode s; rate := rate s;
     rate_as_float := rate_as_float s; rate_per_ms := rate_per_ms s;
     pit_output_enabled := pit_output_enabled s;
     pit_clock_gate_enabled := pit_clock_gate_enabled s;
     pit_output_level := pit_output_level s; pit_new_max := pit_new_max s;
     pit_new_half := pit_new_half s; pit_max := pit_max s;
     pit_half := pit_half s; pit_index := pit_index s;
     pit_mode1_waiting_for_counter := pit_mode1_waiting_for_counter s;
     pit_mode1_waiting_for_trigger := pit_mode1_waiting_for_trigger s;
     pit_mode1_pending_max := pit_mode1_pending_max s;
     pit_mode3_counting := pit_mode3_counting s; last_index := last_index s;
     minimum_counter := minimum_counter s; entries := entries s; used := v;
     previous_output_level := previous_output_level s;
     current_output_level := current_output_level s;
     mix_buffer := mix_buffer s |}.

Definition set_previous_output_level (v : Z) (s : spkr_t) : spkr_t :=
  {| output_buffer := output_buffer s; sampled_impulse := sampled_impulse s;
     pit_mode := pit_mode s; rate := rate s;
     rate_as_float := rate_as_float s; rate_per_ms := rate_per_ms s;
     pit_output_enabled := pit_output_enabled s;
     pit_clock_gate_enabled := pit_clock_gate_enabled s;
     pit_output_level := pit_output_level s; pit_new_max := pit_new_max s;
     pit_new_half := pit_new_half s; pit_max := pit_max s;
     pit_half := pit_half s; pit_index := pit_index s;
     pit_mode1_waiting_for_counter := pit_mode1_waiting_for_counter s;
     pit_mode1_waiting_for_trigger := pit_mode1_waiting_for_trigger s;
     pit_mode1_pending_max := pit_mode1_pending_max s;
     pit_mode3_counting := pit_mode3_counting s; last_index := last_index s;
     minimum_counter := minimum_counter s; entries := entries s;
     used := used s; previous_output_level := v;
     current_output_level := current_output_level s;
     mix_buffer := mix_buffer s |}.

Definition set_current_output_level (v : F) (s : spkr_t) : spkr_t :=
  {| output_buffer := output_buffer s; sampled_impulse := sampled_impulse s;
     pit_mode := pit_mode s; rate := rate s;
     rate_as_float := rate_as_float s; rate_per_ms := rate_per_ms s;
     pit_output_enabled := pit_output_enabled s;
     pit_clock_gate_enabled := pit_clock_gate_enabled s;
     pit_output_level := pit_output_level s; pit_new_max := pit_new_max s;
     pit_new_half := pit_new_half s; pit_max := pit_max s;
     pit_half := pit_half s; pit_index := pit_index s;
     pit_mode1_waiting_for_counter := pit_mode1_waiting_for_counter s;
     pit_mode1_waiting_for_trigger := pit_mode1_waiting_for_trigger s;
     pit_mode1_pending_max := pit_mode1_pending_max s;
     pit_mode3_counting := pit_mode3_counting s; last_index := last_index s;
     minimum_counter := minimum_counter s; entries := entries s;
     used := used s; previous_output_level := previous_output_level s;
     current_output_level := v; mix_buffer := mix_buffer s |}.

Definition set_mix_buffer (v : list Z) (s : spkr_t) : spkr_t :=
  {| output_buffer := output_buffer s; sampled_impulse := sampled_impulse s;
     pit_mode := pit_mode s; rate := rate s;
     rate_as_float := rate_as_float s; rate_per_ms := rate_per_ms s;
     pit_output_enabled := pit_output_enabled s;
     pit_clock_gate_enabled := pit_clock_gate_enabled s;
     pit_output_level := pit_output_level s; pit_new_max := pit_new_max s;
     pit_new_half := pit_new_half s; pit_max := pit_max s;
     pit_half := pit_half s; pit_index := pit_index s;
     pit_mode1_waiting_for_counter := pit_mode1_waiting_for_counter s;
     pit_mode1_waiting_for_trigger := pit_mode1_waiting_for_trigger s;
     pit_mode1_pending_max := pit_mode1_pending_max s;
     pit_mode3_counting := pit_mode3_counting s; last_index := last_index s;
     minimum_counter := minimum_counter s; entries := entries s;
     used := used s; previous_output_level := previous_output_level s;
     current_output_level := current_output_level s; mix_buffer := v |}.

(** *** The edge log *)

Definition AddDelayEntry (idx : F) (new_output_level : Z) (s : spkr_t) : spkr_t :=
  if new_output_level =? previous_output_level s then s
  else
    let s := set_previous_output_level new_output_level s in
    if used s =? SPKR_ENTRIES then s
    else
      let s := set_entries
                 (<[Z.to_nat (used s) := mk_entry idx new_output_level]> (entries s)) s in
      set_used (used s + 1) s.

Definition AddPITOutput (idx : F) (s : spkr_t) : spkr_t :=
  if pit_output_enabled s then AddDelayEntry idx (pit_output_level s) s else s.

(** The live part of [entries]: the Edge Log. *)
Definition edge_log (s : spkr_t) : list DelayEntry :=
  take (Z.to_nat (used s)) (entries s).

(** *** Forward advancement *)

(** The [while (passed > 0)] loop of mode 2.  [None] is the loop still
    running when the fuel is spent. *)
Fixpoint ForwardPIT_mode2 (fuel : nat) (passed delay_base : F) (s : spkr_t)
  : option spkr_t :=
  if negb (passed >? f_of_Z 0)%flt then Some s
  else
    match fuel with
    | O => None
    | S fuel' =>
        if (pit_index s >=? pit_half s)%flt then
          if (pit_index s + passed >=? pit_max s)%flt then
            let delay := (pit_max s - pit_index s)%flt in
            let delay_base := (delay_base + delay)%flt in
            let passed := (passed - delay)%flt in
            let s := set_pit_output_level SPKR_NEGATIVE_LEVEL s in
            let s := AddPITOutput delay_base s in
            let s := set_pit_index (f_of_Z 0) s in
            ForwardPIT_mode2 fuel' passed delay_base s
          else Some (set_pit_index (pit_index s + passed)%flt s)
        else
          if (pit_index s + passed >=? pit_half s)%flt then
            let delay := (pit_half s - pit_index s)%flt in
            let delay_base := (delay_base + delay)%flt in
            let passed := (passed - delay)%flt in
            let s := set_pit_output_level SPKR_POSITIVE_LEVEL s in
            let s := AddPITOutput delay_base s in
            let s := set_pit_index (pit_half s) s in
            ForwardPIT_mode2 fuel' passed delay_base s
          else Some (set_pit_index (pit_index s + passed)%flt s)
    end.

(** The loop of mode 3; both branches reload the staged period. *)
Fixpoint ForwardPIT_mode3 (fuel : nat) (passed delay_base : F) (s : spkr_t)
  : option spkr_t :=
  if negb (passed >? f_of_Z 0)%flt then Some s
  else
    match fuel with
    | O => None
    | S fuel' =>
        if (pit_index s >=? pit_half s)%flt then
          if (pit_index s + passed >=? pit_max s)%flt then
            let delay := (pit_max s - pit_index s)%flt in
            let delay_base := (delay_base + delay)%flt in
            let passed := (passed - delay)%flt in
            let s := set_pit_output_level SPKR_POSITIVE_LEVEL s in
            let s := AddPITOutput delay_base s in
            let s := set_pit_index (f_of_Z 0) s in
            let s := set_pit_half (pit_new_half s) s in
            let s := set_pit_max (pit_new_max s) s in
            ForwardPIT_mode3 fuel' passed delay_base s
          else Some (set_pit_index (pit_index s + passed)%flt s)
        else
          if (pit_index s + passed >=? pit_half s)%flt then
            let delay := (pit_half s - pit_index s)%flt in
            let delay_base := (delay_base + delay)%flt in
            let passed := (passed - delay)%flt in
            let s := set_pit_output_level SPKR_NEGATIVE_LEVEL s in
            let s := AddPITOutput delay_base s in
            let s := set_pit_index (pit_half s) s in
            let s := set_pit_half (pit_new_half s) s in
            let s := set_pit_max (pit_new_max s) s in
            ForwardPIT_mode3 fuel' passed delay_base s
          else Some (set_pit_index (pit_index s + passed)%flt s)
    end.

(** The body shared by modes 0 and 1 once their early returns are passed;
    [mode1] marks the pulse as finished. *)
Definition ForwardPIT_oneshot (mode1 : bool) (passed delay_base : F) (s : spkr_t)
  : spkr_t :=
  if (pit_index s >=? pit_max s)%flt then s
  else
    let s := set_pit_index (pit_index s + passed)%flt s in
    if (pit_index s >=? pit_max s)%flt then
      let delay := (delay_base + pit_max s - pit_index s + passed)%flt in
      let s := set_pit_output_level SPKR_POSITIVE_LEVEL s in
      let s := AddPITOutput delay s in
      if mode1 then set_pit_mode1_waiting_for_trigger true s else s
    else s.

Definition ForwardPIT (fuel : nat) (newindex : F) (s : spkr_t) : option spkr_t :=
  let passed := (newindex - last_index s)%flt in
  let delay_base := last_index s in
  let s := set_last_index newindex s in
  match pit_mode s with
  | 6 => Some s
  | 0 => Some (ForwardPIT_oneshot false passed delay_base s)
  | 1 =>
      if pit_mode1_waiting_for_counter s then Some s
      else if pit_mode1_waiting_for_trigger s then Some s
      else Some (ForwardPIT_oneshot true passed delay_base s)
  | 2 => ForwardPIT_mode2 fuel passed delay_base s
  | 3 =>
      if negb (pit_mode3_counting s) then Some s
      else ForwardPIT_mode3 fuel passed delay_base s
  | 4 =>
      if (pit_index s <? pit_max s)%flt then
        if (pit_index s + passed >=? pit_max s)%flt then
          let delay := (pit_max s - pit_index s)%flt in
          let delay_base := (delay_base + delay)%flt in
          let s := set_pit_output_level SPKR_NEGATIVE_LEVEL s in
          let s := AddPITOutput delay_base s in
          Some (set_pit_index (pit_max s) s)
        else Some (set_pit_index (pit_index s + passed)%flt s)
      else Some s
  | _ => Some s
  end.

(** *** The control entry points.  [newindex] is what [PIC_TickIndex()]
    returns at the call. *)

Definition PCSPEAKER_SetPITControl (fuel : nat) (newindex : F) (mode : Z)
    (s : spkr_t) : option spkr_t :=
  s ← ForwardPIT fuel newindex s;
  match mode with
  | 1 =>
      let s := set_pit_mode 1 s in
      let s := set_pit_mode1_waiting_for_counter true s in
      let s := set_pit_mode1_waiting_for_trigger false s in
      let s := set_pit_output_level SPKR_POSITIVE_LEVEL s in
      Some (AddPITOutput newindex s)
  | 3 =>
      let s := set_pit_mode 3 s in
      let s := set_pit_mode3_counting false s in
      let s := set_pit_output_level SPKR_POSITIVE_LEVEL s in
      Some (AddPITOutput newindex s)
  | _ => Some s
  end.

Definition PCSPEAKER_SetCounter (fuel : nat) (newindex : F) (cntr mode : Z)
    (s : spkr_t) : option spkr_t :=
  let duration_of_count_ms := (ms_per_pit_tick * f_of_Z cntr)%flt in
  s ← ForwardPIT fuel newindex s;
  match mode with
  | 0 =>
      let s := set_pit_output_level SPKR_NEGATIVE_LEVEL s in
      let s := set_pit_index (f_of_Z 0) s in
      let s := set_pit_max duration_of_count_ms s in
      let s := AddPITOutput newindex s in
      Some (set_pit_mode mode s)
  | 1 =>
      let s := set_pit_mode1_pending_max duration_of_count_ms s in
      let s :=
        if pit_mode1_waiting_for_counter s then
          set_pit_mode1_waiting_for_trigger true
            (set_pit_mode1_waiting_for_counter false s)
        else s in
      Some (set_pit_mode mode s)
  | 2 =>
      let s := set_pit_index (f_of_Z 0) s in
      let s := set_pit_output_level SPKR_NEGATIVE_LEVEL s in
      let s := AddPITOutput newindex s in
      let s := set_pit_half ms_per_pit_tick s in
      let s := set_pit_max duration_of_count_ms s in
      Some (set_pit_mode mode s)
  | 3 =>
      if cntr <? minimum_counter s then
        let s := set_pit_output_level SPKR_POSITIVE_LEVEL s in
        let s := set_pit_mode 6 s in
        Some (AddPITOutput newindex s)
      else
        let s := set_pit_new_max duration_of_count_ms s in
        let s := set_pit_new_half (pit_new_max s / f_of_Z 2)%flt s in
        let s :=
          if negb (pit_mode3_counting s) then
            let s := set_pit_index (f_of_Z 0) s in
            let s := set_pit_max (pit_new_max s) s in
            let s := set_pit_half (pit_new_half s) s in
            if pit_clock_gate_enabled s then
              let s := set_pit_mode3_counting true s in
              let s := set_pit_output_level SPKR_POSITIVE_LEVEL s in
              AddPITOutput newindex s
            else s
          else s in
        Some (set_pit_mode mode s)
  | 4 =>
      let s := set_pit_output_level SPKR_POSITIVE_LEVEL s in
      let s := AddPITOutput newindex s in
      let s := set_pit_index (f_of_Z 0) s in
      let s := set_pit_max duration_of_count_ms s in
      Some (set_pit_mode mode s)
  | _ => Some s
  end.

Definition PCSPEAKER_SetType (fuel : nat) (newindex : F)
    (clock_gate_enabled output_enabled : bool) (s : spkr_t) : option spkr_t :=
  s ← ForwardPIT fuel newindex s;
  let pit_trigger := clock_gate_enabled && negb (pit_clock_gate_enabled s) in
  let s := set_pit_clock_gate_enabled clock_gate_enabled s in
  let s := set_pit_output_enabled output_enabled s in
  let s :=
    if pit_trigger then
      match pit_mode s with
      | 1 =>
          if pit_mode1_waiting_for_counter s then s
          else
            let s := set_pit_output_level SPKR_NEGATIVE_LEVEL s in
            let s := set_pit_index (f_of_Z 0) s in
            let s := set_pit_max (pit_mode1_pending_max s) s in
            set_pit_mode1_waiting_for_trigger false s
      | 3 =>
          let s := set_pit_mode3_counting true s in
          let s := set_pit_new_half (pit_new_max s / f_of_Z 2)%flt s in
          let s := set_pit_index (f_of_Z 0) s in
          let s := set_pit_max (pit_new_max s) s in
          let s := set_pit_half (pit_new_half s) s in
          set_pit_output_level SPKR_POSITIVE_LEVEL s
      | _ => s
      end
    else if negb clock_gate_enabled then
      match pit_mode s with
      | 1 => s
      | 3 =>
          let s := set_pit_output_level SPKR_POSITIVE_LEVEL s in
          set_pit_mode3_counting false s
      | _ => s
      end
    else s in
  if output_enabled then Some (AddDelayEntry newindex (pit_output_level s) s)
  else Some (AddDelayEntry newindex SPKR_NEGATIVE_LEVEL s).

(** *** The impulse synthesizer *)

(** The [(offset, phase)] pair that [add_impulse] computes for an edge at
    [idx]: both conversions to [uint32_t] truncate; a non-zero phase moves
    the impulse to the next sample and mirrors the phase. *)
Definition impulse_position (idx : F) (s : spkr_t) : Z * Z :=
  let samples_in_impulse := (idx * rate_per_ms s)%flt in
  let offset := to_uint32 (f_trunc samples_in_impulse) in
  let phase :=
    to_uint32 (f_trunc (samples_in_impulse * f_of_Z SPKR_OVERSAMPLING)%flt)
      mod SPKR_OVERSAMPLING in
  if phase =? 0 then (offset, phase)
  else (to_uint32 (offset + 1), SPKR_OVERSAMPLING - phase).

(** One iteration of the tap loop.  Reading or writing a vector out of its
    bounds is undefined behaviour in C++; the model leaves the buffer as it
    is there.  The two [assertm] of the loop are [add_impulse_asserts]. *)
Definition add_impulse_tap (amplitude : F) (offset phase : Z)
    (buf : list F) (kernel : list F) (i : Z) : list F :=
  match kernel !! Z.to_nat (phase + i * SPKR_OVERSAMPLING) with
  | Some k =>
      alter (λ x, x + amplitude * k)%flt (Z.to_nat (to_uint32 (offset + i))) buf
  | None => buf
  end.

Definition add_impulse (idx amplitude : F) (s : spkr_t) : spkr_t :=
  let '(offset, phase) := impulse_position idx s in
  set_output_buffer
    (foldl (λ buf i, add_impulse_tap amplitude offset phase buf (sampled_impulse s) i)
           (output_buffer s) (seqZ 0 SPKR_FILTER_QUALITY))
    s.

Definition add_impulse_asserts (idx : F) (s : spkr_t) : Prop :=
  let '(offset, phase) := impulse_position idx s in
  ∀ i, 0 <= i < SPKR_FILTER_QUALITY →
    to_uint32 (offset + i) < Z.of_nat (length (output_buffer s))
    ∧ phase + SPKR_OVERSAMPLING * i < SPKR_FILTER_WIDTH.

(** Modelled from the spec: [clamp] is declared outside the sources at hand;
    the spec has every edge time clamped into [0, 1] before synthesis. *)
Definition clamp (v lo hi : F) : F :=
  if (v <? lo)%flt then lo else if (hi <? v)%flt then hi else v.

(** *** The output stage *)

(** The [for (i = 0; i < spkr.used; ++i)] loop of the callback. *)
Definition synthesize_edges (s : spkr_t) : spkr_t :=
  foldl (λ s e, add_impulse (clamp (index e) (f_of_Z 0) (f_of_Z 1))
                            (f_of_Z (output_level e)) s)
        s (edge_log s).

(** "consume" output buffer: one written sample per slot. *)
Fixpoint consume (slots : list F) (level : F) : list Z * F :=
  match slots with
  | [] => ([], level)
  | x :: slots' =>
      let level := (level + x)%flt in
      let sample := to_int16 (f_trunc level) in
      let '(rest, level') := consume slots' (level * SPKR_HIGHPASS)%flt in
      (sample :: rest, level')
  end.

(** What the callback writes through [stream], in order, together with
    the clamped [len] and the final filter level. *)
Definition CallBack_stream (len : Z) (s : spkr_t) : list Z * Z * F :=
  let size := Z.of_nat (length (output_buffer s)) in
  let '(zeros, len) :=
    if len >? size then (replicate (Z.to_nat (len - size)) 0, size)
    else ([], len) in
  let '(samples, level) :=
    consume (take (Z.to_nat len) (output_buffer s)) (current_output_level s) in
  (zeros ++ samples, len, level).

(** shift out consumed samples *)
Definition shift_out (len : nat) (buf : list F) : list F :=
  foldl (λ buf i, match buf !! i with
                  | Some x => <[(i - len)%nat := x]> buf
                  | None => buf
                  end)
        buf (seq len (length buf - len)).

(** zero the rest of the samples *)
Definition zero_rest (len : nat) (buf : list F) : list F :=
  foldl (λ buf i, <[i := f_of_Z 0]> buf) buf (seq (length buf - len) len).

(** The callback returns the new state and the arguments of
    [AddSamples_m16]: the frame count and the mix buffer.  The callback is
    only ever run by its own mixer channel, so [spkr.chan] is set. *)
Definition PCSPEAKER_CallBack (fuel : nat) (len : Z) (s : spkr_t)
  : option (spkr_t * (Z * list Z)) :=
  let mix :=
    if Z.of_nat (length (mix_buffer s)) <? len
    then resize (Z.to_nat len) 0 (mix_buffer s) else mix_buffer s in
  s ← ForwardPIT fuel (f_of_Z 1) s;
  let s := set_last_index (f_of_Z 0) s in
  let s := synthesize_edges s in
  let s := set_used 0 s in
  let '(written, len, level) := CallBack_stream len s in
  let s := set_current_output_level level s in
  let s := set_output_buffer
             (zero_rest (Z.to_nat len) (shift_out (Z.to_nat len) (output_buffer s))) s in
  let s := set_mix_buffer (written ++ drop (length written) mix) s in
  Some (s, (len, mix_buffer s)).

(** *** Initialisation *)

(** [check_cast<uint16_t>]: asserts the range in debug builds, converts. *)
Definition check_cast_uint16 (z : Z) : Z := z mod 2 ^ 16.

Definition output_buffer_length (rate : Z) : Z :=
  check_cast_uint16 (SPKR_FILTER_QUALITY + rate ÷ 1000 + 1).

(** The state the constructor of [PCSPEAKER] leaves, for the configured
    [pcrate].  The table [sampled_impulse] is filled by [impulse], which
    calls [cosf] and [powf]: its [SPKR_FILTER_WIDTH] values are taken as
    given. *)
Definition PCSPEAKER_Init (pcrate : Z) (kernel : list F) : spkr_t :=
  let rate := Z.max pcrate 8000 in
  let rate_as_float := f_of_Z rate in
  let pit_max := (ms_per_pit_tick * f_of_Z 1320)%flt in
  let pit_half := (pit_max / f_of_Z 2)%flt in
  {| output_buffer := replicate (Z.to_nat (output_buffer_length rate)) (f_of_Z 0);
     sampled_impulse := kernel;
     pit_mode := 3;
     rate := rate;
     rate_as_float := rate_as_float;
     rate_per_ms := (rate_as_float / f_of_Z 1000)%flt;
     pit_output_enabled := false;
     pit_clock_gate_enabled := false;
     pit_output_level := SPKR_POSITIVE_LEVEL;
     pit_new_max := pit_max;
     pit_new_half := pit_half;
     pit_max := pit_max;
     pit_half := pit_half;
     pit_index := f_of_Z 0;
     pit_mode1_waiting_for_counter := false;
     pit_mode1_waiting_for_trigger := true;
     pit_mode1_pending_max := f_of_Z 0;
     pit_mode3_counting := false;
     last_index := f_of_Z 0;
     minimum_counter := 2 * PIT_TICK_RATE ÷ rate;
     entries := replicate (Z.to_nat SPKR_ENTRIES)
                  (mk_entry (f_of_Z 0) SPKR_NEGATIVE_LEVEL);
     used := 0;
     previous_output_level := SPKR_NEGATIVE_LEVEL;
     current_output_level := f_of_Z 0;
     mix_buffer := [] |}.

End Speaker.

Arguments DelayEntry F : clear implicits.
Arguments spkr_t F : clear implicits.

(** The input clock of the 8254 timer, in Hz. *)
#[export] Instance pit_8254 : TimerConsts := {| PIT_TICK_RATE := 1193182 |}.



(** ** Concrete states used as examples

    A speaker configured at 48 kHz with an all-zero kernel, on binary32 and
    on exact rationals. *)

Definition zero_kernel {F : Type} {HF : FloatOps F} : list F :=
  replicate (Z.to_nat SPKR_FILTER_WIDTH) (f_of_Z 0).

Definition boot32 : spkr_t spec_float := PCSPEAKER_Init 48000 zero_kernel.
Definition bootQ : spkr_t Qc := PCSPEAKER_Init 48000 zero_kernel.

(** [1/8] and friends are dyadic, hence exact in binary32 as well. *)
Definition b32_frac (n d : Z) : spec_float := B32.div (B32.of_Z n) (B32.of_Z d).

(** The state after the guest selects mode 1 at the start of a tick. *)
Definition boot32_mode1 : spkr_t spec_float :=
  default boot32 (PCSPEAKER_SetPITControl 8 (B32.of_Z 0) 1 boot32).

(** A state whose Edge Log is full. *)
Definition boot32_full : spkr_t spec_float := set_used SPKR_ENTRIES boot32.

(** * Properties *)

(** Laws of the comparison that hold for IEEE floats and for rationals. *)
Class FloatLaws (F : Type) {HF : FloatOps F} : Prop := {
  f_ltb_irrefl : ∀ x : F, f_ltb x x = false
}.

Lemma B32_compare_refl (x : spec_float) : SFcompare x x ≠ Some Lt.
Proof.
  destruct x as [s|s| |s m e]; simpl; try destruct s; try discriminate.
  all: rewrite Z.compare_refl, Pos.compare_cont_spec, Pos.compare_refl.
  all: discriminate.
Qed.

Lemma B32_ltb_irrefl (x : spec_float) : B32.ltb x x = false.
Proof.
  unfold B32.ltb, SFltb. pose proof (B32_compare_refl x) as H.
  destruct (SFcompare x x) as [[| |]|]; congruence.
Qed.

#[export] Instance binary32_laws : FloatLaws spec_float.
Proof. constructor. exact B32_ltb_irrefl. Qed.

Lemma Exact_ltb_lt (a b : Qc) : Exact.ltb a b = true ↔ (a < b)%Qc.
Proof.
  unfold Exact.ltb, Qclt, Qccompare. rewrite Qlt_alt.
  destruct (this a ?= this b)%Q; split; congruence.
Qed.


Lemma Exact_ltb_irrefl (a : Qc) : Exact.ltb a a = false.
Proof.
  destruct (Exact.ltb a a) eqn:E; [|reflexivity].
  apply Exact_ltb_lt in E. exfalso. exact (Qclt_not_eq _ _ E eq_refl).
Qed.

#[export] Instance exact_laws : FloatLaws Qc.
Proof. constructor. exact Exact_ltb_irrefl. Qed.

Section EdgeLogFacts.

Context {F : Type} {HF : FloatOps F} {HT : TimerConsts}.
Implicit Types (s : spkr_t F) (idx : F) (lvl : Z).

(** What [AddDelayEntry] may touch: the log and the deduplication level. *)
Definition same_timer (s s' : spkr_t F) : Prop :=
  pit_mode s' = pit_mode s
  ∧ pit_output_enabled s' = pit_output_enabled s
  ∧ pit_clock_gate_enabled s' = pit_clock_gate_enabled s
  ∧ pit_output_level s' = pit_output_level s
  ∧ pit_new_max s' = pit_new_max s ∧ pit_new_half s' = pit_new_half s
  ∧ pit_max s' = pit_max s ∧ pit_half s' = pit_half s
  ∧ pit_index s' = pit_index s
  ∧ pit_mode1_waiting_for_counter s' = pit_mode1_waiting_for_counter s
  ∧ pit_mode1_waiting_for_trigger s' = pit_mode1_waiting_for_trigger s
  ∧ pit_mode1_pending_max s' = pit_mode1_pending_max s
  ∧ pit_mode3_counting s' = pit_mode3_counting s
  ∧ last_index s' = last_index s
  ∧ minimum_counter s' = minimum_counter s
  ∧ output_buffer s' = output_buffer s
  ∧ current_output_level s' = current_output_level s.

Lemma AddDelayEntry_same_timer idx lvl s : same_timer s (AddDelayEntry idx lvl s).
Proof.
  unfold AddDelayEntry, same_timer. repeat case_match; simpl; repeat split.
Qed.

Lemma AddDelayEntry_previous idx lvl s :
  previous_output_level (AddDelayEntry idx lvl s) = lvl.
Proof.
  unfold AddDelayEntry.
  destruct (lvl =? previous_output_level s) eqn:E.
  - symmetry. now apply Z.eqb_eq.
  - simpl. now destruct (used s =? SPKR_ENTRIES).
Qed.

Lemma AddDelayEntry_same_level idx s :
  AddDelayEntry idx (previous_output_level s) s = s.
Proof. unfold AddDelayEntry. now rewrite Z.eqb_refl. Qed.

Lemma AddDelayEntry_full idx lvl s :
  used s = SPKR_ENTRIES → edge_log (AddDelayEntry idx lvl s) = edge_log s.
Proof.
  intros Hfull. unfold AddDelayEntry.
  destruct (lvl =? previous_output_level s); [reflexivity|].
  simpl. rewrite Hfull. reflexivity.
Qed.

End EdgeLogFacts.

Section OutputStageFrame.

Context {F : Type} {HF : FloatOps F} {HT : TimerConsts}.
Implicit Types (s : spkr_t F).

Lemma set_output_buffer_id s : set_output_buffer (output_buffer s) s = s.
Proof. now destruct s. Qed.

Lemma add_impulse_buffer_only idx a s :
  add_impulse idx a s = set_output_buffer (output_buffer (add_impulse idx a s)) s.
Proof. unfold add_impulse. now destruct (impulse_position idx s). Qed.

Lemma synthesize_fold_buffer_only (l : list (DelayEntry F)) s :
  let step := λ s e, add_impulse (clamp (index e) (f_of_Z 0) (f_of_Z 1))
                                 (f_of_Z (output_level e)) s in
  foldl step s l = set_output_buffer (output_buffer (foldl step s l)) s.
Proof.
  intros step. revert s. induction l as [|e l IH]; intros s; simpl.
  - symmetry. apply set_output_buffer_id.
  - rewrite IH. set (b := output_buffer _). subst step. simpl.
    now rewrite add_impulse_buffer_only.
Qed.

Lemma synthesize_edges_buffer_only s :
  synthesize_edges s = set_output_buffer (output_buffer (synthesize_edges s)) s.
Proof. apply synthesize_fold_buffer_only. Qed.

(** The callback keeps the deduplication level its forward step left and
    empties the log. *)
Lemma CallBack_previous_level fuel len s sf :
  ForwardPIT fuel (f_of_Z 1) s = Some sf →
  ∃ s2 out, PCSPEAKER_CallBack fuel len s = Some (s2, out)
            ∧ previous_output_level s2 = previous_output_level sf
            ∧ used s2 = 0.
Proof.
  intros Hf. unfold PCSPEAKER_CallBack. rewrite Hf. simpl.
  destruct (CallBack_stream _ _) as [[written len'] level].
  eexists _, _. split; [reflexivity|]. simpl.
  now rewrite synthesize_edges_buffer_only.
Qed.

End OutputStageFrame.

Section Deduplication.

Context {F : Type} {HF : FloatOps F} {HT : TimerConsts}.
Implicit Types (s : spkr_t F) (idx : F) (lvl : Z).

(** C8.  The level [AddDelayEntry] deduplicates against becomes the submitted
    level before the capacity check, also when the entry is then discarded
    because the log holds [SPKR_ENTRIES] edges; nothing resets it: a second
    submission at the same level is dropped, right away, after the log is
    drained ([used = 0]), and the callback itself hands on the level its
    forward step left. *)
Theorem AddDelayEntry_reference_level idx idx' lvl s :
  let s1 := AddDelayEntry idx lvl s in
  previous_output_level s1 = lvl
  ∧ (used s = SPKR_ENTRIES → edge_log s1 = edge_log s)
  ∧ AddDelayEntry idx' lvl s1 = s1
  ∧ AddDelayEntry idx' lvl (set_used 0 s1) = set_used 0 s1
  ∧ (∀ fuel len sf, ForwardPIT fuel (f_of_Z 1) s1 = Some sf →
       ∃ s2 out, PCSPEAKER_CallBack fuel len s1 = Some (s2, out)
                 ∧ previous_output_level s2 = previous_output_level sf
                 ∧ used s2 = 0).
Proof.
  intros s1. pose proof (AddDelayEntry_previous idx lvl s) as Hp. fold s1 in Hp.
  repeat split.
  - exact Hp.
  - apply AddDelayEntry_full.
  - rewrite <- Hp at 1. apply AddDelayEntry_same_level.
  - replace lvl with (previous_output_level (set_used 0 s1)) at 1 by exact Hp.
    apply AddDelayEntry_same_level.
  - intros fuel len sf. apply CallBack_previous_level.
Qed.

End Deduplication.

Lemma AddDelayEntry_reference_level_full :
  used boot32_full = SPKR_ENTRIES
  ∧ edge_log (AddDelayEntry (B32.of_Z 0) SPKR_POSITIVE_LEVEL boot32_full)
    = edge_log boot32_full.
Proof.
  split; [reflexivity|].
  apply (AddDelayEntry_reference_level (B32.of_Z 0) (B32.of_Z 0)
           SPKR_POSITIVE_LEVEL boot32_full).
  reflexivity.
Defined.

Section GateTrigger.

Context {F : Type} {HF : FloatOps F} {HT : TimerConsts}.
Implicit Types (s : spkr_t F).

(** C9.  A gate rising edge delivered by [SetType] while mode 1 is still
    waiting for its first counter load changes nothing of the mode-1 timing
    state: the active period, the running index, the pending period, the
    output level (high stays high) and both waiting flags are as before. *)
Theorem SetType_trigger_waiting_for_counter fuel newindex output_enabled s :
  pit_mode s = 1 →
  pit_mode1_waiting_for_counter s = true →
  pit_clock_gate_enabled s = false →
  ∃ s', PCSPEAKER_SetType fuel newindex true output_enabled s = Some s'
        ∧ pit_mode s' = 1
        ∧ pit_max s' = pit_max s
        ∧ pit_index s' = pit_index s
        ∧ pit_mode1_pending_max s' = pit_mode1_pending_max s
        ∧ pit_output_level s' = pit_output_level s
        ∧ (pit_output_level s = SPKR_POSITIVE_LEVEL →
           pit_output_level s' = SPKR_POSITIVE_LEVEL)
        ∧ pit_mode1_waiting_for_counter s' = true
        ∧ pit_mode1_waiting_for_trigger s' = pit_mode1_waiting_for_trigger s.
Proof.
  intros Hmode Hwait Hgate.
  unfold PCSPEAKER_SetType, ForwardPIT. simpl.
  rewrite Hmode, Hwait. simpl. rewrite Hgate, Hmode, Hwait. simpl.
  match goal with
  | |- ∃ s', (if _ then Some (AddDelayEntry ?i ?l1 ?x)
              else Some (AddDelayEntry ?i ?l2 ?x)) = _ ∧ _ =>
      pose proof (AddDelayEntry_same_timer i l1 x) as H1;
      pose proof (AddDelayEntry_same_timer i l2 x) as H2
  end.
  unfold same_timer in H1, H2. simpl in H1, H2.
  destruct output_enabled; eexists; (split; [reflexivity|]).
  - destruct H1 as (-> & _ & _ & -> & _ & _ & -> & _ & -> & -> & -> & -> & _).
    rewrite Hmode, Hwait. repeat split; auto.
  - destruct H2 as (-> & _ & _ & -> & _ & _ & -> & _ & -> & -> & -> & -> & _).
    rewrite Hmode, Hwait. repeat split; auto.
Qed.

End GateTrigger.

Lemma SetType_trigger_waiting_for_counter_boot :
  pit_mode boot32_mode1 = 1
  ∧ pit_mode1_waiting_for_counter boot32_mode1 = true
  ∧ pit_clock_gate_enabled boot32_mode1 = false
  ∧ ∃ s', PCSPEAKER_SetType 8 (b32_frac 1 2) true true boot32_mode1 = Some s'
        ∧ pit_mode s' = 1
        ∧ pit_max s' = pit_max boot32_mode1
        ∧ pit_index s' = pit_index boot32_mode1
        ∧ pit_mode1_pending_max s' = pit_mode1_pending_max boot32_mode1
        ∧ pit_output_level s' = pit_output_level boot32_mode1
        ∧ (pit_output_level boot32_mode1 = SPKR_POSITIVE_LEVEL →
           pit_output_level s' = SPKR_POSITIVE_LEVEL)
        ∧ pit_mode1_waiting_for_counter s' = true
        ∧ pit_mode1_waiting_for_trigger s'
          = pit_mode1_waiting_for_trigger boot32_mode1.
Proof.
  repeat (split; [reflexivity|]).
  apply (SetType_trigger_waiting_for_counter 8 (b32_frac 1 2) true boot32_mode1);
    reflexivity.
Defined.

Section ForwardFrame.

Context {F : Type} {HF : FloatOps F} {HT : TimerConsts}.
Implicit Types (s : spkr_t F) (P : spkr_t F → Prop).

(** Successive forward-advance calls, at the positions [ts]. *)
Fixpoint ForwardPIT_seq (fuel : nat) (ts : list F) (s : spkr_t F)
  : option (spkr_t F) :=
  match ts with
  | [] => Some s
  | t :: ts' => s' ← ForwardPIT fuel t s; ForwardPIT_seq fuel ts' s'
  end.

(** The array of [SPKR_ENTRIES] log slots and its fill count. *)
Definition wf_log (s : spkr_t F) : Prop :=
  0 <= used s <= SPKR_ENTRIES ∧ length (entries s) = Z.to_nat SPKR_ENTRIES.

(** A property is forward-stable when each elementary update that
    [ForwardPIT] performs keeps it. *)
Record forward_stable (P : spkr_t F → Prop) : Prop := {
  fs_last_index : ∀ v s, P s → P (set_last_index v s);
  fs_pit_index : ∀ v s, P s → P (set_pit_index v s);
  fs_pit_output_level : ∀ v s, P s → P (set_pit_output_level v s);
  fs_pit_half : ∀ v s, P s → P (set_pit_half v s);
  fs_pit_max : ∀ v s, P s → P (set_pit_max v s);
  fs_waiting_for_trigger : ∀ v s, P s → P (set_pit_mode1_waiting_for_trigger v s);
  fs_AddDelayEntry : ∀ idx lvl s, P s → P (AddDelayEntry idx lvl s)
}.

Lemma AddPITOutput_stable P idx s :
  forward_stable P → P s → P (AddPITOutput idx s).
Proof.
  intros HP Hs. unfold AddPITOutput.
  destruct (pit_output_enabled s); [now apply fs_AddDelayEntry | exact Hs].
Qed.

Lemma ForwardPIT_mode2_stable P fuel :
  forward_stable P →
  ∀ passed delay_base s s',
    P s → ForwardPIT_mode2 fuel passed delay_base s = Some s' → P s'.
Proof.
  intros HP. induction fuel as [|fuel IH]; intros passed delay_base s s' Hs; simpl.
  - destruct (negb _); [intros [= <-]; exact Hs | discriminate].
  - destruct (negb _); [intros [= <-]; exact Hs |].
    repeat case_match; try (intros [= <-]; now apply fs_pit_index).
    + apply IH. apply fs_pit_index; [exact HP|].
      apply AddPITOutput_stable; [exact HP|]. now apply fs_pit_output_level.
    + apply IH. apply fs_pit_index; [exact HP|].
      apply AddPITOutput_stable; [exact HP|]. now apply fs_pit_output_level.
Qed.

Lemma ForwardPIT_mode3_stable P fuel :
  forward_stable P →
  ∀ passed delay_base s s',
    P s → ForwardPIT_mode3 fuel passed delay_base s = Some s' → P s'.
Proof.
  intros HP. induction fuel as [|fuel IH]; intros passed delay_base s s' Hs; simpl.
  - destruct (negb _); [intros [= <-]; exact Hs | discriminate].
  - destruct (negb _); [intros [= <-]; exact Hs |].
    repeat case_match; try (intros [= <-]; now apply fs_pit_index).
    + apply IH. apply fs_pit_max; [exact HP|]. apply fs_pit_half; [exact HP|].
      apply fs_pit_index; [exact HP|].
      apply AddPITOutput_stable; [exact HP|]. now apply fs_pit_output_level.
    + apply IH. apply fs_pit_max; [exact HP|]. apply fs_pit_half; [exact HP|].
      apply fs_pit_index; [exact HP|].
      apply AddPITOutput_stable; [exact HP|]. now apply fs_pit_output_level.
Qed.

Lemma ForwardPIT_oneshot_stable P mode1 passed delay_base s :
  forward_stable P → P s → P (ForwardPIT_oneshot mode1 passed delay_base s).
Proof.
  intros HP Hs. unfold ForwardPIT_oneshot.
  destruct (_ >=? _)%flt; [exact Hs|].
  destruct (_ >=? _)%flt; [|now apply fs_pit_index].
  assert (P (AddPITOutput
               (delay_base + pit_max (set_pit_index (pit_index s + passed) s)
                - pit_index (set_pit_index (pit_index s + passed) s) + passed)%flt
               (set_pit_output_level SPKR_POSITIVE_LEVEL
                  (set_pit_index (pit_index s + passed)%flt s)))) as H.
  { apply AddPITOutput_stable; [exact HP|]. apply fs_pit_output_level; [exact HP|].
    now apply fs_pit_index. }
  destruct mode1; [now apply fs_waiting_for_trigger | exact H].
Qed.

Theorem ForwardPIT_stable P fuel t s s' :
  forward_stable P → P s → ForwardPIT fuel t s = Some s' → P s'.
Proof.
  intros HP Hs. unfold ForwardPIT.
  assert (P (set_last_index t s)) as H0 by now apply fs_last_index.
  revert H0. generalize (set_last_index t s) as s1.
  generalize (t - last_index s)%flt as passed. generalize (last_index s) as db.
  intros db passed s1 H1.
  repeat case_match; try (intros [= <-]).
  all: first
    [ exact H1
    | now apply ForwardPIT_oneshot_stable
    | now apply ForwardPIT_mode2_stable
    | now apply ForwardPIT_mode3_stable
    | now apply fs_pit_index
    | apply fs_pit_index; [exact HP|]; apply AddPITOutput_stable; [exact HP|];
      now apply fs_pit_output_level ].
Qed.

Lemma ForwardPIT_seq_stable P fuel ts :
  forward_stable P → ∀ s s', P s → ForwardPIT_seq fuel ts s = Some s' → P s'.
Proof.
  intros HP. induction ts as [|t ts IH]; intros s s' Hs; simpl.
  - now intros [= <-].
  - destruct (ForwardPIT fuel t s) as [s1|] eqn:E; [|discriminate]. simpl.
    apply IH. eapply ForwardPIT_stable; eauto.
Qed.

End ForwardFrame.

Ltac stable_by_computation :=
  constructor; intros; unfold AddDelayEntry; repeat case_match; simpl; auto.

Section LogAppend.

Context {F : Type} {HF : FloatOps F} {HT : TimerConsts}.
Implicit Types (s : spkr_t F) (idx : F) (lvl : Z).

Lemma wf_log_stable : forward_stable (wf_log (F:=F)).
Proof.
  constructor; try (intros v s Hs; exact Hs).
  intros idx lvl s [Hu Hl]. unfold AddDelayEntry, wf_log.
  destruct (lvl =? _); [now split|]. simpl.
  destruct (used s =? SPKR_ENTRIES) eqn:E; [now split|]. simpl.
  apply Z.eqb_neq in E. rewrite length_insert. split; [lia | exact Hl].
Qed.


Lemma pit_output_enabled_stable b : forward_stable (λ s, pit_output_enabled s = b).
Proof. stable_by_computation. Qed.

Lemma pit_mode_stable m : forward_stable (λ s, pit_mode s = m).
Proof. stable_by_computation. Qed.

Lemma output_buffer_stable (buf : list F) : forward_stable (λ s, output_buffer s = buf).
Proof. stable_by_computation. Qed.

(** A submission at a new level, with room in the log, appends one edge. *)
Lemma AddDelayEntry_logged idx lvl s :
  wf_log s → lvl ≠ previous_output_level s → used s < SPKR_ENTRIES →
  edge_log (AddDelayEntry idx lvl s) = edge_log s ++ [mk_entry idx lvl]
  ∧ used (AddDelayEntry idx lvl s) = used s + 1.
Proof.
  intros [Hu Hl] Hne Hroom. unfold AddDelayEntry, edge_log.
  apply Z.eqb_neq in Hne. rewrite Hne. simpl.
  assert ((used s =? SPKR_ENTRIES) = false) as -> by (apply Z.eqb_neq; lia).
  simpl. split; [|reflexivity].
  replace (Z.to_nat (used s + 1)) with (S (Z.to_nat (used s))) by lia.
  erewrite take_S_r.
  - now rewrite take_insert_ge by lia.
  - apply list_lookup_insert_eq. unfold SPKR_ENTRIES in *. lia.
Qed.

(** What one application of [AddPITOutput] does to the log. *)
Lemma AddPITOutput_edge_log idx s :
  wf_log s →
  edge_log (AddPITOutput idx s) =
    if pit_output_enabled s
       && negb (pit_output_level s =? previous_output_level s)
       && (used s <? SPKR_ENTRIES)
    then edge_log s ++ [mk_entry idx (pit_output_level s)]
    else edge_log s.
Proof.
  intros Hwf. unfold AddPITOutput.
  destruct (pit_output_enabled s); simpl; [|reflexivity].
  destruct (pit_output_level s =? previous_output_level s) eqn:E; simpl.
  - apply Z.eqb_eq in E. rewrite E. now rewrite AddDelayEntry_same_level.
  - apply Z.eqb_neq in E. destruct (used s <? SPKR_ENTRIES) eqn:E2.
    + apply Z.ltb_lt in E2. now apply AddDelayEntry_logged.
    + apply Z.ltb_ge in E2. destruct Hwf as [Hu _].
      apply AddDelayEntry_full. lia.
Qed.

End LogAppend.

(** The speaker switched on at the start of a tick: gate and output enabled,
    mode 3 counting at the power-on period, one rising edge logged. *)
Definition boot32_on : spkr_t spec_float :=
  default boot32 (PCSPEAKER_SetType 8 (B32.of_Z 0) true true boot32).

(** The same, forwarded to three quarters of the tick: the first falling
    edge (at about 0.553) is logged. *)
Definition boot32_on_low : spkr_t spec_float :=
  default boot32_on (ForwardPIT 8 (b32_frac 3 4) boot32_on).

Section DummyMode.

Context {F : Type} {HF : FloatOps F} {HT : TimerConsts}.
Implicit Types (s : spkr_t F).




End DummyMode.



Section Strobe.

Context {F : Type} {HF : FloatOps F} {HL : FloatLaws F} {HT : TimerConsts}.
Implicit Types (s : spkr_t F).

Lemma AddPITOutput_same_timer idx s : same_timer s (AddPITOutput idx s).
Proof.
  unfold AddPITOutput. destruct (pit_output_enabled s).
  - apply AddDelayEntry_same_timer.
  - unfold same_timer. repeat split.
Qed.

Lemma AddPITOutput_wf_log idx s : wf_log s → wf_log (AddPITOutput idx s).
Proof. apply AddPITOutput_stable, wf_log_stable. Qed.

Lemma AddPITOutput_previous idx s :
  pit_output_enabled s = true →
  previous_output_level (AddPITOutput idx s) = pit_output_level s.
Proof.
  intros He. unfold AddPITOutput. rewrite He. apply AddDelayEntry_previous.
Qed.

Lemma AddPITOutput_disabled idx s :
  pit_output_enabled s = false → AddPITOutput idx s = s.
Proof. intros He. unfold AddPITOutput. now rewrite He. Qed.

(** The state of a strobe that was armed in [s4], seen after some forward
    calls: either still armed, with the log as [s4] had it, or spent, with at
    most one falling edge more. *)
Definition strobe_armed (s4 s : spkr_t F) : Prop :=
  edge_log s = edge_log s4 ∧ used s = used s4
  ∧ previous_output_level s = previous_output_level s4
  ∧ pit_output_level s = SPKR_POSITIVE_LEVEL.

Definition strobe_spent (s4 s : spkr_t F) : Prop :=
  (pit_index s <? pit_max s)%flt = false
  ∧ (edge_log s = edge_log s4
     ∨ ∃ t, edge_log s = edge_log s4 ++ [mk_entry t SPKR_NEGATIVE_LEVEL]).

Definition strobe_inv (s4 s : spkr_t F) : Prop :=
  pit_mode s = 4 ∧ wf_log s
  ∧ pit_max s = pit_max s4
  ∧ pit_output_enabled s = pit_output_enabled s4
  ∧ (strobe_armed s4 s ∨ strobe_spent s4 s).

(** A forward call in mode 4 that reaches the loaded maximum. *)
Lemma ForwardPIT_mode4_crossing fuel t s4 s :
  strobe_inv s4 s →
  (pit_output_enabled s4 = true → previous_output_level s4 = SPKR_POSITIVE_LEVEL) →
  (pit_index s <? pit_max s)%flt = true →
  (pit_index s + (t - last_index s) >=? pit_max s)%flt = true →
  ∃ s', ForwardPIT fuel t s = Some s'
    ∧ strobe_inv s4 s'
    ∧ pit_output_level s' = SPKR_NEGATIVE_LEVEL
    ∧ pit_index s' = pit_max s'
    ∧ edge_log s' =
        (if pit_output_enabled s4 && (used s <? SPKR_ENTRIES)
         then edge_log s4
              ++ [mk_entry (last_index s + (pit_max s - pit_index s))%flt
                           SPKR_NEGATIVE_LEVEL]
         else edge_log s4).
Proof.
  intros (Hm & Hwf & Hmax & Hen & Hst) Hprev Hlt Hge.
  destruct Hst as [(Hlog & Hused & Hp & Hlv) | (Hsp & _)]; [|congruence].
  unfold ForwardPIT. simpl. rewrite Hm, Hlt, Hge.
  set (s1 := set_pit_output_level SPKR_NEGATIVE_LEVEL (set_last_index t s)).
  set (e := (last_index s + (pit_max s - pit_index s))%flt).
  assert (wf_log s1) as Hwf1 by exact Hwf.
  destruct (AddPITOutput_same_timer e s1) as (Hm' & Hen' & _ & Hlv' & _ & _ & Hmx' & _).
  assert (edge_log (AddPITOutput e s1) =
          (if pit_output_enabled s
              && negb (SPKR_NEGATIVE_LEVEL =? previous_output_level s)
              && (used s <? SPKR_ENTRIES)
           then edge_log s ++ [mk_entry e SPKR_NEGATIVE_LEVEL]
           else edge_log s)) as Hlog'
    by exact (AddPITOutput_edge_log e s1 Hwf1).
  assert (edge_log (AddPITOutput e s1) =
          (if pit_output_enabled s4 && (used s <? SPKR_ENTRIES)
           then edge_log s4 ++ [mk_entry e SPKR_NEGATIVE_LEVEL]
           else edge_log s4)) as Hedge.
  { rewrite Hlog', Hen, Hlog.
    destruct (pit_output_enabled s4); simpl; [|reflexivity].
    rewrite Hp, (Hprev eq_refl). reflexivity. }
  eexists. split; [reflexivity|].
  split; [|split; [|split]].
  - split; [simpl; rewrite Hm'; exact Hm|].
    split; [apply (AddPITOutput_wf_log e s1 Hwf1)|].
    split; [simpl; rewrite Hmx'; exact Hmax|].
    split; [simpl; rewrite Hen'; exact Hen|].
    right. split; [simpl; apply f_ltb_irrefl |].
    change (edge_log (set_pit_index (pit_max (AddPITOutput e s1))
                        (AddPITOutput e s1)))
      with (edge_log (AddPITOutput e s1)).
    rewrite Hedge.
    destruct (pit_output_enabled s4 && (used s <? SPKR_ENTRIES));
      [right; now exists e | now left].
  - exact Hlv'.
  - reflexivity.
  - exact Hedge.
Qed.

(** Once the index is not below the maximum, forward calls only move
    [last_index]. *)
Lemma ForwardPIT_mode4_spent fuel t s :
  pit_mode s = 4 → (pit_index s <? pit_max s)%flt = false →
  ForwardPIT fuel t s = Some (set_last_index t s).
Proof. intros Hm Hlt. unfold ForwardPIT. simpl. now rewrite Hm, Hlt. Qed.

Lemma ForwardPIT_seq_mode4_spent fuel ts :
  ∀ s, pit_mode s = 4 → (pit_index s <? pit_max s)%flt = false →
    ∃ s', ForwardPIT_seq fuel ts s = Some s'
          ∧ edge_log s' = edge_log s
          ∧ pit_output_level s' = pit_output_level s
          ∧ pit_index s' = pit_index s.
Proof.
  induction ts as [|t ts IH]; intros s Hm Hlt; simpl.
  - now exists s.
  - rewrite (ForwardPIT_mode4_spent _ _ _ Hm Hlt). simpl.
    destruct (IH (set_last_index t s) Hm Hlt) as (s' & -> & H1 & H2 & H3).
    now exists s'.
Qed.

(** Any forward call keeps the strobe invariant. *)
Lemma ForwardPIT_mode4_inv fuel t s4 s :
  strobe_inv s4 s →
  (pit_output_enabled s4 = true → previous_output_level s4 = SPKR_POSITIVE_LEVEL) →
  ∃ s', ForwardPIT fuel t s = Some s' ∧ strobe_inv s4 s'.
Proof.
  intros Hinv Hprev.
  destruct (pit_index s <? pit_max s)%flt eqn:Hlt.
  - destruct (pit_index s + (t - last_index s) >=? pit_max s)%flt eqn:Hge.
    + destruct (ForwardPIT_mode4_crossing fuel t s4 s Hinv Hprev Hlt Hge)
        as (s' & E & Hinv' & _).
      now exists s'.
    + destruct Hinv as (Hm & Hwf & Hmax & Hen & Hst).
      unfold ForwardPIT. simpl. rewrite Hm, Hlt, Hge.
      eexists. split; [reflexivity|].
      split; [exact Hm|]. split; [exact Hwf|]. split; [exact Hmax|].
      split; [exact Hen|].
      destruct Hst as [Ha | [Hsp _]]; [left; exact Ha | congruence].
  - destruct Hinv as (Hm & Hwf & Hmax & Hen & Hst).
    rewrite (ForwardPIT_mode4_spent _ _ _ Hm Hlt).
    eexists. split; [reflexivity|].
    split; [exact Hm|]. split; [exact Hwf|]. split; [exact Hmax|].
    split; [exact Hen|]. exact Hst.
Qed.

Lemma ForwardPIT_seq_mode4_inv fuel ts s4 :
  (pit_output_enabled s4 = true → previous_output_level s4 = SPKR_POSITIVE_LEVEL) →
  ∀ s, strobe_inv s4 s →
    ∃ s', ForwardPIT_seq fuel ts s = Some s' ∧ strobe_inv s4 s'.
Proof.
  intros Hprev. induction ts as [|t ts IH]; intros s Hinv; simpl.
  - now exists s.
  - destruct (ForwardPIT_mode4_inv fuel t s4 s Hinv Hprev) as (s1 & -> & Hinv1).
    simpl. now apply IH.
Qed.

Lemma strobe_inv_log s4 s :
  strobe_inv s4 s →
  edge_log s = edge_log s4
  ∨ ∃ t, edge_log s = edge_log s4 ++ [mk_entry t SPKR_NEGATIVE_LEVEL].
Proof.
  intros (_ & _ & _ & _ & [(Hl & _) | (_ & Hl)]); [now left | exact Hl].
Qed.

End Strobe.

Section StrobeClaim.

Context {F : Type} {HF : FloatOps F} {HL : FloatLaws F} {HT : TimerConsts}.
Implicit Types (s : spkr_t F).

(** C5, as the code has it.  [SetCounter] with mode 4 arms a strobe: level
    high, index 0, the new maximum loaded.  Whatever forward calls follow,
    the log grows by at most one edge, a falling one.  It is submitted by the
    one call in which the index reaches the maximum, at the instant of the
    crossing, and is logged when the PIT output is enabled and the log has
    room; that call pins the index to the maximum, and no later forward call
    logs an edge or moves the level. *)
Theorem SetCounter_mode4_single_falling_edge fuel newindex cntr s sf :
  wf_log s →
  ForwardPIT fuel newindex s = Some sf →
  ∃ s4, PCSPEAKER_SetCounter fuel newindex cntr 4 s = Some s4
    ∧ pit_mode s4 = 4
    ∧ pit_index s4 = f_of_Z 0
    ∧ pit_max s4 = (ms_per_pit_tick * f_of_Z cntr)%flt
    ∧ pit_output_level s4 = SPKR_POSITIVE_LEVEL
    ∧ (∀ fuel' ts, ∃ s', ForwardPIT_seq fuel' ts s4 = Some s'
         ∧ (edge_log s' = edge_log s4
            ∨ ∃ t, edge_log s' = edge_log s4 ++ [mk_entry t SPKR_NEGATIVE_LEVEL]))
    ∧ (∀ fuel' ts s1 t,
         ForwardPIT_seq fuel' ts s4 = Some s1 →
         (pit_index s1 <? pit_max s1)%flt = true →
         (pit_index s1 + (t - last_index s1) >=? pit_max s1)%flt = true →
         ∃ s2, ForwardPIT fuel' t s1 = Some s2
           ∧ pit_output_level s2 = SPKR_NEGATIVE_LEVEL
           ∧ pit_index s2 = pit_max s2
           ∧ edge_log s2 =
               (if pit_output_enabled s4 && (used s4 <? SPKR_ENTRIES)
                then edge_log s4
                     ++ [mk_entry (last_index s1 + (pit_max s1 - pit_index s1))%flt
                                  SPKR_NEGATIVE_LEVEL]
                else edge_log s4)
           ∧ ∀ fuel'' ts', ∃ s3, ForwardPIT_seq fuel'' ts' s2 = Some s3
               ∧ edge_log s3 = edge_log s2
               ∧ pit_output_level s3 = SPKR_NEGATIVE_LEVEL).
Proof.
  intros Hwf Hf.
  assert (wf_log sf) as Hwf' by exact (ForwardPIT_stable _ _ _ _ _ wf_log_stable Hwf Hf).
  unfold PCSPEAKER_SetCounter. rewrite Hf. simpl.
  set (s1 := set_pit_output_level SPKR_POSITIVE_LEVEL sf).
  set (s2 := AddPITOutput newindex s1).
  set (s4 := set_pit_mode 4 (set_pit_max (ms_per_pit_tick * f_of_Z cntr)%flt
                               (set_pit_index (f_of_Z 0) s2))).
  destruct (AddPITOutput_same_timer newindex s1) as (_ & Hen & _ & Hlv & _).
  fold s2 in Hen, Hlv.
  assert (wf_log s4) as Hwf4 by exact (AddPITOutput_wf_log newindex s1 Hwf').
  assert (strobe_inv s4 s4) as Hinv.
  { split; [reflexivity|]. split; [exact Hwf4|]. split; [reflexivity|].
    split; [reflexivity|]. left. repeat split. exact Hlv. }
  assert (pit_output_enabled s4 = true →
          previous_output_level s4 = SPKR_POSITIVE_LEVEL) as Hprev.
  { intros He. change (pit_output_enabled s2 = true) in He. rewrite Hen in He.
    exact (AddPITOutput_previous newindex s1 He). }
  exists s4. split; [reflexivity|]. repeat (split; [reflexivity|]).
  split; [exact Hlv|]. split.
  - intros fuel' ts.
    destruct (ForwardPIT_seq_mode4_inv fuel' ts s4 Hprev s4 Hinv) as (s' & E & Hinv').
    exists s'. split; [exact E|]. now apply strobe_inv_log.
  - intros fuel' ts s1' t Hseq Hlt Hge.
    destruct (ForwardPIT_seq_mode4_inv fuel' ts s4 Hprev s4 Hinv) as (s' & E & Hinv').
    rewrite Hseq in E. injection E as <-.
    destruct (ForwardPIT_mode4_crossing fuel' t s4 s1' Hinv' Hprev Hlt Hge)
      as (s2' & E2 & Hinv2 & Hlv2 & Hix2 & Hlog2).
    assert (used s1' = used s4) as Hu.
    { destruct Hinv' as (_ & _ & _ & _ & [(_ & Hu & _) | (Hsp & _)]);
        [exact Hu | congruence]. }
    rewrite Hu in Hlog2.
    exists s2'. repeat (split; [assumption|]).
    intros fuel'' ts'.
    assert ((pit_index s2' <? pit_max s2')%flt = false) as Hsp
      by (rewrite Hix2; apply f_ltb_irrefl).
    destruct Hinv2 as (Hm2 & _).
    destruct (ForwardPIT_seq_mode4_spent fuel'' ts' s2' Hm2 Hsp)
      as (s3 & E3 & Hl3 & Hv3 & _).
    exists s3. rewrite Hv3. now repeat split.
Qed.

End StrobeClaim.

(** C5 as stated fails: at power-on the PIT output is disabled; a strobe
    armed then runs past its maximum without any falling edge being
    produced. *)
Lemma SetCounter_mode4_no_falling_edge :
  ∃ s4 s', PCSPEAKER_SetCounter 8 (B32.of_Z 0) 100 4 boot32 = Some s4
    ∧ ForwardPIT 8 (B32.of_Z 1) s4 = Some s'
    ∧ pit_index s' = pit_max s'
    ∧ pit_output_level s' = SPKR_NEGATIVE_LEVEL
    ∧ edge_log s' = [].
Proof.
  eexists _, _. split; [vm_compute; reflexivity|].
  split; [vm_compute; reflexivity|]. repeat split.
Qed.

Lemma SetCounter_mode4_single_falling_edge_on :
  wf_log boot32_on
  ∧ ForwardPIT 8 (b32_frac 1 8) boot32_on
    = Some (default boot32_on (ForwardPIT 8 (b32_frac 1 8) boot32_on))
  ∧ ∃ s4, PCSPEAKER_SetCounter 8 (b32_frac 1 8) 100 4 boot32_on = Some s4
          ∧ pit_mode s4 = 4
          ∧ pit_output_level s4 = SPKR_POSITIVE_LEVEL.
Proof.
  assert (wf_log boot32_on) as Hwf.
  { split; [split; vm_compute; discriminate | reflexivity]. }
  assert (ForwardPIT 8 (b32_frac 1 8) boot32_on
          = Some (default boot32_on (ForwardPIT 8 (b32_frac 1 8) boot32_on)))
    as Hf by (vm_compute; reflexivity).
  split; [exact Hwf|]. split; [exact Hf|].
  destruct (SetCounter_mode4_single_falling_edge 8 (b32_frac 1 8) 100 boot32_on
              _ Hwf Hf)
    as (s4 & E & Hm & _ & _ & Hl & _).
  exists s4. now repeat split.
Defined.

Section OutputStage.

Context {F : Type} {HF : FloatOps F} {HT : TimerConsts}.
Implicit Types (s : spkr_t F) (buf : list F).

Lemma consume_length (slots : list F) (level : F) :
  length (fst (consume slots level)) = length slots.
Proof.
  revert level. induction slots as [|x slots IH]; intros level; simpl; [reflexivity|].
  specialize (IH ((level + x) * SPKR_HIGHPASS)%flt).
  destruct (consume slots _) as [rest level'] eqn:E. simpl in *.
  now f_equal.
Qed.

Lemma consume_int16 (slots : list F) (level : F) :
  Forall (λ z, - 2 ^ 15 <= z < 2 ^ 15) (fst (consume slots level)).
Proof.
  revert level. induction slots as [|x slots IH]; intros level; simpl; [constructor|].
  specialize (IH ((level + x) * SPKR_HIGHPASS)%flt).
  destruct (consume slots _) as [rest level'] eqn:E. simpl in *.
  constructor; [|exact IH].
  unfold to_int16. pose proof (Z.mod_pos_bound (f_trunc (level + x)%flt + 2 ^ 15) (2 ^ 16)).
  lia.
Qed.

(** The stream the callback writes: exactly [len] samples; when [len]
    exceeds the buffer, [len - size] zeros first, then one sample per
    buffer slot. *)
Lemma CallBack_stream_written len s :
  0 <= len →
  let size := Z.of_nat (length (output_buffer s)) in
  let '(written, len', _) := CallBack_stream len s in
  Z.of_nat (length written) = len
  ∧ len' = Z.min len size
  ∧ Forall (λ z, - 2 ^ 15 <= z < 2 ^ 15) written
  ∧ (size < len →
     take (Z.to_nat (len - size)) written = replicate (Z.to_nat (len - size)) 0
     ∧ length (drop (Z.to_nat (len - size)) written) = length (output_buffer s)).
Proof.
  intros Hlen size. unfold CallBack_stream. fold size.
  destruct (len >? size) eqn:E.
  - apply Z.gtb_lt in E.
    pose proof (consume_length (take (Z.to_nat size) (output_buffer s))
                  (current_output_level s)) as Hc.
    pose proof (consume_int16 (take (Z.to_nat size) (output_buffer s))
                  (current_output_level s)) as Hr.
    destruct (consume _ _) as [samples level]. simpl in Hc, Hr.
    rewrite length_take in Hc.
    split; [rewrite length_app, length_replicate; lia|].
    split; [lia|]. split.
    + apply Forall_app. split; [|exact Hr].
      apply Forall_forall. intros z Hz. apply elem_of_replicate in Hz as [-> _]. lia.
    + intros _. rewrite take_app_length' by (now rewrite length_replicate).
      split; [reflexivity|].
      rewrite drop_app_length' by (now rewrite length_replicate). lia.
  - assert (len <= size) as Hle by (destruct (Z.gtb_spec len size); [discriminate | lia]).
    pose proof (consume_length (take (Z.to_nat len) (output_buffer s))
                  (current_output_level s)) as Hc.
    pose proof (consume_int16 (take (Z.to_nat len) (output_buffer s))
                  (current_output_level s)) as Hr.
    destruct (consume _ _) as [samples level]. simpl in Hc, Hr.
    rewrite length_take in Hc. simpl.
    split; [lia|]. split; [lia|]. split; [exact Hr | lia].
Qed.

Lemma add_impulse_tap_length a offset phase buf kernel i :
  length (add_impulse_tap a offset phase buf kernel i) = length buf.
Proof.
  unfold add_impulse_tap. destruct (kernel !! _); [|reflexivity].
  apply length_alter.
Qed.

Lemma add_impulse_taps_length a offset phase kernel (l : list Z) buf :
  length (foldl (λ buf i, add_impulse_tap a offset phase buf kernel i) buf l)
  = length buf.
Proof.
  revert buf. induction l as [|i l IH]; intros buf; simpl; [reflexivity|].
  rewrite IH. apply add_impulse_tap_length.
Qed.

Lemma add_impulse_length idx a s :
  length (output_buffer (add_impulse idx a s)) = length (output_buffer s).
Proof.
  unfold add_impulse. destruct (impulse_position idx s) as [offset phase].
  apply add_impulse_taps_length.
Qed.

Lemma synthesize_edges_length s :
  length (output_buffer (synthesize_edges s)) = length (output_buffer s).
Proof.
  unfold synthesize_edges. generalize (edge_log s) as l. intros l. revert s.
  induction l as [|e l IH]; intros s; simpl; [reflexivity|].
  rewrite IH. apply add_impulse_length.
Qed.

(** The count the callback hands to [AddSamples_m16] is the clamped one;
    the samples it wrote are the first [len] of the mix buffer. *)
Lemma CallBack_frames fuel len s sf :
  ForwardPIT fuel (f_of_Z 1) s = Some sf →
  0 <= len →
  ∃ s' mix, PCSPEAKER_CallBack fuel len s
            = Some (s', (Z.min len (Z.of_nat (length (output_buffer s))), mix))
    ∧ length (output_buffer s') = length (output_buffer s)
    ∧ Z.of_nat (length mix) >= len
    ∧ take (Z.to_nat len) mix
      = fst (fst (CallBack_stream len
                    (set_used 0 (synthesize_edges (set_last_index (f_of_Z 0) sf))))).
Proof.
  intros Hf Hlen.
  assert (output_buffer sf = output_buffer s) as Hbuf
    by exact (ForwardPIT_stable _ _ _ _ _ (output_buffer_stable (output_buffer s))
                eq_refl Hf).
  unfold PCSPEAKER_CallBack. rewrite Hf. simpl.
  set (s1 := set_used 0 (synthesize_edges (set_last_index (f_of_Z 0) sf))).
  assert (length (output_buffer s1) = length (output_buffer s)) as Hsz.
  { unfold s1. simpl. rewrite synthesize_edges_length. simpl. now rewrite Hbuf. }
  pose proof (CallBack_stream_written len s1 Hlen) as Hw.
  cbv zeta in Hw.
  destruct (CallBack_stream len s1) as [[written len'] level].
  destruct Hw as (Hl & Hlen' & _ & _). rewrite Hsz in Hlen'. subst len'.
  eexists _, _. split; [reflexivity|]. simpl.
  set (mix := if Z.of_nat (length (mix_buffer s)) <? len
              then resize (Z.to_nat len) 0 (mix_buffer s) else mix_buffer s).
  assert (Z.of_nat (length mix) >= len) as Hmix.
  { unfold mix. destruct (Z.ltb_spec (Z.of_nat (length (mix_buffer s))) len).
    - rewrite length_resize. lia.
    - lia. }
  split; [|split].
  - unfold zero_rest, shift_out.
    match goal with |- length (foldl _ ?b ?l) = _ =>
      assert (∀ l0 (b0 : list F), length (foldl (λ buf i, <[i:=f_of_Z 0]> buf) b0 l0)
                                  = length b0) as Hz
    end.
    { induction l0 as [|i l0 IH]; intros b0; simpl; [reflexivity|].
      now rewrite IH, length_insert. }
    rewrite Hz.
    match goal with |- length (foldl ?f ?b ?l) = _ =>
      assert (∀ l0 (b0 : list F), length (foldl f b0 l0) = length b0) as Hs
    end.
    { induction l0 as [|i l0 IH]; intros b0; simpl; [reflexivity|].
      rewrite IH. destruct (b0 !! i); [apply length_insert | reflexivity]. }
    rewrite Hs. exact Hsz.
  - rewrite length_app, length_drop. lia.
  - replace (Z.to_nat len) with (length written) by lia.
    now rewrite take_app_length.
Qed.

End OutputStage.

(** A 48 kHz speaker whose kernel is 1 everywhere, with the PIT output
    enabled at the start of a tick while the gate stays off: one rising edge
    is logged and the timer is not counting. *)
Definition boot32_ones_edge : spkr_t spec_float :=
  let s := PCSPEAKER_Init 48000 (replicate (Z.to_nat SPKR_FILTER_WIDTH) (B32.of_Z 1)) in
  default s (PCSPEAKER_SetType 8 (B32.of_Z 0) false true s).

(** C1: more samples requested than the buffer holds.  At 48 kHz the
    accumulation buffer has 149 slots.  For [len = 150] the callback writes
    150 samples, a zero first, but hands [AddSamples_m16] the clamped count
    149: the mixer receives one sample fewer than it asked for. *)
Theorem CallBack_too_many_samples :
  Z.of_nat (length (output_buffer boot32_on)) = 149
  ∧ ∃ s' frames mix,
      PCSPEAKER_CallBack 64 150 boot32_on = Some (s', (frames, mix))
      ∧ length mix = 150%nat
      ∧ head mix = Some 0
      ∧ frames = 149.
Proof.
  split; [reflexivity|].
  eexists _, _, _. split; [vm_compute; reflexivity|]. repeat split.
Qed.

Section ZeroLength.

Context {F : Type} {HF : FloatOps F} {HT : TimerConsts}.
Implicit Types (s : spkr_t F) (buf : list F).







End ZeroLength.



Section ImpulseTaps.

Context {F : Type} {HF : FloatOps F} {HT : TimerConsts}.
Implicit Types (s : spkr_t F) (buf kernel : list F).






End ImpulseTaps.




(** C4: the guest switches the speaker on at the start of a tick (power-on
    period, about 1.106 ms), at 1/8 of the tick loads the count 100 (period
    about 0.084 ms), and the tick ends.  The call times 0, 1/8, 1 do not
    decrease.  The new period is staged; at the falling edge, at about 0.553,
    it replaces the old one while the index keeps the old half period, which
    is beyond the new maximum: the next delay is negative and the following
    rising edge is logged at about 0.084, before the edge that precedes it in
    the log.  The same happens in exact arithmetic. *)
Theorem edge_log_time_goes_back :
  (∃ s1 s2 s3 e1 e2,
      PCSPEAKER_SetType 64 (B32.of_Z 0) true true boot32 = Some s1
      ∧ PCSPEAKER_SetCounter 64 (b32_frac 1 8) 100 3 s1 = Some s2
      ∧ ForwardPIT 64 (B32.of_Z 1) s2 = Some s3
      ∧ edge_log s3 !! 1%nat = Some e1
      ∧ edge_log s3 !! 2%nat = Some e2
      ∧ (index e2 <? index e1)%flt = true)
  ∧ (∃ s1 s2 s3 e1 e2,
      PCSPEAKER_SetType 64 (Exact.of_Z 0) true true bootQ = Some s1
      ∧ PCSPEAKER_SetCounter 64 (Q2Qc (1 # 8)) 100 3 s1 = Some s2
      ∧ ForwardPIT 64 (Exact.of_Z 1) s2 = Some s3
      ∧ edge_log s3 !! 1%nat = Some e1
      ∧ edge_log s3 !! 2%nat = Some e2
      ∧ this (index e1) = (330000 # 596591)%Q
      ∧ this (index e2) = (50000 # 596591)%Q).
Proof.
  split.
  - eexists _, _, _, _, _.
    split; [vm_compute; reflexivity|]. split; [vm_compute; reflexivity|].
    split; [vm_compute; reflexivity|]. split; [vm_compute; reflexivity|].
    split; [vm_compute; reflexivity|]. vm_compute; reflexivity.
  - eexists _, _, _, _, _.
    split; [vm_compute; reflexivity|]. split; [vm_compute; reflexivity|].
    split; [vm_compute; reflexivity|]. split; [vm_compute; reflexivity|].
    split; [vm_compute; reflexivity|]. split; reflexivity.
Qed.

Section Alternation.

Context {F : Type} {HF : FloatOps F} {HT : TimerConsts}.
Implicit Types (s : spkr_t F) (l : list (DelayEntry F)).

(** No two neighbours at the same level. *)
Definition alternating (l : list (DelayEntry F)) : Prop :=
  ∀ i e1 e2, l !! i = Some e1 → l !! S i = Some e2 →
    output_level e1 ≠ output_level e2.

(** Unless the log is empty or full, its last edge carries the level that
    [AddDelayEntry] deduplicates against. *)
Definition log_ok (s : spkr_t F) : Prop :=
  wf_log s
  ∧ alternating (edge_log s)
  ∧ (used s = 0 ∨ used s = SPKR_ENTRIES
     ∨ ∃ e, last (edge_log s) = Some e
            ∧ output_level e = previous_output_level s).

Lemma alternating_snoc l e :
  alternating l →
  (∀ e', last l = Some e' → output_level e' ≠ output_level e) →
  alternating (l ++ [e]).
Proof.
  intros Hl Hlast i e1 e2 H1 H2.
  destruct (decide (S i < length l)%nat) as [Hlt|Hge].
  - rewrite lookup_app_l in H1 by lia. rewrite lookup_app_l in H2 by lia.
    exact (Hl i e1 e2 H1 H2).
  - assert (S i = length l) as Hi.
    { apply lookup_lt_Some in H2. rewrite length_app in H2. simpl in H2. lia. }
    rewrite lookup_app_l in H1 by lia.
    rewrite lookup_app_r in H2 by lia.
    replace (S i - length l)%nat with 0%nat in H2 by lia.
    injection H2 as <-. apply Hlast.
    rewrite last_lookup. rewrite <- Hi. exact H1.
Qed.

Lemma log_ok_same s s' :
  entries s' = entries s → used s' = used s →
  previous_output_level s' = previous_output_level s →
  log_ok s → log_ok s'.
Proof.
  intros He Hu Hp. unfold log_ok, wf_log, edge_log. now rewrite He, Hu, Hp.
Qed.

Lemma AddDelayEntry_log_ok idx lvl s : log_ok s → log_ok (AddDelayEntry idx lvl s).
Proof.
  intros (Hwf & Halt & Hlast).
  destruct (decide (lvl = previous_output_level s)) as [->|Hne].
  { rewrite AddDelayEntry_same_level. exact (conj Hwf (conj Halt Hlast)). }
  destruct (decide (used s = SPKR_ENTRIES)) as [Hfull|Hroom].
  { split; [now apply (fs_AddDelayEntry _ wf_log_stable)|].
    rewrite AddDelayEntry_full by exact Hfull. split; [exact Halt|].
    right. left. unfold AddDelayEntry.
    apply Z.eqb_neq in Hne. rewrite Hne. simpl.
    apply Z.eqb_eq in Hfull. rewrite Hfull. simpl. now apply Z.eqb_eq. }
  assert (used s < SPKR_ENTRIES) as Hlt by (destruct Hwf; lia).
  destruct (AddDelayEntry_logged idx lvl s Hwf Hne Hlt) as [Hlog Hused].
  split; [now apply (fs_AddDelayEntry _ wf_log_stable)|].
  rewrite Hlog. split.
  - apply alternating_snoc; [exact Halt|].
    intros e' He'. destruct Hlast as [H0 | [Hf | (e & He & Hp)]].
    + unfold edge_log in He'. rewrite H0 in He'. discriminate.
    + contradiction.
    + rewrite He in He'. injection He' as <-. simpl. congruence.
  - right. right. exists (mk_entry idx lvl). rewrite last_snoc. split; [reflexivity|].
    simpl. symmetry. apply AddDelayEntry_previous.
Qed.

Lemma log_ok_stable : forward_stable log_ok.
Proof.
  constructor; try (intros v s; apply log_ok_same; reflexivity).
  intros idx lvl s. apply AddDelayEntry_log_ok.
Qed.

Lemma AddPITOutput_log_ok idx s : log_ok s → log_ok (AddPITOutput idx s).
Proof. apply AddPITOutput_stable, log_ok_stable. Qed.

Lemma drained_log_ok s : wf_log s → log_ok (set_used 0 s).
Proof.
  intros [Hu Hl]. split; [|split].
  - split; [simpl; unfold SPKR_ENTRIES; lia | exact Hl].
  - intros i e1 e2 H. unfold edge_log in H. simpl in H. discriminate.
  - now left.
Qed.

End Alternation.

(** The timer fields do not matter to [log_ok]: one lemma per setter, so that
    nested updates are peeled off one at a time. *)
Section LogOkSetters.

Context {F : Type} {HF : FloatOps F} {HT : TimerConsts}.
Implicit Types (s : spkr_t F).

Lemma log_ok_set_pit_mode v s : log_ok s → log_ok (set_pit_mode v s).
Proof. apply log_ok_same; reflexivity. Qed.

Lemma log_ok_set_pit_output_enabled v s : log_ok s → log_ok (set_pit_output_enabled v s).
Proof. apply log_ok_same; reflexivity. Qed.

Lemma log_ok_set_pit_clock_gate_enabled v s : log_ok s → log_ok (set_pit_clock_gate_enabled v s).
Proof. apply log_ok_same; reflexivity. Qed.

Lemma log_ok_set_pit_output_level v s : log_ok s → log_ok (set_pit_output_level v s).
Proof. apply log_ok_same; reflexivity. Qed.

Lemma log_ok_set_pit_new_max v s : log_ok s → log_ok (set_pit_new_max v s).
Proof. apply log_ok_same; reflexivity. Qed.

Lemma log_ok_set_pit_new_half v s : log_ok s → log_ok (set_pit_new_half v s).
Proof. apply log_ok_same; reflexivity. Qed.

Lemma log_ok_set_pit_max v s : log_ok s → log_ok (set_pit_max v s).
Proof. apply log_ok_same; reflexivity. Qed.

Lemma log_ok_set_pit_half v s : log_ok s → log_ok (set_pit_half v s).
Proof. apply log_ok_same; reflexivity. Qed.

Lemma log_ok_set_pit_index v s : log_ok s → log_ok (set_pit_index v s).
Proof. apply log_ok_same; reflexivity. Qed.

Lemma log_ok_set_pit_mode1_waiting_for_counter v s : log_ok s → log_ok (set_pit_mode1_waiting_for_counter v s).
Proof. apply log_ok_same; reflexivity. Qed.

Lemma log_ok_set_pit_mode1_waiting_for_trigger v s : log_ok s → log_ok (set_pit_mode1_waiting_for_trigger v s).
Proof. apply log_ok_same; reflexivity. Qed.

Lemma log_ok_set_pit_mode1_pending_max v s : log_ok s → log_ok (set_pit_mode1_pending_max v s).
Proof. apply log_ok_same; reflexivity. Qed.

Lemma log_ok_set_pit_mode3_counting v s : log_ok s → log_ok (set_pit_mode3_counting v s).
Proof. apply log_ok_same; reflexivity. Qed.

Lemma log_ok_set_last_index v s : log_ok s → log_ok (set_last_index v s).
Proof. apply log_ok_same; reflexivity. Qed.

Lemma log_ok_set_output_buffer v s : log_ok s → log_ok (set_output_buffer v s).
Proof. apply log_ok_same; reflexivity. Qed.

Lemma log_ok_set_current_output_level v s : log_ok s → log_ok (set_current_output_level v s).
Proof. apply log_ok_same; reflexivity. Qed.

Lemma log_ok_set_mix_buffer v s : log_ok s → log_ok (set_mix_buffer v s).
Proof. apply log_ok_same; reflexivity. Qed.

End LogOkSetters.

Create HintDb log_ok discriminated.

#[export] Hint Resolve AddDelayEntry_log_ok AddPITOutput_log_ok
  log_ok_set_pit_mode log_ok_set_pit_output_enabled
  log_ok_set_pit_clock_gate_enabled log_ok_set_pit_output_level
  log_ok_set_pit_new_max log_ok_set_pit_new_half log_ok_set_pit_max
  log_ok_set_pit_half log_ok_set_pit_index
  log_ok_set_pit_mode1_waiting_for_counter
  log_ok_set_pit_mode1_waiting_for_trigger log_ok_set_pit_mode1_pending_max
  log_ok_set_pit_mode3_counting log_ok_set_last_index
  log_ok_set_output_buffer log_ok_set_current_output_level
  log_ok_set_mix_buffer : log_ok.

Ltac log_ok_cases :=
  repeat match goal with
         | |- log_ok (if ?c then _ else _) => destruct c
         end;
  auto 20 with log_ok.

Section AlternationClaim.

Context {F : Type} {HF : FloatOps F} {HT : TimerConsts}.
Implicit Types (s : spkr_t F).

(** The half of C4 that holds: from power-on, whatever control calls and
    callbacks follow, at whatever times, no two consecutive edges of the
    Edge Log carry the same level. *)
Theorem edge_log_levels_alternate :
  (∀ pcrate kernel, log_ok (PCSPEAKER_Init (F:=F) pcrate kernel))
  ∧ (∀ s, log_ok s → alternating (edge_log s))
  ∧ (∀ fuel t mode s s',
       log_ok s → PCSPEAKER_SetPITControl fuel t mode s = Some s' → log_ok s')
  ∧ (∀ fuel t cntr mode s s',
       log_ok s → PCSPEAKER_SetCounter fuel t cntr mode s = Some s' → log_ok s')
  ∧ (∀ fuel t gate out s s',
       log_ok s → PCSPEAKER_SetType fuel t gate out s = Some s' → log_ok s')
  ∧ (∀ fuel len s s' out,
       log_ok s → PCSPEAKER_CallBack fuel len s = Some (s', out) → log_ok s').
Proof.
  split; [|split; [|split; [|split; [|split]]]].
  - intros pcrate kernel. split; [|split].
    + split; [simpl; unfold SPKR_ENTRIES; lia | apply length_replicate].
    + intros i e1 e2 H. unfold edge_log in H. simpl in H. discriminate.
    + now left.
  - intros s (_ & H & _). exact H.
  - intros fuel t mode s s' Hs. unfold PCSPEAKER_SetPITControl.
    destruct (ForwardPIT fuel t s) as [sf|] eqn:E; [|discriminate]. simpl.
    pose proof (ForwardPIT_stable _ _ _ _ _ log_ok_stable Hs E) as Hsf.
    repeat case_match; intros [= <-]; log_ok_cases.
  - intros fuel t cntr mode s s' Hs. unfold PCSPEAKER_SetCounter.
    destruct (ForwardPIT fuel t s) as [sf|] eqn:E; [|discriminate]. simpl.
    pose proof (ForwardPIT_stable _ _ _ _ _ log_ok_stable Hs E) as Hsf.
    repeat case_match; intros [= <-]; log_ok_cases.
  - intros fuel t gate out s s' Hs. unfold PCSPEAKER_SetType.
    destruct (ForwardPIT fuel t s) as [sf|] eqn:E; [|discriminate]. simpl.
    pose proof (ForwardPIT_stable _ _ _ _ _ log_ok_stable Hs E) as Hsf.
    repeat case_match; intros [= <-]; log_ok_cases.
  - intros fuel len s s' out Hs. unfold PCSPEAKER_CallBack.
    destruct (ForwardPIT fuel (f_of_Z 1) s) as [sf|] eqn:E; [|discriminate]. simpl.
    pose proof (ForwardPIT_stable _ _ _ _ _ log_ok_stable Hs E) as Hsf.
    destruct (CallBack_stream _ _) as [[written len'] level].
    intros [= <- _].
    apply log_ok_set_mix_buffer, log_ok_set_output_buffer,
      log_ok_set_current_output_level, drained_log_ok.
    rewrite synthesize_edges_buffer_only.
    apply log_ok_set_output_buffer, log_ok_set_last_index, Hsf.
Qed.

End AlternationClaim.

(** ** The square wave in exact arithmetic *)


Section ExactArithmetic.

Local Open Scope Qc_scope.









End ExactArithmetic.



Section LoggedEdge.

Context {F : Type} {HF : FloatOps F} {HT : TimerConsts}.
Implicit Types (s : spkr_t F).


End LoggedEdge.







Section SquareWave.

Context {HT : TimerConsts}.
Variables (P h : Qc).
Hypothesis Hh : (0 < h)%Qc.
Hypothesis HP : (h + h = P)%Qc.
Implicit Types (s : spkr_t Qc) (T t b : Qc) (k : nat).

Definition edge_level (falling : bool) : Z :=
  if falling then SPKR_NEGATIVE_LEVEL else SPKR_POSITIVE_LEVEL.






Lemma edge_level_flip falling : edge_level falling ≠ edge_level (negb falling).
Proof. destruct falling; discriminate. Qed.




















End SquareWave.

Section SquareWaveClaim.

Context {HT : TimerConsts}.


End SquareWaveClaim.





(** ** Rounding of binary32, from the definitions of [SpecFloat] *)

Section Binary32Rounding.

Lemma digits2_size (p : positive) : digits2_pos p = Pos.size p.
Proof. induction p; simpl; congruence. Qed.

(** [d] binary digits: [2^(d-1) <= p < 2^d]. *)
Lemma digits2_bounds (p : positive) :
  2 ^ (Zpos (digits2_pos p) - 1) <= Zpos p < 2 ^ Zpos (digits2_pos p).
Proof.
  rewrite digits2_size. split.
  - pose proof (Pos.size_le p) as H.
    assert (2 ^ Zpos (Pos.size p) <= 2 * Zpos p) as H'.
    { rewrite <- Pos2Z.inj_pow. change (2 * Zpos p) with (Zpos (p~0)).
      now apply Pos2Z.pos_le_pos. }
    replace (Zpos (Pos.size p)) with (Zpos (Pos.size p) - 1 + 1) in H' by lia.
    rewrite Z.pow_add_r in H' by lia. lia.
  - pose proof (Pos.size_gt p) as H.
    rewrite <- Pos2Z.inj_pow. now apply Pos2Z.pos_lt_pos.
Qed.

Lemma digits2_le (p : positive) (k : Z) :
  0 <= k → Zpos p < 2 ^ k → Zpos (digits2_pos p) <= k.
Proof.
  intros Hk Hlt. destruct (digits2_bounds p) as [Hlo _].
  destruct (Z_le_gt_dec (Zpos (digits2_pos p)) k) as [|Hgt]; [assumption|].
  assert (2 ^ k <= 2 ^ (Zpos (digits2_pos p) - 1)) by (apply Z.pow_le_mono_r; lia).
  lia.
Qed.

(** *** Shifting right with round and sticky bits *)

Definition flags (mrs : shr_record) : bool := shr_r mrs || shr_s mrs.

(** [b] is [a] shifted right by [n]: the mantissa is the quotient, and clear
    flags in [b] mean that nothing was lost. *)
Definition shifted (n : Z) (a b : shr_record) : Prop :=
  shr_m b = shr_m a / 2 ^ n
  ∧ (flags b = false ↔ shr_m a mod 2 ^ n = 0 ∧ flags a = false).

Lemma shifted_0 (a : shr_record) : shifted 0 a a.
Proof.
  split; [now rewrite Z.div_1_r|]. rewrite Z.mod_1_r. tauto.
Qed.

Lemma shifted_1 (a : shr_record) : 0 <= shr_m a → shifted 1 a (shr_1 a).
Proof.
  destruct a as [m r s]. unfold shifted, flags. simpl. intros Hm.
  change (2 ^ 1) with 2.
  destruct m as [|p|p]; [| |lia].
  - simpl. split; [reflexivity|]. destruct r, s; simpl; intuition congruence.
  - destruct p as [p|p|]; simpl shr_m; simpl shr_r; simpl shr_s.
    + split.
      * rewrite Pos2Z.inj_xI. apply Z.div_unique with 1; lia.
      * assert (Zpos p~1 mod 2 = 1) as ->.
        { rewrite Pos2Z.inj_xI. symmetry. apply Z.mod_unique with (Zpos p); lia. }
        simpl. intuition congruence.
    + split.
      * rewrite Pos2Z.inj_xO. apply Z.div_unique with 0; lia.
      * assert (Zpos p~0 mod 2 = 0) as ->.
        { rewrite Pos2Z.inj_xO. rewrite Z.mul_comm. apply Z.mod_mul. lia. }
        simpl. intuition congruence.
    + split; [reflexivity|]. change (1 `mod` 2) with 1. simpl.
      intuition congruence.
Qed.

Lemma shr_1_nonneg (a : shr_record) : 0 <= shr_m a → 0 <= shr_m (shr_1 a).
Proof.
  destruct a as [m r s]. simpl. intros Hm.
  destruct m as [|p|p]; [simpl; lia | | lia].
  destruct p; simpl; lia.
Qed.

Lemma shifted_trans n1 n2 a b c :
  0 <= n1 → 0 <= n2 → 0 <= shr_m a →
  shifted n1 a b → shifted n2 b c → shifted (n1 + n2) a c.
Proof.
  intros H1 H2 Ha [Hb1 Hb2] [Hc1 Hc2].
  assert (0 < 2 ^ n1) as Hp1 by (apply Z.pow_pos_nonneg; lia).
  assert (0 < 2 ^ n2) as Hp2 by (apply Z.pow_pos_nonneg; lia).
  split.
  - rewrite Hc1, Hb1, Z.pow_add_r by lia. apply Z.div_div; lia.
  - rewrite Hc2, Hb2, Z.pow_add_r by lia.
    rewrite Z.rem_mul_r by lia. rewrite Hb1.
    pose proof (Z.mod_pos_bound (shr_m a) (2 ^ n1) Hp1).
    pose proof (Z.mod_pos_bound (shr_m a / 2 ^ n1) (2 ^ n2) Hp2).
    split.
    + intros (Hm & Hm' & Hf). split; [|exact Hf]. rewrite Hm, Hm'. lia.
    + intros (Hm & Hf).
      assert (shr_m a mod 2 ^ n1 = 0) by nia.
      assert ((shr_m a / 2 ^ n1) mod 2 ^ n2 = 0) by nia.
      tauto.
Qed.

Lemma iter_shr_1 (p : positive) :
  ∀ a, 0 <= shr_m a →
    shifted (Zpos p) a (SpecFloat.iter_pos shr_1 p a)
    ∧ 0 <= shr_m (SpecFloat.iter_pos shr_1 p a).
Proof.
  induction p as [p IH|p IH|]; intros a Ha; simpl.
  - pose proof (shifted_1 a Ha) as H1. pose proof (shr_1_nonneg a Ha) as Hn1.
    destruct (IH _ Hn1) as [H2 Hn2]. destruct (IH _ Hn2) as [H3 Hn3].
    split; [|exact Hn3].
    replace (Zpos p~1) with (1 + (Zpos p + Zpos p)) by lia.
    eapply shifted_trans; [lia | lia | exact Ha | exact H1 |].
    eapply shifted_trans; [lia | lia | exact Hn1 | exact H2 | exact H3].
  - destruct (IH _ Ha) as [H2 Hn2]. destruct (IH _ Hn2) as [H3 Hn3].
    split; [|exact Hn3].
    replace (Zpos p~0) with (Zpos p + Zpos p) by lia.
    eapply shifted_trans; [lia | lia | exact Ha | exact H2 | exact H3].
  - split; [now apply shifted_1 | now apply shr_1_nonneg].
Qed.

(** [shr] by any amount; a non-positive amount leaves the record. *)
Lemma shr_shifted (a : shr_record) (e n : Z) :
  0 <= shr_m a →
  shifted (Z.max n 0) a (fst (shr a e n))
  ∧ 0 <= shr_m (fst (shr a e n))
  ∧ snd (shr a e n) = e + Z.max n 0.
Proof.
  intros Ha. pose proof (shifted_0 a) as H0.
  destruct n as [|p|p]; simpl.
  - split; [exact H0|]. split; lia.
  - destruct (iter_shr_1 p a Ha) as [H1 H2]. split; [exact H1|]. split; lia.
  - split; [exact H0|]. split; lia.
Qed.

Lemma round_nearest_even_le (mrs : shr_record) :
  let m' := round_nearest_even (shr_m mrs) (loc_of_shr_record mrs) in
  shr_m mrs <= m' ∧ m' <= shr_m mrs + 1 ∧ (flags mrs = false → m' = shr_m mrs).
Proof.
  destruct mrs as [m r s]. unfold flags. simpl.
  destruct r, s; simpl; try destruct (Z.even m); repeat split; try lia; discriminate.
Qed.

Lemma shr_record_of_loc_flags (m : Z) (l : location) :
  shr_m (shr_record_of_loc m l) = m
  ∧ (flags (shr_record_of_loc m l) = false ↔ l = loc_Exact).
Proof.
  destruct l as [|[| |]]; simpl; split; try reflexivity; unfold flags; simpl;
    split; discriminate || reflexivity.
Qed.

Lemma fexp32 (x : Z) : fexp 24 128 x = Z.max (x - 24) (-149).
Proof. reflexivity. Qed.

Lemma Zdigits2_bounds (m : Z) :
  0 <= m → 0 <= Zdigits2 m ∧ m < 2 ^ Zdigits2 m.
Proof.
  intros Hm. destruct m as [|p|p]; [simpl; lia | | lia].
  simpl. destruct (digits2_bounds p) as [_ H]. split; [lia | exact H].
Qed.

Lemma Zdigits2_le (m k : Z) : 0 <= m → 0 <= k → m < 2 ^ k → Zdigits2 m <= k.
Proof.
  intros Hm Hk Hlt. destruct m as [|p|p]; [simpl; lia | | lia].
  simpl. now apply digits2_le.
Qed.


(** The two stages of [binary_round_aux], for a non-negative mantissa: the
    result is never above an integer [Y] of the grid reached by the first
    shift that the exact value respects; its mantissa has at most 24 digits
    and its exponent is at least [emin]. *)
Lemma binary_round_aux_upper (sx : bool) (m e : Z) (l : location) (Y : Z)
    (r : spec_float) :
  0 <= m →
  let n' := Z.max (fexp 24 128 (Zdigits2 m + e) - e) 0 in
  m <= Y * 2 ^ n' →
  (l ≠ loc_Exact → m < Y * 2 ^ n') →
  binary_round_aux 24 128 sx m e l = r →
  match r with
  | S754_finite sx' m'' e'' =>
      sx' = sx
      ∧ e + n' <= e''
      ∧ Zpos m'' * 2 ^ (e'' - (e + n')) <= Y
      ∧ Zpos m'' < 2 ^ 24
      ∧ -149 <= e''
      ∧ e'' <= Z.max (e + n') (fexp 24 128 (Zdigits2 Y + (e + n')))
  | S754_nan => False
  | _ => True
  end.
Proof.
  intros Hm n' HB HBl.
  unfold binary_round_aux, shr_fexp.
  pose proof (fexp32 (Zdigits2 m + e)) as Hfe.
  set (n := fexp 24 128 (Zdigits2 m + e) - e) in *.
  destruct (shr_record_of_loc_flags m l) as [Hrm Hrf].
  destruct (shr_shifted (shr_record_of_loc m l) e n) as ([Hs1 Hf1] & Hn1 & He1');
    [rewrite Hrm; exact Hm|].
  destruct (shr (shr_record_of_loc m l) e n) as [mrs1 e1] eqn:E1.
  simpl fst in *. simpl snd in *. rewrite Hrm in Hs1, Hf1. rewrite Hrf in Hf1.
  fold n' in He1', Hs1, Hf1. subst e1. set (e1 := e + n') in *.
  destruct (round_nearest_even_le mrs1) as (Hr1 & Hr2 & Hr3).
  set (mx := round_nearest_even (shr_m mrs1) (loc_of_shr_record mrs1)) in *.
  assert (0 <= n') as Hn' by (unfold n'; lia).
  assert (0 < 2 ^ n') as Hp by (apply Z.pow_pos_nonneg; lia).
  pose proof (Z.div_mod m (2 ^ n') ltac:(lia)) as Hdm.
  pose proof (Z.mod_pos_bound m (2 ^ n') Hp) as Hmod.
  rewrite <- Hs1 in Hdm.
  assert (mx <= Y) as HmxY.
  { destruct (flags mrs1) eqn:Ef.
    - assert (shr_m mrs1 < Y); [|lia].
      destruct (Z.eq_dec (m mod 2 ^ n') 0) as [Hz|Hnz]; [|nia].
      assert (l ≠ loc_Exact) as Hl.
      { intros Hl. destruct Hf1 as [_ Hf1]. discriminate (Hf1 (conj Hz Hl)). }
      specialize (HBl Hl). nia.
    - rewrite (Hr3 eq_refl). nia. }
  assert (mx <= 2 ^ 24) as Hmx24.
  { assert (shr_m mrs1 < 2 ^ 24); [|lia].
    rewrite Hs1. apply Z.div_lt_upper_bound; [exact Hp|].
    destruct (Zdigits2_bounds m Hm) as [Hd0 Hd].
    rewrite <- Z.pow_add_r by lia.
    eapply Z.lt_le_trans; [exact Hd|].
    apply Z.pow_le_mono_r; unfold n', n; lia. }
  assert (0 <= mx) as Hmx0 by lia.
  pose proof (fexp32 (Zdigits2 mx + e1)) as Hfe2.
  set (n2 := fexp 24 128 (Zdigits2 mx + e1) - e1) in *.
  destruct (shr_shifted (shr_record_of_loc mx loc_Exact) e1 n2)
    as ([Hs2 _] & Hn2 & He2); [simpl; exact Hmx0|].
  destruct (shr (shr_record_of_loc mx loc_Exact) e1 n2) as [mrs2 e2] eqn:E2.
  simpl fst in *. simpl snd in *. simpl shr_m in Hs2.
  set (k := Z.max n2 0) in *.
  assert (0 <= k) as Hk by (unfold k; lia).
  assert (0 < 2 ^ k) as Hpk by (apply Z.pow_pos_nonneg; lia).
  intros <-.
  destruct (shr_m mrs2) as [|p|p] eqn:Em2; [exact I | | lia].
  destruct (e2 <=? 128 - 24); [|exact I].
  pose proof (Z.div_mod mx (2 ^ k) ltac:(lia)) as Hdm2.
  pose proof (Z.mod_pos_bound mx (2 ^ k) Hpk) as Hmod2.
  rewrite <- Hs2 in Hdm2.
  split; [reflexivity|]. split; [lia|]. split; [|split; [|split]].
  - replace (e2 - e1) with k by lia. nia.
  - destruct (Z.eq_dec mx (2 ^ 24)) as [Heq|Hne].
    + assert (1 <= k) as Hk1.
      { unfold k, n2. rewrite Heq in *. change (Zdigits2 (2 ^ 24)) with 25 in *.
        rewrite Hfe2. lia. }
      assert (2 ^ 1 <= 2 ^ k) by (apply Z.pow_le_mono_r; lia).
      change (2 ^ 1) with 2 in *. nia.
    + nia.
  - unfold e1, n', n in *. lia.
  - assert (Zdigits2 mx <= Zdigits2 Y) as Hmono.
    { destruct (Zdigits2_bounds Y ltac:(lia)) as [HY0 HY].
      apply Zdigits2_le; lia. }
    pose proof (fexp32 (Zdigits2 Y + e1)) as HfY.
    unfold k, n2 in *. lia.
Qed.

(** *** Values on a common grid

    A finite binary32 value [m * 2^e] has [-149 <= e]; products and quotients
    of two of them are integers of the grid [2^-grid]. *)

Definition grid : Z := 320.

(** [m * 2^e <= B], both sides scaled to the grid. *)
Definition val_le (m e B : Z) : Prop := m * 2 ^ (e + grid) <= B * 2 ^ grid.
Definition val_lt (m e B : Z) : Prop := m * 2 ^ (e + grid) < B * 2 ^ grid.

(** [B] is a multiple of [2^e]. *)
Definition on_grid (B e : Z) : Prop := ∃ Y, Y * 2 ^ (e + grid) = B * 2 ^ grid.

Lemma on_grid_nonpos (B e : Z) : - grid <= e <= 0 → on_grid B e.
Proof.
  intros He. exists (B * 2 ^ (- e)).
  rewrite <- Z.mul_assoc, <- Z.pow_add_r by lia. do 2 f_equal. lia.
Qed.

Lemma val_le_digits (m e B c : Z) :
  0 <= m → - grid <= e → e <= c → 0 <= c → val_le m e B → B < 2 ^ c →
  Zdigits2 m + e <= c.
Proof.
  unfold val_le. intros Hm He Hec Hc Hle HB.
  assert (Zdigits2 m <= c - e); [|lia].
  apply Zdigits2_le; [lia | lia |].
  assert (0 < 2 ^ (e + grid)) by (apply Z.pow_pos_nonneg; lia).
  assert (0 < 2 ^ grid) by reflexivity.
  assert (2 ^ (c - e) * 2 ^ (e + grid) = 2 ^ c * 2 ^ grid) as Hs.
  { rewrite <- !Z.pow_add_r by (unfold grid in *; lia). f_equal. lia. }
  nia.
Qed.

Lemma val_le_exp (m e B c : Z) :
  0 < m → - grid <= e → 0 <= c → val_le m e B → B < 2 ^ c → e < c.
Proof.
  unfold val_le. intros Hm He Hc Hle HB.
  destruct (Z_lt_ge_dec e c) as [|Hge]; [assumption|exfalso].
  assert (0 < 2 ^ grid) by reflexivity.
  assert (2 ^ (c + grid) <= 2 ^ (e + grid))
    by (apply Z.pow_le_mono_r; unfold grid in *; lia).
  assert (2 ^ (c + grid) = 2 ^ c * 2 ^ grid)
    by (apply Z.pow_add_r; unfold grid in *; lia).
  assert (0 < 2 ^ (e + grid)) by (apply Z.pow_pos_nonneg; unfold grid in *; lia).
  nia.
Qed.

(** [binary_round_aux] never rounds across an integer [B] of the grid it
    rounds to, and a value below [2^c] keeps its exponent below [c - 24]. *)
Lemma binary_round_aux_le (sx : bool) (m e : Z) (l : location) (B c : Z)
    (r : spec_float) :
  0 <= m → - grid <= e →
  let e1 := e + Z.max (fexp 24 128 (Zdigits2 m + e) - e) 0 in
  on_grid B e1 →
  val_le m e B →
  (l ≠ loc_Exact → val_lt m e B) →
  0 <= c → B < 2 ^ c → e1 <= c - 24 →
  binary_round_aux 24 128 sx m e l = r →
  match r with
  | S754_finite sx' m'' e'' =>
      sx' = sx ∧ val_le (Zpos m'') e'' B ∧ Zpos m'' < 2 ^ 24
      ∧ -149 <= e'' <= c - 24
  | S754_nan => False
  | _ => True
  end.
Proof.
  intros Hm He e1 [Y HY] Hle Hlt Hc HBc He1c Hr. unfold e1 in *. clear e1.
  set (n' := Z.max (fexp 24 128 (Zdigits2 m + e) - e) 0) in *.
  assert (0 <= n') as Hn' by (unfold n'; lia).
  assert (0 < 2 ^ (e + grid)) as Hpe by (apply Z.pow_pos_nonneg; lia).
  assert (0 < 2 ^ n') as Hpn by (apply Z.pow_pos_nonneg; lia).
  assert (2 ^ (e + n' + grid) = 2 ^ n' * 2 ^ (e + grid)) as Hsplit.
  { rewrite <- Z.pow_add_r by lia. f_equal. lia. }
  unfold val_le, val_lt in *.
  pose proof (binary_round_aux_upper sx m e l Y r Hm) as H. cbv zeta in H.
  fold n' in H.
  assert (m <= Y * 2 ^ n') as H1 by (rewrite Hsplit in HY; nia).
  assert (l ≠ loc_Exact → m < Y * 2 ^ n') as H2.
  { intros Hl. specialize (Hlt Hl). rewrite Hsplit in HY. nia. }
  specialize (H H1 H2 Hr).
  destruct r as [| | |sx' m'' e'']; try exact H.
  destruct H as (Hs & He'' & HmY & Hm24 & Hemin & Hemax).
  assert (0 <= Y) as HY0 by nia.
  assert (Zdigits2 Y + (e + n') <= c) as HdY.
  { apply (val_le_digits Y (e + n') B c); try lia.
    unfold val_le. lia. }
  pose proof (fexp32 (Zdigits2 Y + (e + n'))) as HfY.
  split; [exact Hs|]. split; [|split; [assumption | lia]].
  assert (2 ^ (e'' + grid) = 2 ^ (e'' - (e + n')) * 2 ^ (e + n' + grid)) as ->.
  { rewrite <- Z.pow_add_r by lia. f_equal. lia. }
  assert (0 < 2 ^ (e + n' + grid)) by (apply Z.pow_pos_nonneg; lia).
  nia.
Qed.

(** Reading a value back as an integer, towards zero. *)
Lemma shiftl_val_le (m e B : Z) :
  0 <= m → - grid <= e → val_le m e B → Z.shiftl m e <= B.
Proof.
  unfold val_le. intros Hm He Hle.
  assert (0 < 2 ^ grid) as Hg by reflexivity.
  destruct (Z_le_gt_dec 0 e) as [Hpos|Hneg].
  - rewrite Z.shiftl_mul_pow2 by lia.
    rewrite Z.pow_add_r in Hle by (unfold grid in *; lia).
    assert (0 < 2 ^ e) by (apply Z.pow_pos_nonneg; lia). nia.
  - rewrite Z.shiftl_div_pow2 by lia.
    assert (0 < 2 ^ (- e)) as Hp by (apply Z.pow_pos_nonneg; lia).
    assert (0 < 2 ^ (e + grid)) as Hp2 by (apply Z.pow_pos_nonneg; lia).
    assert (2 ^ grid = 2 ^ (- e) * 2 ^ (e + grid)) as Hs.
    { rewrite <- Z.pow_add_r by lia. f_equal. lia. }
    rewrite Hs in Hle.
    assert (m <= B * 2 ^ (- e)) by nia.
    apply Z.div_le_upper_bound; lia.
Qed.

(** A value that is at most [B] and truncates to [B] is [B]: its multiple by
    [2^5] is read back as [32 * B]. *)
Lemma shiftl_val_eq (m e B : Z) :
  0 <= m → - grid <= e → val_le m e B → Z.shiftl m e = B →
  Z.shiftl m (e + 5) = 32 * B.
Proof.
  unfold val_le. intros Hm He Hle Heq.
  destruct (Z_le_gt_dec 0 e) as [Hpos|Hneg].
  - rewrite Z.shiftl_mul_pow2 in * by lia.
    rewrite Z.pow_add_r by lia. change (2 ^ 5) with 32. lia.
  - rewrite Z.shiftl_div_pow2 in Heq by lia.
    assert (0 < 2 ^ (- e)) as Hp by (apply Z.pow_pos_nonneg; lia).
    assert (0 < 2 ^ (e + grid)) as Hp2 by (apply Z.pow_pos_nonneg; lia).
    assert (2 ^ grid = 2 ^ (- e) * 2 ^ (e + grid)) as Hs.
    { rewrite <- Z.pow_add_r by lia. f_equal. lia. }
    rewrite Hs in Hle.
    assert (m <= B * 2 ^ (- e)) as Hub by nia.
    pose proof (Z.div_mod m (2 ^ (- e)) ltac:(lia)) as Hdm.
    pose proof (Z.mod_pos_bound m (2 ^ (- e)) Hp) as Hmod.
    rewrite Heq in Hdm.
    assert (m = B * 2 ^ (- e)) as -> by lia.
    rewrite <- (Z.shiftl_mul_pow2 B (- e)) by lia.
    rewrite Z.shiftl_shiftl by lia.
    replace (- e + (e + 5)) with 5 by lia.
    rewrite Z.shiftl_mul_pow2 by lia. change (2 ^ 5) with 32. lia.
Qed.


Lemma Zdigits2_gt (m j : Z) : 0 <= j → 2 ^ j <= m → j < Zdigits2 m.
Proof.
  intros Hj Hle.
  assert (0 < 2 ^ j) by (apply Z.pow_pos_nonneg; lia).
  destruct (Zdigits2_bounds m ltac:(lia)) as [Hd0 Hd].
  destruct (Z_lt_ge_dec j (Zdigits2 m)) as [|Hge]; [assumption|].
  assert (2 ^ Zdigits2 m <= 2 ^ j) by (apply Z.pow_le_mono_r; lia). lia.
Qed.

(** A mantissa with enough trailing zeros is rounded without loss. *)
Lemma binary_round_aux_exact (sx : bool) (m0 j e : Z) (r : spec_float) :
  0 < m0 → 0 <= j →
  let m := m0 * 2 ^ j in
  let n' := Z.max (fexp 24 128 (Zdigits2 m + e) - e) 0 in
  n' <= j →
  binary_round_aux 24 128 sx m e loc_Exact = r →
  match r with
  | S754_finite sx' p e' => sx' = sx ∧ Zpos p = m0 * 2 ^ (j - n') ∧ e' = e + n'
  | S754_infinity _ => True
  | _ => False
  end.
Proof.
  intros Hm0 Hj m n' Hn'j.
  assert (0 < 2 ^ j) as Hpj by (apply Z.pow_pos_nonneg; lia).
  assert (0 < m) as Hm by (unfold m; nia).
  unfold binary_round_aux, shr_fexp.
  pose proof (fexp32 (Zdigits2 m + e)) as Hfe.
  set (n := fexp 24 128 (Zdigits2 m + e) - e) in *.
  destruct (shr_shifted (shr_record_of_loc m loc_Exact) e n)
    as ([Hs1 Hf1] & Hn1 & He1'); [simpl; lia|].
  destruct (shr (shr_record_of_loc m loc_Exact) e n) as [mrs1 e1] eqn:E1.
  simpl fst in *. simpl snd in *. simpl shr_m in Hs1, Hf1.
  fold n' in He1', Hs1, Hf1. subst e1. set (e1 := e + n') in *.
  assert (0 <= n') as Hn' by (unfold n'; lia).
  assert (0 < 2 ^ n') as Hp by (apply Z.pow_pos_nonneg; lia).
  assert (m = m0 * 2 ^ (j - n') * 2 ^ n') as Hmsplit.
  { unfold m. rewrite <- Z.mul_assoc, <- Z.pow_add_r by lia. do 2 f_equal. lia. }
  assert (0 < 2 ^ (j - n')) as Hpjn by (apply Z.pow_pos_nonneg; lia).
  assert (shr_m mrs1 = m0 * 2 ^ (j - n')) as Hm1.
  { rewrite Hs1, Hmsplit. apply Z.div_mul. lia. }
  assert (flags mrs1 = false) as Hfl.
  { apply Hf1. split; [|reflexivity]. rewrite Hmsplit. apply Z.mod_mul. lia. }
  destruct (round_nearest_even_le mrs1) as (_ & _ & Hr3).
  cbv zeta in Hr3. rewrite (Hr3 Hfl), Hm1. clear Hr3.
  set (mx := m0 * 2 ^ (j - n')) in *.
  assert (0 < mx) as Hmx by (unfold mx; nia).
  pose proof (fexp32 (Zdigits2 mx + e1)) as Hfe2.
  set (n2 := fexp 24 128 (Zdigits2 mx + e1) - e1) in *.
  assert (n2 <= 0) as Hn2.
  { destruct (Zdigits2_bounds m ltac:(lia)) as [Hd0 Hd].
    assert (j < Zdigits2 m) as Hdj by (apply Zdigits2_gt; unfold m; nia).
    assert (Zdigits2 mx <= Zdigits2 m - n') as Hdx.
    { apply Zdigits2_le; [lia | lia |].
      assert (2 ^ Zdigits2 m = 2 ^ (Zdigits2 m - n') * 2 ^ n') as Hsp.
      { rewrite <- Z.pow_add_r by lia. f_equal. lia. }
      assert (mx * 2 ^ n' < 2 ^ (Zdigits2 m - n') * 2 ^ n') as Hlt
        by (rewrite <- Hsp, <- Hmsplit; exact Hd).
      assert (0 < 2 ^ (Zdigits2 m - n')) by (apply Z.pow_pos_nonneg; lia).
      nia. }
    unfold n2, e1, n', n in *. lia. }
  destruct (shr_shifted (shr_record_of_loc mx loc_Exact) e1 n2)
    as ([Hs2 _] & _ & He2); [simpl; lia|].
  destruct (shr (shr_record_of_loc mx loc_Exact) e1 n2) as [mrs2 e2] eqn:E2.
  simpl fst in *. simpl snd in *. simpl shr_m in Hs2.
  replace (Z.max n2 0) with 0 in * by lia.
  rewrite Z.div_1_r in Hs2. intros <-.
  rewrite Hs2. destruct mx as [|p|p] eqn:Emx; [lia | | lia].
  destruct (e2 <=? 128 - 24); [|exact I].
  split; [reflexivity|]. split; [reflexivity | lia].
Qed.

(** Multiplying a finite value by [32 = 2^23 * 2^-18] is exact: its integer
    part is the value shifted by five more bits (or the product overflows). *)
Lemma SFmul_32 (m : positive) (e : Z) (r : spec_float) :
  Zpos m < 2 ^ 24 → -149 <= e →
  SFmul 24 128 (S754_finite false m e) (S754_finite false 8388608 (-18)) = r →
  match r with
  | S754_finite sx' p e' =>
      sx' = false ∧ Z.shiftl (Zpos p) e' = Z.shiftl (Zpos m) (e + 5)
  | S754_infinity _ => True
  | _ => False
  end.
Proof.
  intros Hm He. unfold SFmul. simpl xorb.
  rewrite Pos2Z.inj_mul. change (Zpos 8388608) with (2 ^ 23).
  intros Hr.
  pose proof (binary_round_aux_exact false (Zpos m) 23 (e + -18) r
                ltac:(lia) ltac:(lia)) as H.
  cbv zeta in H.
  pose proof (fexp32 (Zdigits2 (Zpos m * 2 ^ 23) + (e + -18))) as Hfe.
  set (n' := Z.max (fexp 24 128 (Zdigits2 (Zpos m * 2 ^ 23) + (e + -18))
                    - (e + -18)) 0) in *.
  assert (n' <= 23) as Hn'.
  { assert (Zdigits2 (Zpos m * 2 ^ 23) <= 47).
    { apply Zdigits2_le; [lia | lia |].
      change (2 ^ 47) with (2 ^ 24 * 2 ^ 23). nia. }
    unfold n'. lia. }
  specialize (H Hn' Hr).
  destruct r as [| | |sx' p e']; try exact H.
  destruct H as (-> & Hp & ->). split; [reflexivity|].
  assert (0 <= n') by (unfold n'; lia).
  rewrite Hp, <- Z.shiftl_mul_pow2 by lia.
  rewrite Z.shiftl_shiftl by lia. f_equal. lia.
Qed.


(** *** Conversion of an integer *)

Lemma shl_align_spec (mx : positive) (ex ex' : Z) (mz : positive) (ez : Z) :
  shl_align mx ex ex' = (mz, ez) →
  ez <= ex ∧ Zpos mz = Zpos mx * 2 ^ (ex - ez) ∧ (ez = ex ∨ ez = ex').
Proof.
  unfold shl_align. destruct (ex' - ex) as [|d|d] eqn:E; intros [= <- <-].
  - rewrite Z.sub_diag. simpl. split; [lia|]. split; [lia | now left].
  - rewrite Z.sub_diag. simpl. split; [lia|]. split; [lia | now left].
  - split; [lia|]. split; [|now right].
    replace (ex - ex') with (Zpos d) by lia.
    change (Pos.iter xO mx d) with (shift_pos d mx).
    rewrite shift_pos_correct, Zpower_pos_nat, Zpower_nat_Z.
    rewrite positive_nat_Z. lia.
Qed.

(** A finite value in [[0, B]] with an exponent of at most [c - 24], or a
    special value. *)
Definition below (c B : Z) (x : spec_float) : Prop :=
  match x with
  | S754_finite sx m e =>
      sx = false ∧ val_le (Zpos m) e B ∧ Zpos m < 2 ^ 24 ∧ -149 <= e <= c - 24
  | _ => True
  end.

Lemma on_grid_8 (c e : Z) : - grid <= e <= 3 → on_grid (8 * c) e.
Proof.
  intros He. exists (c * 2 ^ (3 - e)).
  rewrite <- Z.mul_assoc, <- Z.pow_add_r by lia.
  replace (3 - e + (e + grid)) with (3 + grid) by lia.
  rewrite Z.pow_add_r by (unfold grid in *; lia). change (2 ^ 3) with 8. lia.
Qed.

(** [static_cast<float>] of a positive [int] below a multiple of 8 stays
    below it. *)
Lemma of_Z_below (n c : Z) :
  0 < n → n <= 8 * c → 8 * c < 2 ^ 26 →
  below 26 (8 * c) (binary_normalize 24 128 n 0 false).
Proof.
  intros Hn Hle Hc. destruct n as [|p|p]; [lia | | lia].
  unfold binary_normalize, binary_round.
  destruct (shl_align p 0 (fexp 24 128 (Zpos (digits2_pos p) + 0))) as [mz ez] eqn:E.
  destruct (shl_align_spec _ _ _ _ _ E) as (Hez & Hmz & Hcase).
  pose proof (fexp32 (Zpos (digits2_pos p) + 0)) as Hfe.
  assert (-149 <= ez) as Hlo by lia.
  replace (0 - ez) with (- ez) in Hmz by lia.
  assert (0 < 2 ^ (- ez)) as Hp by (apply Z.pow_pos_nonneg; lia).
  assert (0 < 2 ^ grid) as Hg by reflexivity.
  assert (2 ^ (- ez) * 2 ^ (ez + grid) = 2 ^ grid) as Hs.
  { rewrite <- Z.pow_add_r by (unfold grid in *; lia). f_equal. lia. }
  assert (val_le (Zpos mz) ez (8 * c)) as Hv.
  { unfold val_le. rewrite Hmz, <- Z.mul_assoc, Hs. nia. }
  pose proof (val_le_digits (Zpos mz) ez (8 * c) 26 ltac:(lia)
                ltac:(unfold grid in *; lia) ltac:(lia) ltac:(lia) Hv Hc) as Hd.
  pose proof (fexp32 (Zdigits2 (Zpos mz) + ez)) as Hfe2.
  pose proof (binary_round_aux_le false (Zpos mz) ez loc_Exact (8 * c) 26
                (binary_round_aux 24 128 false (Zpos mz) ez loc_Exact)
                ltac:(lia) ltac:(unfold grid in *; lia)) as H.
  cbv zeta in H.
  specialize (H ltac:(apply on_grid_8; unfold grid in *; lia) Hv
                ltac:(intros Hne; now destruct Hne) ltac:(lia) Hc ltac:(lia)
                eq_refl).
  destruct (binary_round_aux 24 128 false (Zpos mz) ez loc_Exact); simpl; auto.
Qed.

(** *** Division by 1000 *)

(** [1000.0f] is [16384000 * 2^-14]. *)
Lemma SFdiv_1000_below (x : spec_float) (B : Z) :
  0 <= B < 2 ^ 16 →
  below 26 (1000 * B) x →
  below 16 B (SFdiv 24 128 x (S754_finite false 16384000 (-14))).
Proof.
  intros HB Hx. destruct x as [sx|sx| |sx m1 e1]; try exact I.
  destruct Hx as (-> & Hv & Hm24 & Hemin).
  unfold SFdiv, SFdiv_core_binary.
  change (Zdigits2 16384000) with 24.
  assert (1000 * B < 2 ^ 26) as HB26 by (change (2 ^ 26) with (1024 * 2 ^ 16); lia).
  pose proof (val_le_digits (Zpos m1) e1 (1000 * B) 26 ltac:(lia)
                ltac:(unfold grid in *; lia) ltac:(lia) ltac:(lia) Hv HB26) as Hd1.
  pose proof (fexp32 (Zdigits2 (Zpos m1) + e1 - (24 + -14))) as Hfe.
  set (e' := Z.min (fexp 24 128 (Zdigits2 (Zpos m1) + e1 - (24 + -14))) (e1 - -14)).
  assert (-149 <= e' <= -8) as He' by (unfold e'; lia).
  set (s := e1 - -14 - e').
  assert (0 <= s) as Hs by (unfold s, e'; lia).
  assert (match s with
          | 0 => Zpos m1 | Zpos _ => Z.shiftl (Zpos m1) s | Zneg _ => 0
          end = Zpos m1 * 2 ^ s) as ->.
  { destruct s as [|p|p] eqn:Es; [simpl; lia | | lia].
    apply Z.shiftl_mul_pow2. lia. }
  pose proof (Z_div_mod (Zpos m1 * 2 ^ s) 16384000 ltac:(lia)) as Hdm.
  destruct (Z.div_eucl (Zpos m1 * 2 ^ s) 16384000) as [q r].
  destruct Hdm as [Hdm Hr].
  assert (0 < 2 ^ s) as Hps by (apply Z.pow_pos_nonneg; lia).
  assert (0 <= q) as Hq by nia.
  assert (0 < 2 ^ grid) as Hg by reflexivity.
  assert (0 < 2 ^ (e' + grid)) as Hpe by (apply Z.pow_pos_nonneg; unfold grid; lia).
  assert (2 ^ s * 2 ^ (e' + grid) = 2 ^ (e1 + grid) * 2 ^ 14) as Hsplit.
  { rewrite <- !Z.pow_add_r by (unfold grid, s in *; lia). f_equal.
    unfold s. lia. }
  assert (16384000 * q * 2 ^ (e' + grid)
          = Zpos m1 * 2 ^ (e1 + grid) * 2 ^ 14 - r * 2 ^ (e' + grid)) as Hprod.
  { transitivity ((Zpos m1 * 2 ^ s - r) * 2 ^ (e' + grid)); [f_equal; lia|].
    rewrite Z.mul_sub_distr_r. f_equal.
    rewrite <- !Z.mul_assoc. f_equal. exact Hsplit. }
  unfold val_le in Hv. change (2 ^ 14) with 16384 in Hprod.
  assert (val_le q e' B) as Hvq by (unfold val_le; nia).
  assert (new_location 16384000 r ≠ loc_Exact → val_lt q e' B) as Hvlt.
  { intros Hne. assert (r ≠ 0) as Hr0.
    { intros ->. now apply Hne. }
    unfold val_lt. nia. }
  pose proof (val_le_digits q e' B 16 Hq ltac:(unfold grid in *; lia)
                ltac:(lia) ltac:(lia) Hvq ltac:(lia)) as Hdq.
  pose proof (fexp32 (Zdigits2 q + e')) as Hfe2.
  pose proof (binary_round_aux_le (xorb false false) q e'
                (new_location 16384000 r) B 16
                (binary_round_aux 24 128 (xorb false false) q e'
                   (new_location 16384000 r))
                Hq ltac:(unfold grid in *; lia)
                ltac:(apply on_grid_nonpos; unfold grid in *; lia)
                Hvq Hvlt ltac:(lia) ltac:(lia) ltac:(lia) eq_refl) as H.
  destruct (binary_round_aux 24 128 (xorb false false) q e'
              (new_location 16384000 r)); simpl; auto.
Qed.


(** *** Clamped times and their products *)

(** A time in [[0, 1]]. *)
Definition unit_time (t : spec_float) : Prop :=
  match t with
  | S754_finite s m e => s = false ∧ val_le (Zpos m) e 1 ∧ -149 <= e
  | S754_zero _ => True
  | _ => False
  end.

(** [clamp(t, 0.0f, 1.0f)] of a binary32 value that is not a NaN;
    [1.0f] is [2^23 * 2^-23]. *)
Lemma clamp_unit_time (t : spec_float) :
  valid_binary 24 128 t = true → t ≠ S754_nan →
  unit_time (if SFltb t (S754_zero false) then S754_zero false
             else if SFltb (S754_finite false 8388608 (-23)) t
                  then S754_finite false 8388608 (-23)
                  else t).
Proof.
  assert (unit_time (S754_finite false 8388608 (-23))) as Hone.
  { split; [reflexivity|]. split; [|lia]. unfold val_le. now vm_compute. }
  intros Hv Hn. destruct t as [s|s| |s m e]; [| | congruence |].
  - exact I.
  - destruct s; [exact I | exact Hone].
  - destruct s; [exact I|].
    cbn [SFltb SFcompare]. cbn [valid_binary] in Hv.
    unfold bounded, canonical_mantissa in Hv.
    apply andb_prop in Hv. destruct Hv as [Hc _].
    apply Z.eqb_eq in Hc. rewrite fexp32 in Hc.
    destruct (digits2_bounds m) as [_ Hd].
    assert (Zpos m < 2 ^ 24) as Hm24.
    { eapply Z.lt_le_trans; [exact Hd|]. apply Z.pow_le_mono_r; lia. }
    destruct (Z.compare_spec (-23) e) as [He|He|He].
    + subst e. change (Pos.compare_cont Eq 8388608 m) with (8388608 ?= m)%positive.
      destruct (Pos.compare_spec 8388608 m) as [Hm|Hm|Hm]; [| exact Hone |].
      * subst m. exact Hone.
      * split; [reflexivity|]. split; [|lia]. unfold val_le.
        change (2 ^ (-23 + grid)) with (2 ^ 297).
        change (1 * 2 ^ grid) with (8388608 * 2 ^ 297).
        apply Z.mul_le_mono_nonneg_r; [now vm_compute|].
        apply Pos2Z.pos_lt_pos in Hm. lia.
    + exact Hone.
    + split; [reflexivity|]. split; [|lia]. unfold val_le.
      assert (2 ^ (e + grid) <= 2 ^ (grid - 24))
        by (apply Z.pow_le_mono_r; unfold grid; lia).
      assert (0 < 2 ^ (e + grid)) by (apply Z.pow_pos_nonneg; unfold grid; lia).
      change (1 * 2 ^ grid) with (2 ^ 24 * 2 ^ (grid - 24)). nia.
Qed.

Lemma SFmul_below (t r : spec_float) (B : Z) :
  unit_time t → 0 <= B < 2 ^ 16 → below 16 B r →
  below 16 B (SFmul 24 128 t r).
Proof.
  intros Ht HB Hr.
  destruct t as [st|st| |st mt et]; try contradiction.
  - destruct r; exact I.
  - destruct Ht as (-> & Hvt & Het).
    destruct r as [sr|sr| |sr mr er]; try exact I.
    destruct Hr as (-> & Hvr & Hmr & Her).
    assert (et < 1) as Het1.
    { apply (val_le_exp (Zpos mt) et 1 1);
        [lia | unfold grid; lia | lia | exact Hvt | reflexivity]. }
    unfold SFmul. rewrite Pos2Z.inj_mul.
    set (m := Zpos mt * Zpos mr). set (e := et + er).
    assert (0 < 2 ^ grid) as Hg by reflexivity.
    assert (0 < 2 ^ (et + grid)) as Hpt by (apply Z.pow_pos_nonneg; unfold grid; lia).
    assert (0 < 2 ^ (er + grid)) as Hpr by (apply Z.pow_pos_nonneg; unfold grid; lia).
    assert (0 < 2 ^ (e + grid)) as Hpe
      by (apply Z.pow_pos_nonneg; unfold grid, e; lia).
    assert (2 ^ (et + grid) * 2 ^ (er + grid) = 2 ^ (e + grid) * 2 ^ grid) as Hsplit.
    { rewrite <- !Z.pow_add_r by (unfold grid, e in *; lia). f_equal.
      unfold e. lia. }
    assert (val_le m e B) as Hv.
    { unfold val_le in *. unfold m.
      assert (Zpos mt * 2 ^ (et + grid) * (Zpos mr * 2 ^ (er + grid))
              <= 1 * 2 ^ grid * (B * 2 ^ grid)) as Hprod
        by (apply Z.mul_le_mono_nonneg; lia).
      replace (Zpos mt * 2 ^ (et + grid) * (Zpos mr * 2 ^ (er + grid)))
        with (Zpos mt * Zpos mr * (2 ^ (et + grid) * 2 ^ (er + grid))) in Hprod
        by ring.
      rewrite Hsplit in Hprod. nia. }
    pose proof (val_le_digits m e B 16 ltac:(unfold m; lia)
                  ltac:(unfold grid, e in *; lia) ltac:(unfold e; lia)
                  ltac:(lia) Hv ltac:(lia)) as Hd.
    pose proof (fexp32 (Zdigits2 m + e)) as Hfe.
    pose proof (binary_round_aux_le (xorb false false) m e loc_Exact B 16
                  (binary_round_aux 24 128 (xorb false false) m e loc_Exact)
                  ltac:(unfold m; lia) ltac:(unfold grid, e in *; lia)) as H.
    cbv zeta in H.
    specialize (H ltac:(apply on_grid_nonpos; unfold grid, e in *; lia) Hv
                  ltac:(intros Hne; now destruct Hne) ltac:(lia) ltac:(lia)
                  ltac:(unfold e in *; lia) eq_refl).
    destruct (binary_round_aux 24 128 (xorb false false) m e loc_Exact);
      simpl; auto.
Qed.

End Binary32Rounding.

(** ** The bounds checks of [add_impulse] on binary32 *)

(** What the constructor fixes for good: the samples per millisecond and the
    number of slots of the accumulation buffer, for the sampling [rate]. *)
Definition configured {F : Type} {HF : FloatOps F} (rate : Z) (s : spkr_t F) : Prop :=
  rate_per_ms s = (f_of_Z rate / f_of_Z 1000)%flt
  ∧ length (output_buffer s) = Z.to_nat (output_buffer_length rate).

Section ImpulseBounds.

Implicit Types (s : spkr_t spec_float) (x t : spec_float).

Lemma trunc_below (B : Z) x : 0 <= B → below 16 B x → 0 <= B32.trunc x <= B.
Proof.
  intros HB Hx. destruct x as [sx|sx| |sx m e]; simpl; try lia.
  destruct Hx as (-> & Hv & _ & He). simpl. split.
  - apply Z.shiftl_nonneg. lia.
  - apply shiftl_val_le; [lia | unfold grid; lia | exact Hv].
Qed.

(** The integer part of [x * 32.0f], when [x] truncates to its bound. *)
Lemma trunc_times_32 (B : Z) x :
  below 16 B x → B32.trunc x = B →
  B32.trunc (B32.mul x (S754_finite false 8388608 (-18))) = 32 * B
  ∨ B32.trunc (B32.mul x (S754_finite false 8388608 (-18))) = 0.
Proof.
  intros Hx HB. destruct x as [sx|sx| |sx m e]; try (now right).
  destruct Hx as (-> & Hv & Hm & He). simpl in HB.
  pose proof (SFmul_32 m e _ Hm ltac:(lia) eq_refl) as H.
  unfold B32.mul, B32.prec, B32.emax.
  destruct (SFmul 24 128 (S754_finite false m e) (S754_finite false 8388608 (-18)))
    as [sy|sy| |sy p e']; try (now right).
  destruct H as [-> H]. left. simpl. rewrite H.
  apply shiftl_val_eq; [lia | unfold grid; lia | exact Hv | exact HB].
Qed.

Lemma clamp_binary32 t :
  clamp t (f_of_Z 0) (f_of_Z 1)
  = if SFltb t (S754_zero false) then S754_zero false
    else if SFltb (S754_finite false 8388608 (-23)) t
         then S754_finite false 8388608 (-23)
         else t.
Proof. reflexivity. Qed.

Lemma rate_per_ms_below (rate : Z) :
  0 < rate → rate ÷ 1000 + 1 < 2 ^ 16 →
  below 16 (rate ÷ 1000 + 1) (B32.div (B32.of_Z rate) (B32.of_Z 1000)).
Proof.
  intros Hr HK. rewrite Z.quot_div_nonneg in * by lia.
  set (B := rate / 1000 + 1) in *.
  pose proof (Z.div_mod rate 1000 ltac:(lia)) as Hdm.
  pose proof (Z.mod_pos_bound rate 1000 ltac:(lia)) as Hmod.
  assert (0 <= rate / 1000) by (apply Z.div_pos; lia).
  change (B32.of_Z 1000) with (S754_finite false 16384000 (-14)).
  apply SFdiv_1000_below; [unfold B; lia|].
  replace (1000 * B) with (8 * (125 * B)) by lia.
  apply of_Z_below; [lia | unfold B; lia |].
  change (2 ^ 26) with (1024 * 2 ^ 16). lia.
Qed.

End ImpulseBounds.

(** X1.  The two [assertm] of the tap loop hold on binary32: with the
    accumulation buffer of [quality + rate / 1000 + 1] slots that
    [init_interpolation] allocates (a length that fits [uint16_t]) and the
    samples per millisecond of the constructor, every edge time that is a
    binary32 value other than a NaN, once clamped into [0, 1] as the callback
    does, makes [add_impulse] read its kernel and write its buffer within
    bounds. *)
Theorem add_impulse_within_bounds (rate : Z) (s : spkr_t spec_float)
    (t : spec_float) :
  8000 <= rate →
  SPKR_FILTER_QUALITY + rate ÷ 1000 + 1 < 2 ^ 16 →
  configured rate s →
  valid_binary 24 128 t = true →
  t ≠ S754_nan →
  add_impulse_asserts (clamp t (f_of_Z 0) (f_of_Z 1)) s.
Proof.
  intros Hrate Hlen [Hrpm Hbuf] Hvalid Hnan.
  unfold SPKR_FILTER_QUALITY in Hlen.
  assert (0 <= rate ÷ 1000) as HK by (apply Z.quot_pos; lia).
  set (B := rate ÷ 1000 + 1) in *.
  pose proof (clamp_unit_time t Hvalid Hnan) as Hunit.
  rewrite <- clamp_binary32 in Hunit.
  set (t' := clamp t (f_of_Z 0) (f_of_Z 1)) in *.
  pose proof (rate_per_ms_below rate ltac:(lia) ltac:(fold B; lia)) as Hr.
  fold B in Hr.
  pose proof (SFmul_below t' _ B Hunit ltac:(unfold B in *; lia) Hr) as Hx.
  unfold add_impulse_asserts, impulse_position.
  rewrite Hrpm.
  change (f_mul t' (f_div (f_of_Z rate) (f_of_Z 1000)))
    with (SFmul 24 128 t' (B32.div (B32.of_Z rate) (B32.of_Z 1000))).
  set (x := SFmul 24 128 t' (B32.div (B32.of_Z rate) (B32.of_Z 1000))) in *.
  destruct (trunc_below B x ltac:(unfold B in *; lia) Hx) as [Hlo Hhi].
  change (f_trunc x) with (B32.trunc x).
  change (f_trunc (x * f_of_Z SPKR_OVERSAMPLING)%flt)
    with (B32.trunc (B32.mul x (S754_finite false 8388608 (-18)))).
  set (y := B32.trunc (B32.mul x (S754_finite false 8388608 (-18)))).
  assert (Z.of_nat (length (output_buffer s)) = 100 + B) as Hsize.
  { rewrite Hbuf. unfold output_buffer_length, check_cast_uint16, SPKR_FILTER_QUALITY.
    rewrite Z.mod_small by (fold B; lia). fold B. lia. }
  rewrite Hsize.
  assert (to_uint32 (B32.trunc x) = B32.trunc x) as Hoff.
  { unfold to_uint32. apply Z.mod_small. change (2 ^ 32) with (2 ^ 16 * 2 ^ 16). lia. }
  rewrite Hoff.
  unfold SPKR_FILTER_WIDTH. unfold SPKR_OVERSAMPLING, SPKR_FILTER_QUALITY.
  pose proof (Z.mod_pos_bound (to_uint32 y) 32 ltac:(lia)) as Hph.
  destruct (to_uint32 y mod 32 =? 0) eqn:E.
  - apply Z.eqb_eq in E. intros i Hi. rewrite E.
    unfold to_uint32. rewrite Z.mod_small
      by (change (2 ^ 32) with (2 ^ 16 * 2 ^ 16); lia).
    lia.
  - apply Z.eqb_neq in E.
    assert (B32.trunc x ≠ B) as Hne.
    { intros Heq. apply E.
      assert (to_uint32 y mod 32 = y mod 32) as ->.
      { unfold to_uint32.
        apply Z.mod_mod_divide. exists (2 ^ 27). reflexivity. }
      destruct (trunc_times_32 B x Hx Heq) as [Hy|Hy]; fold y in Hy; rewrite Hy.
      - rewrite Z.mul_comm. apply Z.mod_mul. lia.
      - reflexivity. }
    assert (to_uint32 (B32.trunc x + 1) = B32.trunc x + 1) as ->.
    { unfold to_uint32. apply Z.mod_small.
      change (2 ^ 32) with (2 ^ 16 * 2 ^ 16). unfold B in *. lia. }
    intros i Hi.
    assert (to_uint32 (B32.trunc x + 1 + i) = B32.trunc x + 1 + i) as ->.
    { unfold to_uint32. apply Z.mod_small.
      change (2 ^ 32) with (2 ^ 16 * 2 ^ 16). unfold B in *. lia. }
    lia.
Qed.

(** At 48 kHz, for the edge time [3/4]. *)
Lemma add_impulse_within_bounds_boot :
  add_impulse_asserts (clamp (b32_frac 3 4) (f_of_Z 0) (f_of_Z 1)) boot32.
Proof.
  apply (add_impulse_within_bounds 48000).
  - lia.
  - vm_compute. reflexivity.
  - split; vm_compute; reflexivity.
  - vm_compute. reflexivity.
  - discriminate.
Defined.

(** ** The states the program reaches

    Power-on, followed by any calls of the three control entry points and of
    the mixer callback, at any tick positions and with any arguments. *)

Section Reachable.

Context {F : Type} {HF : FloatOps F} {HT : TimerConsts}.
Implicit Types (s : spkr_t F).

Inductive reachable (pcrate : Z) (kernel : list F) : spkr_t F → Prop :=
  | reach_Init : reachable pcrate kernel (PCSPEAKER_Init pcrate kernel)
  | reach_SetPITControl fuel t mode s s' :
      reachable pcrate kernel s →
      PCSPEAKER_SetPITControl fuel t mode s = Some s' →
      reachable pcrate kernel s'
  | reach_SetCounter fuel t cntr mode s s' :
      reachable pcrate kernel s →
      PCSPEAKER_SetCounter fuel t cntr mode s = Some s' →
      reachable pcrate kernel s'
  | reach_SetType fuel t gate out s s' :
      reachable pcrate kernel s →
      PCSPEAKER_SetType fuel t gate out s = Some s' →
      reachable pcrate kernel s'
  | reach_CallBack fuel len s s' samples :
      reachable pcrate kernel s →
      PCSPEAKER_CallBack fuel len s = Some (s', samples) →
      reachable pcrate kernel s'.

Lemma reachable_log_ok pcrate kernel s : reachable pcrate kernel s → log_ok s.
Proof.
  destruct (edge_log_levels_alternate (F:=F)) as (H0 & _ & H1 & H2 & H3 & H4).
  induction 1; eauto.
Qed.

(** What the constructor sets up and nothing changes afterwards. *)
Definition same_setup (s0 s : spkr_t F) : Prop :=
  rate s = rate s0
  ∧ rate_as_float s = rate_as_float s0
  ∧ rate_per_ms s = rate_per_ms s0
  ∧ sampled_impulse s = sampled_impulse s0
  ∧ minimum_counter s = minimum_counter s0
  ∧ length (output_buffer s) = length (output_buffer s0).

Lemma same_setup_stable s0 : forward_stable (same_setup s0).
Proof. stable_by_computation. Qed.

Lemma shift_out_length (len : nat) (buf : list F) :
  length (shift_out len buf) = length buf.
Proof.
  unfold shift_out. generalize (seq len (length buf - len)) as l. intros l.
  revert buf. induction l as [|i l IH]; intros buf; simpl; [reflexivity|].
  rewrite IH. destruct (buf !! i); [apply length_insert | reflexivity].
Qed.

Lemma zero_rest_length (len : nat) (buf : list F) :
  length (zero_rest len buf) = length buf.
Proof.
  unfold zero_rest. generalize (seq (length buf - len) len) as l. intros l.
  revert buf. induction l as [|i l IH]; intros buf; simpl; [reflexivity|].
  now rewrite IH, length_insert.
Qed.

Lemma same_setup_AddDelayEntry s0 idx lvl s :
  same_setup s0 s → same_setup s0 (AddDelayEntry idx lvl s).
Proof. apply (fs_AddDelayEntry _ (same_setup_stable s0)). Qed.

Lemma same_setup_AddPITOutput s0 idx s :
  same_setup s0 s → same_setup s0 (AddPITOutput idx s).
Proof. apply AddPITOutput_stable, same_setup_stable. Qed.

Lemma same_setup_frame s0 s s' :
  same_setup s0 s →
  rate s' = rate s → rate_as_float s' = rate_as_float s →
  rate_per_ms s' = rate_per_ms s → sampled_impulse s' = sampled_impulse s →
  minimum_counter s' = minimum_counter s →
  length (output_buffer s') = length (output_buffer s) →
  same_setup s0 s'.
Proof. unfold same_setup. intros (?&?&?&?&?&?) ??????. repeat split; congruence. Qed.

Lemma same_setup_synthesize s0 s :
  same_setup s0 s → same_setup s0 (synthesize_edges s).
Proof.
  intros H. apply (same_setup_frame s0 s _ H);
    try (rewrite synthesize_edges_buffer_only; reflexivity).
  apply synthesize_edges_length.
Qed.

End Reachable.

(** One update peeled off a nested state: [frame] shows that the update
    leaves the fields alone that the property at hand reads. *)
Ltac peel frame :=
  match goal with
  | |- ?P (?f ?v ?s) =>
      let H := fresh "Hpeel" in
      assert (∀ x, P x → P (f v x)) as H
        by (let x := fresh "x" in
            let Hx := fresh "Hx" in
            intros x Hx; apply (frame x _ Hx); reflexivity);
      apply H; clear H
  end.

Ltac same_setup_step :=
  match goal with
  | |- same_setup _ (if ?c then _ else _) => destruct c
  | |- same_setup _ (AddPITOutput _ _) => apply same_setup_AddPITOutput
  | |- same_setup _ (AddDelayEntry _ _ _) => apply same_setup_AddDelayEntry
  | |- same_setup ?s0 _ => peel (same_setup_frame s0)
  end.

Section ReachableSetup.

Context {F : Type} {HF : FloatOps F} {HT : TimerConsts}.
Implicit Types (s : spkr_t F).

Lemma same_setup_SetPITControl s0 fuel t mode s s' :
  same_setup s0 s → PCSPEAKER_SetPITControl fuel t mode s = Some s' →
  same_setup s0 s'.
Proof.
  intros Hs. unfold PCSPEAKER_SetPITControl.
  destruct (ForwardPIT fuel t s) as [sf|] eqn:E; [|discriminate]. simpl.
  pose proof (ForwardPIT_stable _ _ _ _ _ (same_setup_stable s0) Hs E) as Hsf.
  repeat case_match; intros [= <-]; repeat same_setup_step; exact Hsf.
Qed.

Lemma same_setup_SetCounter s0 fuel t cntr mode s s' :
  same_setup s0 s → PCSPEAKER_SetCounter fuel t cntr mode s = Some s' →
  same_setup s0 s'.
Proof.
  intros Hs. unfold PCSPEAKER_SetCounter.
  destruct (ForwardPIT fuel t s) as [sf|] eqn:E; [|discriminate]. simpl.
  pose proof (ForwardPIT_stable _ _ _ _ _ (same_setup_stable s0) Hs E) as Hsf.
  repeat case_match; intros [= <-]; repeat same_setup_step; exact Hsf.
Qed.

Lemma same_setup_SetType s0 fuel t gate out s s' :
  same_setup s0 s → PCSPEAKER_SetType fuel t gate out s = Some s' →
  same_setup s0 s'.
Proof.
  intros Hs. unfold PCSPEAKER_SetType.
  destruct (ForwardPIT fuel t s) as [sf|] eqn:E; [|discriminate]. simpl.
  pose proof (ForwardPIT_stable _ _ _ _ _ (same_setup_stable s0) Hs E) as Hsf.
  repeat case_match; intros [= <-]; repeat same_setup_step; exact Hsf.
Qed.

Lemma same_setup_CallBack s0 fuel len s s' samples :
  same_setup s0 s → PCSPEAKER_CallBack fuel len s = Some (s', samples) →
  same_setup s0 s'.
Proof.
  intros Hs. unfold PCSPEAKER_CallBack.
  destruct (ForwardPIT fuel (f_of_Z 1) s) as [sf|] eqn:E; [|discriminate]. simpl.
  pose proof (ForwardPIT_stable _ _ _ _ _ (same_setup_stable s0) Hs E) as Hsf.
  destruct (CallBack_stream _ _) as [[written len'] level].
  intros [= <- _].
  apply (same_setup_frame s0 (synthesize_edges (set_last_index (f_of_Z 0) sf)));
    [ | reflexivity .. | ].
  - apply same_setup_synthesize. same_setup_step. exact Hsf.
  - cbn [output_buffer set_mix_buffer set_output_buffer].
    now rewrite zero_rest_length, shift_out_length.
Qed.

End ReachableSetup.

Section ReachableInvariants.

Context {F : Type} {HF : FloatOps F} {HT : TimerConsts}.
Implicit Types (s : spkr_t F).

Lemma reachable_same_setup pcrate kernel s :
  reachable pcrate kernel s → same_setup (PCSPEAKER_Init pcrate kernel) s.
Proof.
  induction 1.
  - unfold same_setup. repeat split.
  - eapply same_setup_SetPITControl; eauto.
  - eapply same_setup_SetCounter; eauto.
  - eapply same_setup_SetType; eauto.
  - eapply same_setup_CallBack; eauto.
Qed.

(** X2.  The edge log never outgrows its array: in every state the program
    reaches, the fill count [used] is between 0 and [SPKR_ENTRIES], the array
    keeps its [SPKR_ENTRIES] slots, and the log holds exactly [used] edges. *)
Theorem edge_log_within_capacity pcrate kernel s :
  reachable pcrate kernel s →
  0 <= used s <= SPKR_ENTRIES
  ∧ length (entries s) = Z.to_nat SPKR_ENTRIES
  ∧ length (edge_log s) = Z.to_nat (used s).
Proof.
  intros Hr. destruct (reachable_log_ok _ _ _ Hr) as ([Hu Hl] & _).
  split; [exact Hu|]. split; [exact Hl|].
  unfold edge_log. rewrite length_take. lia.
Qed.

(** X3.  In every state the program reaches, two consecutive edges of the
    log never carry the same level: [AddDelayEntry] drops a submission at the
    level of the previous one. *)
Theorem edge_log_alternates pcrate kernel s i e1 e2 :
  reachable pcrate kernel s →
  edge_log s !! i = Some e1 → edge_log s !! S i = Some e2 →
  output_level e1 ≠ output_level e2.
Proof.
  intros Hr. destruct (reachable_log_ok _ _ _ Hr) as (_ & Halt & _).
  apply Halt.
Qed.

(** X4.  What the constructor computes from [pcrate] is never changed by a
    control call or a callback: the rate (at least 8000), the samples per
    millisecond, the kernel table, the minimum counter and the number of
    slots of the accumulation buffer. *)
Theorem setup_is_permanent pcrate kernel s :
  reachable pcrate kernel s →
  let r := Z.max pcrate 8000 in
  rate s = r
  ∧ rate_as_float s = f_of_Z r
  ∧ rate_per_ms s = (f_of_Z r / f_of_Z 1000)%flt
  ∧ sampled_impulse s = kernel
  ∧ minimum_counter s = 2 * PIT_TICK_RATE ÷ r
  ∧ length (output_buffer s) = Z.to_nat (output_buffer_length r).
Proof.
  intros Hr r. destruct (reachable_same_setup _ _ _ Hr) as (H1 & H2 & H3 & H4 & H5 & H6).
  rewrite H1, H2, H3, H4, H5, H6. simpl.
  repeat split. apply length_replicate.
Qed.

End ReachableInvariants.

(** The speaker switched on at the start of a tick and forwarded to three
    quarters of it by a control call that selects no mode: a reachable state
    with two edges in the log. *)
Ltac reach_boot32_on_low :=
  apply (reach_SetPITControl _ _ 8%nat (b32_frac 3 4) 0 boot32_on);
  [ apply (reach_SetType _ _ 8%nat (B32.of_Z 0) true true boot32);
    [ apply reach_Init | vm_compute; reflexivity ]
  | vm_compute; reflexivity ].

Lemma edge_log_within_capacity_on :
  0 <= used boot32_on_low <= SPKR_ENTRIES
  ∧ length (entries boot32_on_low) = Z.to_nat SPKR_ENTRIES
  ∧ length (edge_log boot32_on_low) = Z.to_nat (used boot32_on_low).
Proof.
  apply (edge_log_within_capacity 48000 zero_kernel). reach_boot32_on_low.
Defined.

Lemma edge_log_alternates_on :
  let e0 := mk_entry (B32.of_Z 0) 0 in
  output_level (default e0 (edge_log boot32_on_low !! 0%nat))
  ≠ output_level (default e0 (edge_log boot32_on_low !! 1%nat)).
Proof.
  intros e0.
  apply (edge_log_alternates 48000 zero_kernel boot32_on_low 0).
  - reach_boot32_on_low.
  - vm_compute. reflexivity.
  - vm_compute. reflexivity.
Defined.

Lemma setup_is_permanent_on :
  rate boot32_on_low = 48000
  ∧ rate_as_float boot32_on_low = B32.of_Z 48000
  ∧ rate_per_ms boot32_on_low = B32.div (B32.of_Z 48000) (B32.of_Z 1000)
  ∧ sampled_impulse boot32_on_low = zero_kernel
  ∧ minimum_counter boot32_on_low = 2 * 1193182 ÷ 48000
  ∧ length (output_buffer boot32_on_low) = Z.to_nat (output_buffer_length 48000).
Proof.
  pose proof (setup_is_permanent 48000 zero_kernel boot32_on_low) as H.
  cbv zeta in H. change (Z.max 48000 8000) with 48000 in H.
  apply H. reach_boot32_on_low.
Defined.

(** ** The callback drains what it consumed *)

Section Drain.

Context {F : Type} {HF : FloatOps F} {HT : TimerConsts}.
Implicit Types (s : spkr_t F) (buf : list F).

(** The in-place copy loop, after [k] of its iterations. *)
Lemma shift_out_steps (len k : nat) buf :
  (len + k <= length buf)%nat →
  foldl (λ buf i, match buf !! i with
                  | Some x => <[(i - len)%nat := x]> buf
                  | None => buf
                  end) buf (seq len k)
  = take k (drop len buf) ++ drop k buf.
Proof.
  induction k as [|k IH]; intros Hk; [reflexivity|].
  rewrite seq_S, foldl_app, IH by lia. simpl.
  assert (length (take k (drop len buf)) = k) as Hlen
    by (rewrite length_take, length_drop; lia).
  destruct (lookup_lt_is_Some_2 buf (len + k)) as [x Hx]; [lia|].
  rewrite lookup_app_r by lia. rewrite Hlen, lookup_drop.
  replace (k + (len + k - k))%nat with (len + k)%nat by lia. rewrite Hx.
  replace (len + k - len)%nat with (length (take k (drop len buf)) + 0)%nat by lia.
  rewrite insert_app_r.
  assert (drop len buf !! k = Some x) as Hd by (rewrite lookup_drop; exact Hx).
  rewrite (take_S_r _ _ _ Hd), <- app_assoc. f_equal.
  destruct (lookup_lt_is_Some_2 buf k) as [y Hy]; [lia|].
  rewrite (drop_S _ _ _ Hy). reflexivity.
Qed.

(** shift out consumed samples: the slots move down by [len]; the last
    [len] slots keep what they held. *)
Lemma shift_out_spec (len : nat) buf :
  (len <= length buf)%nat →
  shift_out len buf = drop len buf ++ drop (length buf - len) buf.
Proof.
  intros Hlen. unfold shift_out.
  rewrite shift_out_steps by lia.
  rewrite take_ge by (rewrite length_drop; lia). reflexivity.
Qed.

Lemma zero_rest_steps (a k : nat) buf :
  (a + k <= length buf)%nat →
  foldl (λ buf i, <[i := f_of_Z 0]> buf) buf (seq a k)
  = take a buf ++ replicate k (f_of_Z 0) ++ drop (a + k) buf.
Proof.
  induction k as [|k IH]; intros Hk.
  - simpl. rewrite Nat.add_0_r. symmetry. apply take_drop.
  - rewrite seq_S, foldl_app, IH by lia. simpl.
    assert (length (take a buf) = a) as Hlen by (rewrite length_take; lia).
    replace (a + k)%nat with (length (take a buf) + k)%nat at 1 by lia.
    rewrite insert_app_r.
    replace k with (length (replicate k (f_of_Z 0 : F)) + 0)%nat at 1
      by (rewrite length_replicate; lia).
    rewrite insert_app_r.
    destruct (lookup_lt_is_Some_2 buf (a + k)) as [y Hy]; [lia|].
    rewrite (drop_S _ _ _ Hy). simpl. f_equal.
    change (f_of_Z 0 :: replicate k (f_of_Z 0) ++ drop (a + S k) buf)
      with ((f_of_Z 0 :: replicate k (f_of_Z 0)) ++ drop (a + S k) buf).
    rewrite replicate_cons_app, <- app_assoc. simpl.
    replace (a + S k)%nat with (S (a + k)) by lia. reflexivity.
Qed.

(** zero the rest of the samples *)
Lemma zero_rest_spec (len : nat) buf :
  (len <= length buf)%nat →
  zero_rest len buf = take (length buf - len) buf ++ replicate len (f_of_Z 0).
Proof.
  intros Hlen. unfold zero_rest. rewrite zero_rest_steps by lia.
  rewrite drop_ge by lia. now rewrite app_nil_r.
Qed.

Lemma drain_spec (len : nat) buf :
  (len <= length buf)%nat →
  zero_rest len (shift_out len buf) = drop len buf ++ replicate len (f_of_Z 0).
Proof.
  intros Hlen. rewrite zero_rest_spec by (rewrite shift_out_length; lia).
  rewrite shift_out_length, shift_out_spec by lia.
  rewrite take_app_length'; [reflexivity|]. rewrite length_drop. lia.
Qed.

(** X5.  What the two loops after the "consume" loop leave in the
    accumulation buffer: with [n = min(len, size)] samples consumed, every
    slot has moved down by [n] and the last [n] slots are zero, so the tails
    of the impulses already synthesized carry over to the next callback.
    When [len] covers the whole buffer, the buffer is all zeros. *)
Theorem CallBack_shifts_buffer fuel len s s' frames mix sf :
  0 <= len →
  ForwardPIT fuel (f_of_Z 1) s = Some sf →
  PCSPEAKER_CallBack fuel len s = Some (s', (frames, mix)) →
  let synthesized := output_buffer (synthesize_edges (set_last_index (f_of_Z 0) sf)) in
  let n := Z.to_nat (Z.min len (Z.of_nat (length (output_buffer s)))) in
  output_buffer s' = drop n synthesized ++ replicate n (f_of_Z 0)
  ∧ length synthesized = length (output_buffer s)
  ∧ (Z.of_nat (length (output_buffer s)) <= len →
     output_buffer s' = replicate (length (output_buffer s)) (f_of_Z 0)).
Proof.
  intros Hlen Hf. unfold PCSPEAKER_CallBack. rewrite Hf. simpl.
  assert (output_buffer sf = output_buffer s) as Hbuf
    by exact (ForwardPIT_stable _ _ _ _ _ (output_buffer_stable (output_buffer s))
                eq_refl Hf).
  set (s1 := set_used 0 (synthesize_edges (set_last_index (f_of_Z 0) sf))).
  assert (length (output_buffer s1) = length (output_buffer s)) as Hsz.
  { unfold s1. simpl. rewrite synthesize_edges_length. simpl. now rewrite Hbuf. }
  pose proof (CallBack_stream_written len s1 Hlen) as Hw. cbv zeta in Hw.
  destruct (CallBack_stream len s1) as [[written len'] level].
  destruct Hw as (_ & Hlen' & _ & _). rewrite Hsz in Hlen'. subst len'.
  intros [= <- _ _]. cbn [output_buffer set_mix_buffer set_output_buffer].
  cbn [output_buffer set_current_output_level].
  change (output_buffer s1)
    with (output_buffer (synthesize_edges (set_last_index (f_of_Z 0) sf))) in *.
  set (B := output_buffer (synthesize_edges (set_last_index (f_of_Z 0) sf))) in *.
  set (n := Z.to_nat (Z.min len (Z.of_nat (length (output_buffer s))))).
  assert (n <= length B)%nat as Hn by (unfold n; lia).
  rewrite drain_spec by exact Hn.
  split; [reflexivity|]. split; [exact Hsz|].
  intros Hall. assert (n = length B) as -> by (unfold n; lia).
  rewrite drop_all. simpl. now rewrite Hsz.
Qed.

End Drain.

(** One millisecond at 48 kHz with one rising edge logged and a kernel of
    ones: 48 of the 149 slots are consumed. *)
Lemma CallBack_shifts_buffer_edge :
  let s := boot32_ones_edge in
  let sf := default s (ForwardPIT 8 (f_of_Z 1) s) in
  let r := default (s, (0, [])) (PCSPEAKER_CallBack 8 48 s) in
  let synthesized := output_buffer (synthesize_edges (set_last_index (f_of_Z 0) sf)) in
  let n := Z.to_nat (Z.min 48 (Z.of_nat (length (output_buffer s)))) in
  output_buffer r.1 = drop n synthesized ++ replicate n (f_of_Z 0)
  ∧ length synthesized = length (output_buffer s)
  ∧ (Z.of_nat (length (output_buffer s)) <= 48 →
     output_buffer r.1 = replicate (length (output_buffer s)) (f_of_Z 0)).
Proof.
  intros s sf r.
  apply (CallBack_shifts_buffer 8 48 s r.1 r.2.1 r.2.2 sf).
  - lia.
  - vm_compute. reflexivity.
  - vm_compute. reflexivity.
Defined.

(** ** Output levels *)

Section Emission.

Context {F : Type} {HF : FloatOps F} {HT : TimerConsts}.
Implicit Types (s : spkr_t F) (P : spkr_t F → Prop).

(** The two levels of the speaker cone. *)
Definition level_ok (lvl : Z) : Prop :=
  lvl = SPKR_POSITIVE_LEVEL ∨ lvl = SPKR_NEGATIVE_LEVEL.

(** [ForwardPIT] changes the output level only to one of the two levels, and
    submits it to the log in the same breath. *)
Record emit_stable (P : spkr_t F → Prop) : Prop := {
  es_last_index : ∀ v s, P s → P (set_last_index v s);
  es_pit_index : ∀ v s, P s → P (set_pit_index v s);
  es_pit_half : ∀ v s, P s → P (set_pit_half v s);
  es_pit_max : ∀ v s, P s → P (set_pit_max v s);
  es_waiting_for_trigger : ∀ v s, P s → P (set_pit_mode1_waiting_for_trigger v s);
  es_emit : ∀ v idx s,
    level_ok v → P s → P (AddPITOutput idx (set_pit_output_level v s))
}.

Lemma level_ok_positive : level_ok SPKR_POSITIVE_LEVEL.
Proof. now left. Qed.

Lemma level_ok_negative : level_ok SPKR_NEGATIVE_LEVEL.
Proof. now right. Qed.

Lemma ForwardPIT_mode2_emit_stable P fuel :
  emit_stable P →
  ∀ passed delay_base s s',
    P s → ForwardPIT_mode2 fuel passed delay_base s = Some s' → P s'.
Proof.
  intros HP. induction fuel as [|fuel IH]; intros passed delay_base s s' Hs; simpl.
  - destruct (negb _); [intros [= <-]; exact Hs | discriminate].
  - destruct (negb _); [intros [= <-]; exact Hs |].
    repeat case_match; try (intros [= <-]; now apply es_pit_index).
    + apply IH. apply es_pit_index; [exact HP|].
      apply es_emit; [exact HP | apply level_ok_negative | exact Hs].
    + apply IH. apply es_pit_index; [exact HP|].
      apply es_emit; [exact HP | apply level_ok_positive | exact Hs].
Qed.

Lemma ForwardPIT_mode3_emit_stable P fuel :
  emit_stable P →
  ∀ passed delay_base s s',
    P s → ForwardPIT_mode3 fuel passed delay_base s = Some s' → P s'.
Proof.
  intros HP. induction fuel as [|fuel IH]; intros passed delay_base s s' Hs; simpl.
  - destruct (negb _); [intros [= <-]; exact Hs | discriminate].
  - destruct (negb _); [intros [= <-]; exact Hs |].
    repeat case_match; try (intros [= <-]; now apply es_pit_index).
    + apply IH. apply es_pit_max; [exact HP|]. apply es_pit_half; [exact HP|].
      apply es_pit_index; [exact HP|].
      apply es_emit; [exact HP | apply level_ok_positive | exact Hs].
    + apply IH. apply es_pit_max; [exact HP|]. apply es_pit_half; [exact HP|].
      apply es_pit_index; [exact HP|].
      apply es_emit; [exact HP | apply level_ok_negative | exact Hs].
Qed.

Lemma ForwardPIT_oneshot_emit_stable P mode1 passed delay_base s :
  emit_stable P → P s → P (ForwardPIT_oneshot mode1 passed delay_base s).
Proof.
  intros HP Hs. unfold ForwardPIT_oneshot.
  destruct (_ >=? _)%flt; [exact Hs|].
  destruct (_ >=? _)%flt; [|now apply es_pit_index].
  assert (P (AddPITOutput
               (delay_base + pit_max (set_pit_index (pit_index s + passed) s)
                - pit_index (set_pit_index (pit_index s + passed) s) + passed)%flt
               (set_pit_output_level SPKR_POSITIVE_LEVEL
                  (set_pit_index (pit_index s + passed)%flt s)))) as H.
  { apply es_emit; [exact HP | apply level_ok_positive |].
    now apply es_pit_index. }
  destruct mode1; [now apply es_waiting_for_trigger | exact H].
Qed.

Lemma ForwardPIT_emit_stable P fuel t s s' :
  emit_stable P → P s → ForwardPIT fuel t s = Some s' → P s'.
Proof.
  intros HP Hs. unfold ForwardPIT.
  assert (P (set_last_index t s)) as H0 by now apply es_last_index.
  revert H0. generalize (set_last_index t s) as s1.
  generalize (t - last_index s)%flt as passed. generalize (last_index s) as db.
  intros db passed s1 H1.
  repeat case_match; try (intros [= <-]).
  all: first
    [ exact H1
    | now apply ForwardPIT_oneshot_emit_stable
    | now apply ForwardPIT_mode2_emit_stable
    | now apply ForwardPIT_mode3_emit_stable
    | now apply es_pit_index
    | apply es_pit_index; [exact HP|];
      apply es_emit; [exact HP | apply level_ok_negative | exact H1] ].
Qed.

(** *** The level the log was last told about *)

(** The level of the cone: the PIT output when it is connected, low when it
    is not. *)
Definition effective_level s : Z :=
  if pit_output_enabled s then pit_output_level s else SPKR_NEGATIVE_LEVEL.

(** The level last submitted to [AddDelayEntry] is the level of the cone. *)
Definition reference_tracks s : Prop :=
  previous_output_level s = effective_level s.

(** The weaker fact that holds in between an update of the output level and
    its submission. *)
Definition reference_low_when_off s : Prop :=
  pit_output_enabled s = false → previous_output_level s = SPKR_NEGATIVE_LEVEL.

Lemma reference_tracks_frame s s' :
  reference_tracks s →
  previous_output_level s' = previous_output_level s →
  pit_output_enabled s' = pit_output_enabled s →
  pit_output_level s' = pit_output_level s →
  reference_tracks s'.
Proof.
  unfold reference_tracks, effective_level. intros H H1 H2 H3.
  now rewrite H1, H2, H3.
Qed.

Lemma reference_low_frame s s' :
  reference_low_when_off s →
  previous_output_level s' = previous_output_level s →
  pit_output_enabled s' = pit_output_enabled s →
  reference_low_when_off s'.
Proof.
  unfold reference_low_when_off. intros H H1 H2. now rewrite H1, H2.
Qed.

Lemma reference_tracks_low s : reference_tracks s → reference_low_when_off s.
Proof.
  unfold reference_tracks, reference_low_when_off, effective_level.
  intros H He. now rewrite He in H.
Qed.

Lemma reference_tracks_AddPITOutput idx s :
  reference_low_when_off s → reference_tracks (AddPITOutput idx s).
Proof.
  intros H. unfold reference_tracks, effective_level.
  destruct (pit_output_enabled s) eqn:E.
  - rewrite AddPITOutput_previous by exact E.
    destruct (AddPITOutput_same_timer idx s) as (_ & -> & _ & -> & _).
    now rewrite E.
  - rewrite AddPITOutput_disabled by exact E. rewrite E. now apply H.
Qed.

Lemma reference_tracks_stable : emit_stable reference_tracks.
Proof.
  constructor;
    try (intros v s H; apply (reference_tracks_frame s _ H); reflexivity).
  intros v idx s _ H. apply reference_tracks_AddPITOutput.
  apply (reference_low_frame s); [|reflexivity..]. now apply reference_tracks_low.
Qed.

End Emission.

Section ReferenceLevel.

Context {F : Type} {HF : FloatOps F} {HT : TimerConsts}.
Implicit Types (s : spkr_t F).

Definition output_is (b : bool) s : Prop := pit_output_enabled s = b.

Lemma output_is_frame b s s' :
  output_is b s → pit_output_enabled s' = pit_output_enabled s → output_is b s'.
Proof. unfold output_is. congruence. Qed.

Lemma effective_level_AddDelayEntry idx lvl s :
  effective_level (AddDelayEntry idx lvl s) = effective_level s.
Proof.
  unfold effective_level.
  destruct (AddDelayEntry_same_timer idx lvl s) as (_ & -> & _ & -> & _).
  reflexivity.
Qed.

Lemma reference_tracks_submit idx lvl s :
  lvl = effective_level s → reference_tracks (AddDelayEntry idx lvl s).
Proof.
  intros ->. unfold reference_tracks.
  now rewrite AddDelayEntry_previous, effective_level_AddDelayEntry.
Qed.

End ReferenceLevel.

Ltac reference_step :=
  match goal with
  | |- reference_tracks (AddPITOutput _ _) => apply reference_tracks_AddPITOutput
  | |- @reference_tracks ?F _ => peel (@reference_tracks_frame F)
  | |- @reference_low_when_off ?F _ => peel (@reference_low_frame F)
  end.

Ltac reference_done H :=
  repeat reference_step;
  first [ exact H | exact (reference_tracks_low _ H) ].

Section ReferenceLevelCalls.

Context {F : Type} {HF : FloatOps F} {HT : TimerConsts}.
Implicit Types (s : spkr_t F).

Lemma reference_tracks_SetPITControl fuel t mode s s' :
  reference_tracks s → PCSPEAKER_SetPITControl fuel t mode s = Some s' →
  reference_tracks s'.
Proof.
  intros Hs. unfold PCSPEAKER_SetPITControl.
  destruct (ForwardPIT fuel t s) as [sf|] eqn:E; [|discriminate]. simpl.
  pose proof (ForwardPIT_emit_stable _ _ _ _ _ reference_tracks_stable Hs E) as Hsf.
  repeat case_match; intros [= <-]; reference_done Hsf.
Qed.

Lemma reference_tracks_SetCounter fuel t cntr mode s s' :
  reference_tracks s → PCSPEAKER_SetCounter fuel t cntr mode s = Some s' →
  reference_tracks s'.
Proof.
  intros Hs. unfold PCSPEAKER_SetCounter.
  destruct (ForwardPIT fuel t s) as [sf|] eqn:E; [|discriminate]. simpl.
  pose proof (ForwardPIT_emit_stable _ _ _ _ _ reference_tracks_stable Hs E) as Hsf.
  repeat case_match; intros [= <-]; reference_done Hsf.
Qed.

Lemma reference_tracks_SetType fuel t gate out s s' :
  PCSPEAKER_SetType fuel t gate out s = Some s' → reference_tracks s'.
Proof.
  unfold PCSPEAKER_SetType.
  destruct (ForwardPIT fuel t s) as [sf|] eqn:E; [|discriminate]. simpl.
  destruct out; repeat case_match; intros [= <-];
    apply reference_tracks_submit; unfold effective_level;
    match goal with
    | |- _ = if pit_output_enabled ?X then _ else _ =>
        assert (output_is true X ∨ output_is false X) as [Hon|Hon]
          by (first [ left; repeat peel (@output_is_frame F true); reflexivity
                    | right; repeat peel (@output_is_frame F false); reflexivity ]);
        unfold output_is in Hon; rewrite Hon
    end;
    first [reflexivity | discriminate].
Qed.

End ReferenceLevelCalls.

Section Levels.

Context {F : Type} {HF : FloatOps F} {HT : TimerConsts}.
Implicit Types (s : spkr_t F).

(** Every level the state holds is one of the two levels of the cone. *)
Definition levels_ok s : Prop :=
  wf_log s
  ∧ level_ok (pit_output_level s)
  ∧ level_ok (previous_output_level s)
  ∧ ∀ e, e ∈ edge_log s → level_ok (output_level e).

Lemma levels_ok_frame s s' :
  levels_ok s →
  entries s' = entries s → used s' = used s →
  previous_output_level s' = previous_output_level s →
  pit_output_level s' = pit_output_level s →
  levels_ok s'.
Proof.
  unfold levels_ok, wf_log, edge_log. intros H H1 H2 H3 H4.
  now rewrite H1, H2, H3, H4.
Qed.

Lemma levels_ok_set_level v s :
  level_ok v → levels_ok s → levels_ok (set_pit_output_level v s).
Proof.
  intros Hv (H1 & _ & H3 & H4).
  split; [exact H1|]. split; [exact Hv|]. split; [exact H3 | exact H4].
Qed.

Lemma levels_ok_AddDelayEntry idx lvl s :
  level_ok lvl → levels_ok s → levels_ok (AddDelayEntry idx lvl s).
Proof.
  intros Hlvl (Hwf & Hp & Hr & Hlog).
  assert (pit_output_level (AddDelayEntry idx lvl s) = pit_output_level s) as Hsame
    by now destruct (AddDelayEntry_same_timer idx lvl s) as (_ & _ & _ & -> & _).
  split; [now apply (fs_AddDelayEntry _ wf_log_stable)|].
  rewrite Hsame, AddDelayEntry_previous. split; [exact Hp|]. split; [exact Hlvl|].
  destruct (decide (lvl = previous_output_level s)) as [->|Hne].
  { now rewrite AddDelayEntry_same_level. }
  destruct (decide (used s = SPKR_ENTRIES)) as [Hfull|Hroom].
  { now rewrite AddDelayEntry_full. }
  assert (used s < SPKR_ENTRIES) as Hlt by (destruct Hwf; lia).
  destruct (AddDelayEntry_logged idx lvl s Hwf Hne Hlt) as [-> _].
  intros e [He| ->%list_elem_of_singleton]%elem_of_app; [now apply Hlog | exact Hlvl].
Qed.

Lemma levels_ok_AddPITOutput idx s : levels_ok s → levels_ok (AddPITOutput idx s).
Proof.
  intros H. unfold AddPITOutput. destruct (pit_output_enabled s); [|exact H].
  apply levels_ok_AddDelayEntry; [|exact H]. now destruct H as (_ & H & _).
Qed.

Lemma levels_ok_drained s : levels_ok s → levels_ok (set_used 0 s).
Proof.
  intros ([Hu Hl] & Hp & Hr & _). split; [|split; [exact Hp | split; [exact Hr|]]].
  - split; [simpl; unfold SPKR_ENTRIES; lia | exact Hl].
  - unfold edge_log. simpl. intros e He. now apply elem_of_nil in He.
Qed.

Lemma levels_ok_stable : emit_stable levels_ok.
Proof.
  constructor;
    try (intros v s H; apply (levels_ok_frame s _ H); reflexivity).
  intros v idx s Hv H. apply levels_ok_AddPITOutput. now apply levels_ok_set_level.
Qed.

End Levels.

Ltac levels_step :=
  match goal with
  | |- levels_ok (AddPITOutput _ _) => apply levels_ok_AddPITOutput
  | H : levels_ok ?sf |- levels_ok (AddDelayEntry _ (pit_output_level ?sf) _) =>
      apply levels_ok_AddDelayEntry; [exact (proj1 (proj2 H))|]
  | |- levels_ok (AddDelayEntry _ SPKR_NEGATIVE_LEVEL _) =>
      apply levels_ok_AddDelayEntry; [apply level_ok_negative|]
  | |- levels_ok (AddDelayEntry _ SPKR_POSITIVE_LEVEL _) =>
      apply levels_ok_AddDelayEntry; [apply level_ok_positive|]
  | |- levels_ok (set_pit_output_level SPKR_POSITIVE_LEVEL _) =>
      apply levels_ok_set_level; [apply level_ok_positive|]
  | |- levels_ok (set_pit_output_level SPKR_NEGATIVE_LEVEL _) =>
      apply levels_ok_set_level; [apply level_ok_negative|]
  | |- @levels_ok ?F _ => peel (@levels_ok_frame F)
  end.

Section LevelsCalls.

Context {F : Type} {HF : FloatOps F} {HT : TimerConsts}.
Implicit Types (s : spkr_t F).

Lemma levels_ok_SetPITControl fuel t mode s s' :
  levels_ok s → PCSPEAKER_SetPITControl fuel t mode s = Some s' → levels_ok s'.
Proof.
  intros Hs. unfold PCSPEAKER_SetPITControl.
  destruct (ForwardPIT fuel t s) as [sf|] eqn:E; [|discriminate]. simpl.
  pose proof (ForwardPIT_emit_stable _ _ _ _ _ levels_ok_stable Hs E) as Hsf.
  repeat case_match; intros [= <-]; repeat levels_step; exact Hsf.
Qed.

Lemma levels_ok_SetCounter fuel t cntr mode s s' :
  levels_ok s → PCSPEAKER_SetCounter fuel t cntr mode s = Some s' → levels_ok s'.
Proof.
  intros Hs. unfold PCSPEAKER_SetCounter.
  destruct (ForwardPIT fuel t s) as [sf|] eqn:E; [|discriminate]. simpl.
  pose proof (ForwardPIT_emit_stable _ _ _ _ _ levels_ok_stable Hs E) as Hsf.
  repeat case_match; intros [= <-]; repeat levels_step; exact Hsf.
Qed.

Lemma levels_ok_SetType fuel t gate out s s' :
  levels_ok s → PCSPEAKER_SetType fuel t gate out s = Some s' → levels_ok s'.
Proof.
  intros Hs. unfold PCSPEAKER_SetType.
  destruct (ForwardPIT fuel t s) as [sf|] eqn:E; [|discriminate]. simpl.
  pose proof (ForwardPIT_emit_stable _ _ _ _ _ levels_ok_stable Hs E) as Hsf.
  repeat case_match; intros [= <-]; repeat levels_step; exact Hsf.
Qed.

Lemma levels_ok_CallBack fuel len s s' samples :
  levels_ok s → PCSPEAKER_CallBack fuel len s = Some (s', samples) → levels_ok s'.
Proof.
  intros Hs. unfold PCSPEAKER_CallBack.
  destruct (ForwardPIT fuel (f_of_Z 1) s) as [sf|] eqn:E; [|discriminate]. simpl.
  pose proof (ForwardPIT_emit_stable _ _ _ _ _ levels_ok_stable Hs E) as Hsf.
  destruct (CallBack_stream _ _) as [[written len'] level].
  intros [= <- _].
  do 3 levels_step. apply levels_ok_drained.
  rewrite synthesize_edges_buffer_only. do 2 levels_step. exact Hsf.
Qed.

Lemma reference_tracks_CallBack fuel len s s' samples :
  reference_tracks s → PCSPEAKER_CallBack fuel len s = Some (s', samples) →
  reference_tracks s'.
Proof.
  intros Hs. unfold PCSPEAKER_CallBack.
  destruct (ForwardPIT fuel (f_of_Z 1) s) as [sf|] eqn:E; [|discriminate]. simpl.
  pose proof (ForwardPIT_emit_stable _ _ _ _ _ reference_tracks_stable Hs E) as Hsf.
  destruct (CallBack_stream _ _) as [[written len'] level].
  intros [= <- _].
  do 4 reference_step.
  rewrite synthesize_edges_buffer_only. do 2 reference_step. exact Hsf.
Qed.

Lemma reachable_levels_ok pcrate kernel s :
  reachable pcrate kernel s → levels_ok s.
Proof.
  induction 1.
  - split; [|split; [now left | split; [now right|]]].
    + split; [simpl; unfold SPKR_ENTRIES; lia | apply length_replicate].
    + unfold edge_log. simpl. intros e He. now apply elem_of_nil in He.
  - eapply levels_ok_SetPITControl; eauto.
  - eapply levels_ok_SetCounter; eauto.
  - eapply levels_ok_SetType; eauto.
  - eapply levels_ok_CallBack; eauto.
Qed.

(** X6.  The speaker cone only ever has two positions: in every state the
    program reaches, the PIT output level, the level last submitted to the
    log and the level of every logged edge are [SPKR_POSITIVE_LEVEL] or
    [SPKR_NEGATIVE_LEVEL]. *)
Theorem levels_are_binary pcrate kernel s :
  reachable pcrate kernel s →
  level_ok (pit_output_level s)
  ∧ level_ok (previous_output_level s)
  ∧ ∀ e, e ∈ edge_log s → level_ok (output_level e).
Proof. intros Hr. now destruct (reachable_levels_ok _ _ _ Hr) as (_ & H). Qed.

(** X7.  The deduplication level of [AddDelayEntry] follows the cone: in
    every state the program reaches, the level last submitted to the log is
    the PIT output level while the PIT output is connected to the speaker,
    and the low level while it is not. *)
Theorem reference_level_tracks_output pcrate kernel s :
  reachable pcrate kernel s →
  previous_output_level s =
    if pit_output_enabled s then pit_output_level s else SPKR_NEGATIVE_LEVEL.
Proof.
  induction 1.
  - reflexivity.
  - eapply reference_tracks_SetPITControl; eauto.
  - eapply reference_tracks_SetCounter; eauto.
  - eapply reference_tracks_SetType; eauto.
  - eapply reference_tracks_CallBack; eauto.
Qed.

End LevelsCalls.

Lemma levels_are_binary_on :
  level_ok (pit_output_level boot32_on_low)
  ∧ level_ok (previous_output_level boot32_on_low)
  ∧ ∀ e, e ∈ edge_log boot32_on_low → level_ok (output_level e).
Proof.
  apply (levels_are_binary 48000 zero_kernel). reach_boot32_on_low.
Defined.

Lemma reference_level_tracks_output_on :
  previous_output_level boot32_on_low =
    if pit_output_enabled boot32_on_low
    then pit_output_level boot32_on_low else SPKR_NEGATIVE_LEVEL.
Proof.
  apply (reference_level_tracks_output 48000 zero_kernel). reach_boot32_on_low.
Defined.

(** ** The one-shot modes 0 and 1 *)

Section OneShot.

Context {F : Type} {HF : FloatOps F} {HT : TimerConsts}.
Implicit Types (s : spkr_t F).
















End OneShot.




(** ** The fallback for tones above half the sampling rate *)

Section Nyquist.

Context {F : Type} {HF : FloatOps F} {HT : TimerConsts}.
Implicit Types (s : spkr_t F).


End Nyquist.


(** * The VMware mouse protocol

    The second translation unit of the sources, [mouse_vmware.cpp]: the
    absolute-pointer protocol that a VMware-compatible guest driver speaks
    through the I/O port [0x5658].  The state is the file's statics, the
    CPU registers the port handler reads and writes, and [mouse_video] of
    [mouse.h].  [LOG_MSG], [LOG_WARNING], [GFX_UpdateMouseState] and
    [MOUSE_NotifyMovedFake] are defined elsewhere: their calls are recorded,
    in order, in [calls]. *)

(** ** IEEE binary64, for the [double] constant [0.499] *)

Module B64.

Definition prec : Z := 53.
Definition emax : Z := 1024.

Definition add := SFadd prec emax.
Definition div := SFdiv prec emax.
Definition of_Z (n : Z) : spec_float := binary_normalize prec emax n 0 false.

(** A [float] promoted to [double]: the value is kept. *)
Definition of_float (x : spec_float) : spec_float :=
  match x with
  | S754_finite s m e => binary_normalize prec emax (cond_Zopp s (Zpos m)) e s
  | _ => x
  end.

End B64.

(** ** Constants and state *)

Definition VMWARE_MAGIC : Z := 0x564D5868.

(** [enum VMwareCmd] *)
Definition GETVERSION : Z := 10.
Definition ABSPOINTER_DATA : Z := 39.
Definition ABSPOINTER_STATUS : Z := 40.
Definition ABSPOINTER_COMMAND : Z := 41.

(** [enum VMwareAbsPointer] *)
Definition ENABLE : Z := 0x45414552.
Definition RELATIVE : Z := 0xF5.
Definition ABSOLUTE : Z := 0x53424152.

(** [enum VMwareButton] *)
Definition LEFT : Z := 0x20.
Definition RIGHT : Z := 0x10.
Definition MIDDLE : Z := 0x08.

Definition to_uint16 (z : Z) : Z := z mod 2 ^ 16.

(** [std::clamp] *)
Definition std_clamp (v lo hi : Z) : Z :=
  if v <? lo then lo else if hi <? v then hi else v.

Inductive external_call : Type :=
  | LOG_MSG
  | LOG_WARNING
  | GFX_UpdateMouseState
  | MOUSE_NotifyMovedFake.

(** [MouseInfoVideo] of [mouse.h]; the resolutions and borders are
    [uint16_t]. *)
Record MouseInfoVideo : Type := mk_video {
  fullscreen : bool;
  res_x : Z;
  res_y : Z;
  clip_x : Z;
  clip_y : Z
}.

Record vmware_t : Type := mk_vmware {
  reg_eax : Z;
  reg_ebx : Z;
  reg_ecx : Z;
  reg_edx : Z;
  updated : bool;
  buttons_vmware : Z;
  scaled_x : Z;
  scaled_y : Z;
  wheel : Z;
  offset_x : Z;
  offset_y : Z;
  mouse_vmware : bool;
  mouse_video : MouseInfoVideo;
  calls : list external_call
}.

Definition set_reg_eax (v : Z) (st : vmware_t) : vmware_t :=
  {| reg_eax := v; reg_ebx := reg_ebx st; reg_ecx := reg_ecx st; reg_edx :=
     reg_edx st; updated := updated st; buttons_vmware := buttons_vmware st;
     scaled_x := scaled_x st; scaled_y := scaled_y st; wheel := wheel st;
     offset_x := offset_x st; offset_y := offset_y st; mouse_vmware :=
     mouse_vmware st; mouse_video := mouse_video st; calls := calls st |}.

Definition set_reg_ebx (v : Z) (st : vmware_t) : vmware_t :=
  {| reg_eax := reg_eax st; reg_ebx := v; reg_ecx := reg_ecx st; reg_edx :=
     reg_edx st; updated := updated st; buttons_vmware := buttons_vmware st;
     scaled_x := scaled_x st; scaled_y := scaled_y st; wheel := wheel st;
     offset_x := offset_x st; offset_y := offset_y st; mouse_vmware :=
     mouse_vmware st; mouse_video := mouse_video st; calls := calls st |}.

Definition set_reg_ecx (v : Z) (st : vmware_t) : vmware_t :=
  {| reg_eax := reg_eax st; reg_ebx := reg_ebx st; reg_ecx := v; reg_edx :=
     reg_edx st; updated := updated st; buttons_vmware := buttons_vmware st;
     scaled_x := scaled_x st; scaled_y := scaled_y st; wheel := wheel st;
     offset_x := offset_x st; offset_y := offset_y st; mouse_vmware :=
     mouse_vmware st; mouse_video := mouse_video st; calls := calls st |}.

Definition set_reg_edx (v : Z) (st : vmware_t) : vmware_t :=
  {| reg_eax := reg_eax st; reg_ebx := reg_ebx st; reg_ecx := reg_ecx st;
     reg_edx := v; updated := updated st; buttons_vmware := buttons_vmware
     st; scaled_x := scaled_x st; scaled_y := scaled_y st; wheel := wheel
     st; offset_x := offset_x st; offset_y := offset_y st; mouse_vmware :=
     mouse_vmware st; mouse_video := mouse_video st; calls := calls st |}.

Definition set_updated (v : bool) (st : vmware_t) : vmware_t :=
  {| reg_eax := reg_eax st; reg_ebx := reg_ebx st; reg_ecx := reg_ecx st;
     reg_edx := reg_edx st; updated := v; buttons_vmware := buttons_vmware
     st; scaled_x := scaled_x st; scaled_y := scaled_y st; wheel := wheel
     st; offset_x := offset_x st; offset_y := offset_y st; mouse_vmware :=
     mouse_vmware st; mouse_video := mouse_video st; calls := calls st |}.

Definition set_buttons_vmware (v : Z) (st : vmware_t) : vmware_t :=
  {| reg_eax := reg_eax st; reg_ebx := reg_ebx st; reg_ecx := reg_ecx st;
     reg_edx := reg_edx st; updated := updated st; buttons_vmware := v;
     scaled_x := scaled_x st; scaled_y := scaled_y st; wheel := wheel st;
     offset_x := offset_x st; offset_y := offset_y st; mouse_vmware :=
     mouse_vmware st; mouse_video := mouse_video st; calls := calls st |}.

Definition set_scaled_x (v : Z) (st : vmware_t) : vmware_t :=
  {| reg_eax := reg_eax st; reg_ebx := reg_ebx st; reg_ecx := reg_ecx st;
     reg_edx := reg_edx st; updated := updated st; buttons_vmware :=
     buttons_vmware st; scaled_x := v; scaled_y := scaled_y st; wheel :=
     wheel st; offset_x := offset_x st; offset_y := offset_y st;
     mouse_vmware := mouse_vmware st; mouse_video := mouse_video st; calls
     := calls st |}.

Definition set_scaled_y (v : Z) (st : vmware_t) : vmware_t :=
  {| reg_eax := reg_eax st; reg_ebx := reg_ebx st; reg_ecx := reg_ecx st;
     reg_edx := reg_edx st; updated := updated st; buttons_vmware :=
     buttons_vmware st; scaled_x := scaled_x st; scaled_y := v; wheel :=
     wheel st; offset_x := offset_x st; offset_y := offset_y st;
     mouse_vmware := mouse_vmware st; mouse_video := mouse_video st; calls
     := calls st |}.

Definition set_wheel (v : Z) (st : vmware_t) : vmware_t :=
  {| reg_eax := reg_eax st; reg_ebx := reg_ebx st; reg_ecx := reg_ecx st;
     reg_edx := reg_edx st; updated := updated st; buttons_vmware :=
     buttons_vmware st; scaled_x := scaled_x st; scaled_y := scaled_y st;
     wheel := v; offset_x := offset_x st; offset_y := offset_y st;
     mouse_vmware := mouse_vmware st; mouse_video := mouse_video st; calls
     := calls st |}.

Definition set_offset_x (v : Z) (st : vmware_t) : vmware_t :=
  {| reg_eax := reg_eax st; reg_ebx := reg_ebx st; reg_ecx := reg_ecx st;
     reg_edx := reg_edx st; updated := updated st; buttons_vmware :=
     buttons_vmware st; scaled_x := scaled_x st; scaled_y := scaled_y st;
     wheel := wheel st; offset_x := v; offset_y := offset_y st; mouse_vmware
     := mouse_vmware st; mouse_video := mouse_video st; calls := calls st |}.

Definition set_offset_y (v : Z) (st : vmware_t) : vmware_t :=
  {| reg_eax := reg_eax st; reg_ebx := reg_ebx st; reg_ecx := reg_ecx st;
     reg_edx := reg_edx st; updated := updated st; buttons_vmware :=
     buttons_vmware st; scaled_x := scaled_x st; scaled_y := scaled_y st;
     wheel := wheel st; offset_x := offset_x st; offset_y := v; mouse_vmware
     := mouse_vmware st; mouse_video := mouse_video st; calls := calls st |}.

Definition set_mouse_vmware (v : bool) (st : vmware_t) : vmware_t :=
  {| reg_eax := reg_eax st; reg_ebx := reg_ebx st; reg_ecx := reg_ecx st;
     reg_edx := reg_edx st; updated := updated st; buttons_vmware :=
     buttons_vmware st; scaled_x := scaled_x st; scaled_y := scaled_y st;
     wheel := wheel st; offset_x := offset_x st; offset_y := offset_y st;
     mouse_vmware := v; mouse_video := mouse_video st; calls := calls st |}.


Definition set_calls (v : list external_call) (st : vmware_t) : vmware_t :=
  {| reg_eax := reg_eax st; reg_ebx := reg_ebx st; reg_ecx := reg_ecx st;
     reg_edx := reg_edx st; updated := updated st; buttons_vmware :=
     buttons_vmware st; scaled_x := scaled_x st; scaled_y := scaled_y st;
     wheel := wheel st; offset_x := offset_x st; offset_y := offset_y st;
     mouse_vmware := mouse_vmware st; mouse_video := mouse_video st; calls
     := v |}.

(** The statics as the file initialises them, with the default
    [MouseInfoVideo]. *)
Definition vmware_init : vmware_t :=
  {| reg_eax := 0; reg_ebx := 0; reg_ecx := 0; reg_edx := 0;
     updated := false; buttons_vmware := 0;
     scaled_x := 0x7fff; scaled_y := 0x7fff; wheel := 0;
     offset_x := 0; offset_y := 0; mouse_vmware := false;
     mouse_video := {| fullscreen := true; res_x := 320; res_y := 200;
                       clip_x := 0; clip_y := 0 |};
     calls := [] |}.

Definition call (c : external_call) (st : vmware_t) : vmware_t :=
  set_calls (calls st ++ [c]) st.

(** The 16-bit views [reg_ax] and [reg_cx]. *)
Definition reg_ax (st : vmware_t) : Z := reg_eax st mod 2 ^ 16.
Definition reg_cx (st : vmware_t) : Z := reg_ecx st mod 2 ^ 16.

(** ** The port handler *)

Definition CmdGetVersion (st : vmware_t) : vmware_t :=
  let st := set_reg_eax 0 st in
  set_reg_ebx VMWARE_MAGIC st.

Definition CmdAbsPointerData (st : vmware_t) : vmware_t :=
  let st := set_reg_eax (buttons_vmware st) st in
  let st := set_reg_ebx (scaled_x st) st in
  let st := set_reg_ecx (scaled_y st) st in
  let st := set_reg_edx
              (to_uint32 (if wheel st >=? 0 then wheel st else 0x100 + wheel st)) st in
  set_wheel 0 st.

Definition CmdAbsPointerStatus (st : vmware_t) : vmware_t :=
  let st := set_reg_eax (if updated st then 4 else 0) st in
  set_updated false st.

Definition CmdAbsPointerCommand (st : vmware_t) : vmware_t :=
  if reg_ebx st =? ENABLE then st
  else if reg_ebx st =? RELATIVE then
    let st := set_mouse_vmware false st in
    let st := call LOG_MSG st in
    call GFX_UpdateMouseState st
  else if reg_ebx st =? ABSOLUTE then
    let st := set_mouse_vmware true st in
    let st := set_wheel 0 st in
    let st := call LOG_MSG st in
    call GFX_UpdateMouseState st
  else call LOG_WARNING st.

(** The value the guest reads, and the new state. *)
Definition PortReadVMware (st : vmware_t) : Z * vmware_t :=
  if negb (reg_eax st =? VMWARE_MAGIC) then (0, st)
  else
    let st :=
      if reg_cx st =? GETVERSION then CmdGetVersion st
      else if reg_cx st =? ABSPOINTER_DATA then CmdAbsPointerData st
      else if reg_cx st =? ABSPOINTER_STATUS then CmdAbsPointerStatus st
      else if reg_cx st =? ABSPOINTER_COMMAND then CmdAbsPointerCommand st
      else call LOG_WARNING st in
    (reg_ax st, st).

(** ** Notifications from the host side *)

(** One axis of the border logic of the fullscreen case: the offset between
    host and guest position, adjusted so that the guest position stays on
    the picture. *)
Definition fullscreen_offset (abs offset clip res : Z) : Z :=
  if abs + offset <? clip then to_int16 (clip - abs)
  else if abs + offset >=? res + clip then to_int16 (res + clip - abs - 1)
  else offset.

(** [vmw * 0xffff / (res - 1) + 0.499], cut to [0 .. 0xffff]: the product
    and the quotient are [float]s, the sum with the [double] constant is a
    [double]. *)
Definition scale_axis (vmw : spec_float) (res : Z) : Z :=
  let q := B32.div (B32.mul vmw (B32.of_Z 0xffff)) (B32.of_Z (res - 1)) in
  let d := B64.add (B64.of_float q) (B64.div (B64.of_Z 499) (B64.of_Z 1000)) in
  to_uint16 (Z.min 0xffff (to_uint32 (B32.trunc d))).

(** The result is the returned [bool] and the new state.  The sums of
    positions, offsets and borders are [int] sums in the source; they are
    taken in [Z], which agrees with [int32_t] as long as they do not
    overflow. *)
Definition MOUSEVMWARE_NotifyMoved (x_abs y_abs : Z) (st : vmware_t)
  : bool * vmware_t :=
  let v := mouse_video st in
  let '(vmw_x, vmw_y, st) :=
    if fullscreen v then
      let st := set_offset_x
                  (fullscreen_offset x_abs (offset_x st) (clip_x v) (res_x v)) st in
      let st := set_offset_y
                  (fullscreen_offset y_abs (offset_y st) (clip_y v) (res_y v)) st in
      (B32.of_Z (x_abs + offset_x st - clip_x v),
       B32.of_Z (y_abs + offset_y st - clip_y v), st)
    else
      (B32.of_Z (Z.max (x_abs - clip_x v) 0),
       B32.of_Z (Z.max (y_abs - clip_y v) 0), st) in
  let old_x := scaled_x st in
  let old_y := scaled_y st in
  let st := set_scaled_x (scale_axis vmw_x (res_x v)) st in
  let st := set_scaled_y (scale_axis vmw_y (res_y v)) st in
  let st := set_updated true st in
  (mouse_vmware st
   && (negb (old_x =? scaled_x st) || negb (old_y =? scaled_y st)), st).

Definition MOUSEVMWARE_NotifyPressedReleased (buttons_12S : Z) (st : vmware_t)
  : vmware_t :=
  let st := set_buttons_vmware 0 st in
  let st := if negb (Z.land buttons_12S 1 =? 0)
            then set_buttons_vmware (Z.lor (buttons_vmware st) LEFT) st else st in
  let st := if negb (Z.land buttons_12S 2 =? 0)
            then set_buttons_vmware (Z.lor (buttons_vmware st) RIGHT) st else st in
  let st := if negb (Z.land buttons_12S 4 =? 0)
            then set_buttons_vmware (Z.lor (buttons_vmware st) MIDDLE) st else st in
  set_updated true st.


Definition MOUSEVMWARE_NewScreenParams (x_abs y_abs : Z) (st : vmware_t)
  : vmware_t :=
  let v := mouse_video st in
  let st := set_offset_x
              (to_int16 (std_clamp (offset_x st) (- clip_x v) (clip_x v))) st in
  let st := set_offset_y
              (to_int16 (std_clamp (offset_y st) (- clip_y v) (clip_y v))) st in
  let '(moved, st) := MOUSEVMWARE_NotifyMoved x_abs y_abs st in
  if moved && mouse_vmware st then call MOUSE_NotifyMovedFake st else st.

(** ** Properties of the VMware mouse protocol *)

Section VMwareMouse.

Implicit Types (st : vmware_t).

Lemma land_pow2 (b k : Z) :
  0 <= k → Z.land b (2 ^ k) = if Z.testbit b k then 2 ^ k else 0.
Proof.
  intros Hk. apply Z.bits_inj'. intros n Hn.
  rewrite Z.land_spec, Z.pow2_bits_eqb by lia.
  destruct (Z.eqb_spec k n) as [->|Hne].
  - destruct (Z.testbit b n); simpl.
    + now rewrite Z.pow2_bits_eqb, Z.eqb_refl by lia.
    + now rewrite Z.bits_0.
  - rewrite andb_false_r. destruct (Z.testbit b k).
    + rewrite Z.pow2_bits_eqb by lia. symmetry. now apply Z.eqb_neq.
    + now rewrite Z.bits_0.
Qed.

(** X11.  [MOUSEVMWARE_NotifyPressedReleased] translates the button mask:
    bit 0 (left) becomes [0x20], bit 1 (right) [0x10], bit 2 (middle) [0x08],
    every other bit of the argument is ignored, and the buttons held before
    are forgotten.  The data command then hands exactly this mask to the
    guest in [eax]. *)
Theorem NotifyPressedReleased_buttons (b : Z) st :
  let st1 := MOUSEVMWARE_NotifyPressedReleased b st in
  buttons_vmware st1
  = (if Z.testbit b 0 then LEFT else 0)
    + (if Z.testbit b 1 then RIGHT else 0)
    + (if Z.testbit b 2 then MIDDLE else 0)
  ∧ updated st1 = true
  ∧ reg_eax (CmdAbsPointerData st1) = buttons_vmware st1.
Proof.
  assert (∀ k, 0 <= k → negb (Z.land b (2 ^ k) =? 0) = Z.testbit b k) as Hbit.
  { intros k Hk. rewrite land_pow2 by exact Hk.
    destruct (Z.testbit b k); [|reflexivity].
    assert (0 < 2 ^ k) by (apply Z.pow_pos_nonneg; lia).
    destruct (Z.eqb_spec (2 ^ k) 0); [lia | reflexivity]. }
  pose proof (Hbit 0 ltac:(lia)) as H0. pose proof (Hbit 1 ltac:(lia)) as H1.
  pose proof (Hbit 2 ltac:(lia)) as H2.
  change (2 ^ 0) with 1 in H0. change (2 ^ 1) with 2 in H1.
  change (2 ^ 2) with 4 in H2.
  unfold MOUSEVMWARE_NotifyPressedReleased. rewrite H0, H1, H2.
  destruct (Z.testbit b 0), (Z.testbit b 1), (Z.testbit b 2); repeat split.
Qed.


(** The guest loads the registers and reads the port. *)
Definition guest_in (cmd arg : Z) st : Z * vmware_t :=
  PortReadVMware (set_reg_ebx arg (set_reg_ecx cmd (set_reg_eax VMWARE_MAGIC st))).

(** X13.  The [updated] flag is handed over once.  After a button
    notification, the first status read of the guest returns 4 and clears the
    flag; a second status read returns 0; and a port read for which the guest
    has not put the magic number back into [eax] returns 0 and changes
    nothing. *)
Theorem status_reported_once (b arg arg' : Z) st :
  let st1 := MOUSEVMWARE_NotifyPressedReleased b st in
  let '(r2, st2) := guest_in ABSPOINTER_STATUS arg st1 in
  let '(r3, st3) := guest_in ABSPOINTER_STATUS arg' st2 in
  r2 = 4 ∧ updated st2 = false
  ∧ r3 = 0 ∧ updated st3 = false
  ∧ PortReadVMware st2 = (0, st2)
  ∧ PortReadVMware st3 = (0, st3).
Proof.
  unfold MOUSEVMWARE_NotifyPressedReleased, guest_in, PortReadVMware.
  cbn [reg_eax set_reg_eax set_reg_ebx set_reg_ecx].
  change (VMWARE_MAGIC =? VMWARE_MAGIC) with true.
  cbn [negb]. unfold reg_cx. cbn [reg_ecx set_reg_eax set_reg_ebx set_reg_ecx].
  change (ABSPOINTER_STATUS mod 2 ^ 16 =? GETVERSION) with false.
  change (ABSPOINTER_STATUS mod 2 ^ 16 =? ABSPOINTER_DATA) with false.
  change (ABSPOINTER_STATUS mod 2 ^ 16 =? ABSPOINTER_STATUS) with true.
  cbv iota.
  destruct (negb (Z.land b 1 =? 0)), (negb (Z.land b 2 =? 0)),
    (negb (Z.land b 4 =? 0)); repeat split.
Qed.

Lemma fullscreen_offset_confined (abs offset clip res : Z) :
  1 <= res →
  - 2 ^ 15 <= offset < 2 ^ 15 →
  clip - abs < 2 ^ 15 →
  - 2 ^ 15 <= res + clip - abs - 1 →
  clip <= abs + fullscreen_offset abs offset clip res < clip + res.
Proof.
  intros Hres Hoff Hlo Hhi. unfold fullscreen_offset.
  destruct (Z.ltb_spec (abs + offset) clip).
  - unfold to_int16. rewrite Z.mod_small; lia.
  - destruct (Z.geb_spec (abs + offset) (res + clip)).
    + unfold to_int16. rewrite Z.mod_small; lia.
    + lia.
Qed.

(** X14.  In fullscreen mode the guest position never leaves the picture:
    [MOUSEVMWARE_NotifyMoved] moves the offsets between host and guest
    position so that the host position plus the offset lies within the
    picture, from the border [clip] to [clip + res - 1], on both axes.  The
    host position is taken within the reach of the [int16_t] offsets. *)
Theorem NotifyMoved_fullscreen_confined (x_abs y_abs : Z) st :
  let v := mouse_video st in
  fullscreen v = true →
  1 <= res_x v → 1 <= res_y v →
  - 2 ^ 15 <= offset_x st < 2 ^ 15 →
  - 2 ^ 15 <= offset_y st < 2 ^ 15 →
  clip_x v - x_abs < 2 ^ 15 → - 2 ^ 15 <= res_x v + clip_x v - x_abs - 1 →
  clip_y v - y_abs < 2 ^ 15 → - 2 ^ 15 <= res_y v + clip_y v - y_abs - 1 →
  let st' := (MOUSEVMWARE_NotifyMoved x_abs y_abs st).2 in
  clip_x v <= x_abs + offset_x st' < clip_x v + res_x v
  ∧ clip_y v <= y_abs + offset_y st' < clip_y v + res_y v
  ∧ mouse_video st' = v
  ∧ updated st' = true.
Proof.
  intros v Hfs Hrx Hry Hox Hoy Hx1 Hx2 Hy1 Hy2.
  unfold MOUSEVMWARE_NotifyMoved. fold v. rewrite Hfs. cbv zeta. simpl.
  split; [now apply fullscreen_offset_confined|].
  split; [now apply fullscreen_offset_confined|]. split; reflexivity.
Qed.

(** What [MOUSEVMWARE_NotifyMoved] reports and what it leaves alone. *)
Lemma NotifyMoved_frame (x_abs y_abs : Z) st :
  let r := MOUSEVMWARE_NotifyMoved x_abs y_abs st in
  calls r.2 = calls st
  ∧ mouse_vmware r.2 = mouse_vmware st
  ∧ mouse_video r.2 = mouse_video st
  ∧ updated r.2 = true
  ∧ r.1 = mouse_vmware st
          && (negb (scaled_x st =? scaled_x r.2)
              || negb (scaled_y st =? scaled_y r.2))
  ∧ (fullscreen (mouse_video st) = false →
     offset_x r.2 = offset_x st ∧ offset_y r.2 = offset_y st).
Proof.
  unfold MOUSEVMWARE_NotifyMoved.
  destruct (fullscreen (mouse_video st)); cbv zeta;
    cbn -[scale_axis fullscreen_offset]; repeat split; discriminate.
Qed.

(** X15.  [MOUSEVMWARE_NewScreenParams] reports a fake movement, by one call
    of [MOUSE_NotifyMovedFake], exactly when the protocol is enabled and the
    scaled position changed; it calls nothing else, and leaves the protocol
    switch alone.  In windowed mode it also leaves each offset within the
    width of its border. *)
Theorem NewScreenParams_fake_movement (x_abs y_abs : Z) st :
  let v := mouse_video st in
  let st' := MOUSEVMWARE_NewScreenParams x_abs y_abs st in
  calls st'
  = calls st
    ++ (if mouse_vmware st
           && (negb (scaled_x st =? scaled_x st')
               || negb (scaled_y st =? scaled_y st'))
        then [MOUSE_NotifyMovedFake] else [])
  ∧ mouse_vmware st' = mouse_vmware st
  ∧ updated st' = true
  ∧ (fullscreen v = false →
     - 2 ^ 15 <= offset_x st < 2 ^ 15 → - 2 ^ 15 <= offset_y st < 2 ^ 15 →
     0 <= clip_x v → 0 <= clip_y v →
     - clip_x v <= offset_x st' <= clip_x v
     ∧ - clip_y v <= offset_y st' <= clip_y v).
Proof.
  intros v. unfold MOUSEVMWARE_NewScreenParams. fold v.
  pose (ox := to_int16 (std_clamp (offset_x st) (- clip_x v) (clip_x v))).
  pose (oy := to_int16 (std_clamp (offset_y st) (- clip_y v) (clip_y v))).
  match goal with
  | |- context [MOUSEVMWARE_NotifyMoved x_abs y_abs ?X] => set (st1 := X)
  end.
  assert (∀ o c, - 2 ^ 15 <= o < 2 ^ 15 → 0 <= c →
                 - c <= to_int16 (std_clamp o (- c) c) <= c) as Hclamp.
  { intros o c Ho Hc. unfold std_clamp, to_int16.
    destruct (Z.ltb_spec o (- c)); [rewrite Z.mod_small; lia|].
    destruct (Z.ltb_spec c o); rewrite Z.mod_small; lia. }
  pose proof (NotifyMoved_frame x_abs y_abs st1) as Hf. cbv zeta in Hf.
  destruct (MOUSEVMWARE_NotifyMoved x_abs y_abs st1) as [moved st2].
  cbn [fst snd] in Hf. destruct Hf as (Hc & Hm & Hv & Hu & Hmoved & Hoff).
  change (calls st1) with (calls st) in Hc.
  change (mouse_vmware st1) with (mouse_vmware st) in Hm, Hmoved.
  change (scaled_x st1) with (scaled_x st) in Hmoved.
  change (scaled_y st1) with (scaled_y st) in Hmoved.
  change (mouse_video st1) with (mouse_video st) in Hv, Hoff.
  change (offset_x st1) with ox in Hoff. change (offset_y st1) with oy in Hoff.
  fold v in Hoff. rewrite Hm.
  assert (moved && mouse_vmware st = moved) as ->.
  { rewrite Hmoved. destruct (mouse_vmware st); [|reflexivity].
    now rewrite andb_true_r. }
  destruct moved eqn:Emoved.
  - unfold call. cbn [calls scaled_x scaled_y mouse_vmware updated offset_x offset_y
                      set_calls].
    rewrite <- Hmoved, Hc. split; [reflexivity|]. split; [exact Hm|].
    split; [exact Hu|]. intros Hw Hox Hoy Hcx Hcy.
    destruct (Hoff Hw) as [-> ->]. split; now apply Hclamp.
  - rewrite <- Hmoved, Hc, app_nil_r. split; [reflexivity|]. split; [exact Hm|].
    split; [exact Hu|]. intros Hw Hox Hoy Hcx Hcy.
    destruct (Hoff Hw) as [-> ->]. split; now apply Hclamp.
Qed.


End VMwareMouse.

(** The default screen of 320 by 200 without borders, the host pointer far
    to the right of it and above it. *)
Lemma NotifyMoved_fullscreen_confined_init :
  let st' := (MOUSEVMWARE_NotifyMoved 500 (-7) vmware_init).2 in
  0 <= 500 + offset_x st' < 0 + 320
  ∧ 0 <= -7 + offset_y st' < 0 + 200
  ∧ mouse_video st' = mouse_video vmware_init
  ∧ updated st' = true.
Proof.
  apply (NotifyMoved_fullscreen_confined 500 (-7) vmware_init);
    first [reflexivity | vm_compute; lia | vm_compute; intuition discriminate].
Defined.


(** ** The scaled position at the edges of the picture *)







(** ** Mode 2 with a count of zero, in exact arithmetic *)

Section RateGeneratorZero.

Context {HT : TimerConsts}.
Implicit Types (s : spkr_t Qc).




End RateGeneratorZero.


(** ** The modes the timer is ever in *)

Section ImplementedModes.

Context {F : Type} {HF : FloatOps F} {HT : TimerConsts}.
Implicit Types (s : spkr_t F).

(** The cases of the [switch] of [ForwardPIT]. *)
Definition mode_implemented s : Prop :=
  pit_mode s = 0 ∨ pit_mode s = 1 ∨ pit_mode s = 2 ∨ pit_mode s = 3
  ∨ pit_mode s = 4 ∨ pit_mode s = 6.

Lemma mode_implemented_frame s s' :
  mode_implemented s → pit_mode s' = pit_mode s → mode_implemented s'.
Proof. unfold mode_implemented. intros H ->. exact H. Qed.

Lemma mode_implemented_stable : forward_stable mode_implemented.
Proof.
  constructor; try (intros v s H; exact H).
  intros idx lvl s H. apply (mode_implemented_frame s _ H).
  now destruct (AddDelayEntry_same_timer idx lvl s) as (-> & _).
Qed.

Lemma mode_implemented_AddPITOutput idx s :
  mode_implemented s → mode_implemented (AddPITOutput idx s).
Proof. apply AddPITOutput_stable, mode_implemented_stable. Qed.

Lemma mode_implemented_AddDelayEntry idx lvl s :
  mode_implemented s → mode_implemented (AddDelayEntry idx lvl s).
Proof. apply (fs_AddDelayEntry _ mode_implemented_stable). Qed.

Lemma mode_implemented_set v s :
  v = 0 ∨ v = 1 ∨ v = 2 ∨ v = 3 ∨ v = 4 ∨ v = 6 →
  mode_implemented (set_pit_mode v s).
Proof. intros H. exact H. Qed.

End ImplementedModes.

Ltac mode_step :=
  match goal with
  | |- mode_implemented (AddPITOutput _ _) => apply mode_implemented_AddPITOutput
  | |- mode_implemented (AddDelayEntry _ _ _) => apply mode_implemented_AddDelayEntry
  | |- mode_implemented (set_pit_mode _ _) => apply mode_implemented_set; tauto
  | |- @mode_implemented ?F _ => peel (@mode_implemented_frame F)
  end.

Section ImplementedModesCalls.

Context {F : Type} {HF : FloatOps F} {HT : TimerConsts}.
Implicit Types (s : spkr_t F).

(** X19.  The timer is always in a mode that [ForwardPIT] implements: in
    every state the program reaches, [pit_mode] is 0, 1, 2, 3, 4 or the
    dummy mode 6, whatever mode numbers the control calls are given. *)
Theorem pit_mode_is_implemented pcrate kernel s :
  reachable pcrate kernel s →
  pit_mode s = 0 ∨ pit_mode s = 1 ∨ pit_mode s = 2 ∨ pit_mode s = 3
  ∨ pit_mode s = 4 ∨ pit_mode s = 6.
Proof.
  change (reachable pcrate kernel s → mode_implemented s).
  induction 1 as [|fuel t mode s s' _ IH Hc|fuel t cntr mode s s' _ IH Hc
                  |fuel t gate out s s' _ IH Hc|fuel len s s' samples _ IH Hc].
  - unfold mode_implemented. simpl. tauto.
  - revert Hc. unfold PCSPEAKER_SetPITControl.
    destruct (ForwardPIT fuel t s) as [sf|] eqn:E; [|discriminate]. simpl.
    pose proof (ForwardPIT_stable _ _ _ _ _ mode_implemented_stable IH E) as Hsf.
    repeat case_match; intros [= <-]; repeat mode_step; exact Hsf.
  - revert Hc. unfold PCSPEAKER_SetCounter.
    destruct (ForwardPIT fuel t s) as [sf|] eqn:E; [|discriminate]. simpl.
    pose proof (ForwardPIT_stable _ _ _ _ _ mode_implemented_stable IH E) as Hsf.
    repeat case_match; intros [= <-]; repeat mode_step; exact Hsf.
  - revert Hc. unfold PCSPEAKER_SetType.
    destruct (ForwardPIT fuel t s) as [sf|] eqn:E; [|discriminate]. simpl.
    pose proof (ForwardPIT_stable _ _ _ _ _ mode_implemented_stable IH E) as Hsf.
    repeat case_match; intros [= <-]; repeat mode_step; exact Hsf.
  - revert Hc. unfold PCSPEAKER_CallBack.
    destruct (ForwardPIT fuel (f_of_Z 1) s) as [sf|] eqn:E; [|discriminate]. simpl.
    pose proof (ForwardPIT_stable _ _ _ _ _ mode_implemented_stable IH E) as Hsf.
    destruct (CallBack_stream _ _) as [[written len'] level].
    intros [= <- _]. do 4 mode_step.
    rewrite synthesize_edges_buffer_only. do 2 mode_step. exact Hsf.
Qed.

End ImplementedModesCalls.

(** An unsupported mode number given to [SetCounter] leaves the mode. *)
Lemma pit_mode_is_implemented_on :
  let s := default boot32_on (PCSPEAKER_SetCounter 8 (b32_frac 1 8) 100 5 boot32_on) in
  pit_mode s = 0 ∨ pit_mode s = 1 ∨ pit_mode s = 2 ∨ pit_mode s = 3
  ∨ pit_mode s = 4 ∨ pit_mode s = 6.
Proof.
  intros s. apply (pit_mode_is_implemented 48000 zero_kernel s).
  apply (reach_SetCounter _ _ 8%nat (b32_frac 1 8) 100 5 boot32_on).
  - apply (reach_SetType _ _ 8%nat (B32.of_Z 0) true true boot32);
      [apply reach_Init | vm_compute; reflexivity].
  - vm_compute. reflexivity.
Defined.

(** ** The clock gate in mode 3 *)

Section GateLow.

Context {F : Type} {HF : FloatOps F} {HT : TimerConsts}.
Implicit Types (s : spkr_t F).




End GateLow.

